(** * MiniJS host binding (minijspp): values, ownership and the callback trampoline

    A shallow embedding of [MiniJspp.hpp] (the C++ convenience layer) over the
    C boundary declared in [Api.h].  The scripting runtime behind the boundary
    is not part of the repository sources: every call into it is recorded as
    an event of a trace, and the answers it gives are taken from a [Runtime]
    record of oracles, so that every statement below holds for any runtime. *)

From Stdlib Require Import ZArith NArith Ascii String List Bool Lia.
From Stdlib Require Import Floats.
From stdpp Require Import base option list strings gmap fin_maps.

Local Open Scope Z_scope.

(** ** Api.h: the value transport *)

(** [void*]: an address, [0] is [nullptr]. *)
Definition ptr := N.
Definition nullptr : ptr := 0%N.

(** [const char*] / [char*]: [None] is the null pointer, [Some s] points at
    the bytes of [s] followed by the terminating NUL. *)
Definition cstr := option string.

(** [enum minijs_kind : int32_t] *)
Definition MINIJS_NULL : Z := 0.
Definition MINIJS_NUMBER : Z := 1.
Definition MINIJS_BOOL : Z := 2.
Definition MINIJS_STRING : Z := 3.
Definition MINIJS_ARRAY : Z := 4.
Definition MINIJS_OBJECT : Z := 5.
Definition MINIJS_FUNCTION : Z := 6.
Definition MINIJS_CLASS : Z := 7.
Definition MINIJS_TASK : Z := 8.

(** [struct minijs_value] *)
Record minijs_value := mk_minijs_value {
  nv_kind : Z;          (* int32_t kind *)
  nv_num : float;       (* double num *)
  nv_boolean : Z;       (* int32_t boolean *)
  nv_str : cstr;        (* const char* str *)
  nv_handle : ptr       (* void* handle *)
}.

(** [minijs_value r{}]: value initialisation, every field zero. *)
Definition nv_zero : minijs_value :=
  mk_minijs_value 0 0%float 0 None nullptr.

(** ** Effects: calls into the runtime, failures *)

(** One event per call of a function of [Api.h]. *)
Inductive Event :=
| EvRetain (h : ptr)                                   (* minijs_handle_retain *)
| EvRelease (h : ptr)                                  (* minijs_handle_release *)
| EvMalloc (n : N)                                     (* minijs_malloc *)
| EvFree                                               (* minijs_free *)
| EvGlobalDeclare (it : ptr) (name : string) (v : minijs_value)  (* minijs_global_declare *)
| EvClassAddMethod (cls : ptr) (name : string) (fn : ptr)
| EvObjectHas (h : ptr) (key : string)
| EvObjectGet (h : ptr) (key : string)
| EvObjectSet (h : ptr) (key : string) (v : minijs_value)
| EvObjectKeys (h : ptr)
| EvArrayLength (h : ptr)
| EvArrayGet (h : ptr) (index : Z)
| EvArraySet (h : ptr) (index : Z) (v : minijs_value)
| EvArrayPush (h : ptr) (v : minijs_value)
| EvHost (tag : string).                               (* anything a host closure does besides *)

(** Chronological: the last event is the most recent call. *)
Definition Trace := list Event.

(** What a [throw] carries, as the two handlers of the trampoline tell them
    apart: [catch (const std::exception& e)] and [catch (...)]. *)
Inductive exn :=
| StdException (what : string)
| OtherException.

Inductive Outcome (A : Type) :=
| Ok (a : A)
| Throw (e : exn).
Arguments Ok {A} a.
Arguments Throw {A} e.

(** A computation reads the trace so far and returns its outcome with the
    extended trace; the events of a computation that throws stay. *)
Definition M (A : Type) : Type := Trace -> Outcome A * Trace.

Definition ret {A} (a : A) : M A := fun t => (Ok a, t).
Definition throw {A} (e : exn) : M A := fun t => (Throw e, t).
Definition bind {A B} (m : M A) (k : A -> M B) : M B :=
  fun t => match m t with
           | (Ok a, t') => k a t'
           | (Throw e, t') => (Throw e, t')
           end.
Definition emit (e : Event) : M unit := fun t => (Ok tt, t ++ [e]).

(** [try { body } catch (...) { handler }] *)
Definition try_catch {A} (body : M A) (handler : exn -> M A) : M A :=
  fun t => match body t with
           | (Ok a, t') => (Ok a, t')
           | (Throw e, t') => handler e t'
           end.

(** A scope whose local is destroyed when the scope is left, by [return] or
    by unwinding. *)
Definition scope_exit {A} (body : M A) (dtor : M unit) : M A :=
  fun t => match body t with
           | (Ok a, t') => match dtor t' with
                           | (Ok _, t'') => (Ok a, t'')
                           | (Throw e, t'') => (Throw e, t'')
                           end
           | (Throw e, t') => match dtor t' with
                              | (_, t'') => (Throw e, t'')
                              end
           end.

(** The notations [x ← m; k] and [m;; k] are stdpp's, through these
    instances. *)
#[global] Instance M_ret : MRet M := @ret.
#[global] Instance M_bind : MBind M := fun A B k m => bind m k.

(** [std::runtime_error(msg)] *)
Definition runtime_error (msg : string) : exn := StdException msg.

(** The C string a [std::string] is read as: its bytes up to the first NUL. *)
Fixpoint c_str (s : string) : string :=
  match s with
  | EmptyString => EmptyString
  | String c s' => if Ascii.eqb c Ascii.zero then EmptyString else String c (c_str s')
  end.

(** The answers of the runtime, each a function of the calls made so far. *)
Record Runtime := {
  rt_malloc_ok : Trace -> N -> bool;                  (* minijs_malloc returned non-null *)
  rt_object_has : Trace -> ptr -> string -> Z;
  rt_object_get : Trace -> ptr -> string -> minijs_value;
  rt_object_keys : Trace -> ptr -> cstr;
  rt_array_length : Trace -> ptr -> Z;
  rt_array_get : Trace -> ptr -> Z -> minijs_value
}.

(** A double is zero when it is [+0.0] or [-0.0]; a NaN is not. *)
Definition float_is_zero (f : float) : bool :=
  match Prim2SF f with
  | S754_zero _ => true
  | _ => false
  end.

(** ** class Value *)

Module Value.

Inductive Kind :=
| Null | Number | Bool | String | Array | Object | Function | Class | Task.

(** [(int32_t)k] *)
Definition Kind_to_int (k : Kind) : Z :=
  match k with
  | Null => MINIJS_NULL
  | Number => MINIJS_NUMBER
  | Bool => MINIJS_BOOL
  | String => MINIJS_STRING
  | Array => MINIJS_ARRAY
  | Object => MINIJS_OBJECT
  | Function => MINIJS_FUNCTION
  | Class => MINIJS_CLASS
  | Task => MINIJS_TASK
  end.

Definition Kind_eqb (a b : Kind) : bool := Kind_to_int a =? Kind_to_int b.

Record t := mk {
  _kind : Kind;
  _num : float;
  _b : bool;
  _s : string;
  _h : ptr
}.

(** [Value()] *)
Definition default : t := mk Null 0%float false EmptyString nullptr.

Definition Null_ : t := default.
Definition Number_ (n : float) : t := mk Number n false EmptyString nullptr.
Definition Bool_ (b : bool) : t := mk Bool 0%float b EmptyString nullptr.
Definition String_ (s : string) : t := mk String 0%float false s nullptr.

Definition kind (v : t) : Kind := _kind v.
Definition handle (v : t) : ptr := _h v.
Definition toStringRef (v : t) : string := _s v.

Definition isHandleKind (v : t) : bool :=
  match _kind v with
  | Array | Object | Function | Class | Task => true
  | _ => false
  end.

(** [if (_h && isHandleKind())] *)
Definition owns (v : t) : bool := negb (N.eqb (_h v) nullptr) && isHandleKind v.

(** [static Value Handle(Kind k, void* h, bool retain)] *)
Definition Handle (k : Kind) (h : ptr) (retain : bool) : M t :=
  let v := mk k 0%float false EmptyString h in
  (if retain && negb (N.eqb h nullptr) then emit (EvRetain h) else ret tt);;
  ret v.

Definition toNumber (v : t) (def : float) : float :=
  match _kind v with
  | Number => _num v
  | Bool => if _b v then 1%float else 0%float
  | _ => def
  end.

(** [_num != 0.0] is the negation of the IEEE comparison [==]. *)
Definition toBool (v : t) (def : bool) : bool :=
  match _kind v with
  | Bool => _b v
  | Number => negb (PrimFloat.eqb (_num v) 0%float)
  | _ => def
  end.

(** [void* detachHandle()]: the handle, and the wrapper afterwards. *)
Definition detachHandle (v : t) : ptr * t :=
  (_h v, mk Null 0%float false EmptyString nullptr).

(** [void cleanup()]: the wrapper afterwards. *)
Definition cleanup (v : t) : M t :=
  (if owns v then emit (EvRelease (_h v)) else ret tt);;
  ret (mk (_kind v) (_num v) (_b v) (_s v) nullptr).

(** [~Value()] *)
Definition dtor (v : t) : M unit := cleanup v;; ret tt.

(** [Value(const Value& o)]: the new wrapper. *)
Definition copy_ctor (o : t) : M t :=
  let this := mk (_kind o) (_num o) (_b o) (_s o) (_h o) in
  (if owns this then emit (EvRetain (_h this)) else ret tt);;
  ret this.

(** [Value(Value&& o)]: the new wrapper and the source afterwards; the string
    of a moved-from source is left empty. *)
Definition move_ctor (o : t) : t * t :=
  (mk (_kind o) (_num o) (_b o) (_s o) (_h o),
   mk Null 0%float false EmptyString nullptr).

(** [Value& operator=(const Value& o)] for [this != &o]: the destination
    afterwards. *)
Definition copy_assign_distinct (this o : t) : M t :=
  this0 ← cleanup this;
  let this1 := mk (_kind o) (_num o) (_b o) (_s o) (_h o) in
  (if owns this1 then emit (EvRetain (_h this1)) else ret tt);;
  ret this1.

(** [Value& operator=(Value&& o)] for [this != &o]: destination and source
    afterwards. *)
Definition move_assign_distinct (this o : t) : M (t * t) :=
  this0 ← cleanup this;
  ret (mk (_kind o) (_num o) (_b o) (_s o) (_h o),
       mk Null 0%float false EmptyString nullptr).

(** [static Value fromNative(const minijs_value& nv, bool retainHandle)];
    [k] is one of the handle kinds in the last five cases. *)
Definition fromNative (nv : minijs_value) (retainHandle : bool) : M t :=
  let k := nv_kind nv in
  if k =? 0 then ret Null_
  else if k =? 1 then ret (Number_ (nv_num nv))
  else if k =? 2 then ret (Bool_ (negb (nv_boolean nv =? 0)))
  else if k =? 3 then
    ret (String_ (match nv_str nv with Some s => c_str s | None => EmptyString end))
  else if k =? 4 then Handle Array (nv_handle nv) retainHandle
  else if k =? 5 then Handle Object (nv_handle nv) retainHandle
  else if k =? 6 then Handle Function (nv_handle nv) retainHandle
  else if k =? 7 then Handle Class (nv_handle nv) retainHandle
  else if k =? 8 then Handle Task (nv_handle nv) retainHandle
  else ret Null_.

End Value.

(** ** class Engine *)

(** A call into the runtime that answers: the event is recorded and the
    answer is the oracle's at the trace before the call. *)
Definition call {A} (ev : Event) (answer : Trace -> A) : M A :=
  fun t => (Ok (answer t), t ++ [ev]).

Module Engine.

(** [std::function<Value(const std::vector<Value>&, const Value&)>] *)
Definition Callback := list Value.t -> Value.t -> M Value.t.

(** [struct Binding]; [engine] is the [Engine*]. *)
Record Binding := {
  engine : ptr;
  cb : Callback
}.

Record t := {
  _it : ptr;                      (* void* _it *)
  _bindings : list Binding        (* std::vector<Binding*> _bindings *)
}.

(** [minijs_value valueToNativeArg(const Value& v, char** outTempStr)]: the
    boundary value and what [*outTempStr] is set to. *)
Definition valueToNativeArg (v : Value.t) : minijs_value * cstr :=
  let outTempStr : cstr := None in
  let nv := mk_minijs_value (Value.Kind_to_int (Value.kind v)) 0%float 0 None nullptr in
  match Value.kind v with
  | Value.Null =>
      (mk_minijs_value MINIJS_NULL (nv_num nv) (nv_boolean nv) (nv_str nv) (nv_handle nv),
       outTempStr)
  | Value.Number =>
      (mk_minijs_value MINIJS_NUMBER (Value.toNumber v 0%float) (nv_boolean nv) (nv_str nv)
         (nv_handle nv), outTempStr)
  | Value.Bool =>
      (mk_minijs_value MINIJS_BOOL (nv_num nv) (if Value.toBool v false then 1 else 0)
         (nv_str nv) (nv_handle nv), outTempStr)
  | Value.String =>
      (mk_minijs_value MINIJS_STRING (nv_num nv) (nv_boolean nv) (Some (Value.toStringRef v))
         (nv_handle nv), outTempStr)
  | Value.Array | Value.Object | Value.Function | Value.Class | Value.Task =>
      (mk_minijs_value (Value.Kind_to_int (Value.kind v)) (nv_num nv) (nv_boolean nv)
         (nv_str nv) (Value.handle v), outTempStr)
  end.

Definition set_handle (nv : minijs_value) (h : ptr) : minijs_value :=
  mk_minijs_value (nv_kind nv) (nv_num nv) (nv_boolean nv) (nv_str nv) h.

Definition set_str (nv : minijs_value) (s : cstr) : minijs_value :=
  mk_minijs_value (nv_kind nv) (nv_num nv) (nv_boolean nv) s (nv_handle nv).

Definition set_kind (nv : minijs_value) (k : Z) : minijs_value :=
  mk_minijs_value k (nv_num nv) (nv_boolean nv) (nv_str nv) (nv_handle nv).

(** [if (tmp) minijs_free(tmp)] *)
Definition free_tmp (tmp : cstr) : M unit :=
  match tmp with
  | Some _ => emit EvFree
  | None => ret tt
  end.

(** [void declareCopy(const std::string& name, const Value& v)]; the result
    is the caller's wrapper after the call. *)
Definition declareCopy (e : t) (name : string) (v : Value.t) : M Value.t :=
  let nv0 := mk_minijs_value (Value.Kind_to_int (Value.kind v)) (Value.toNumber v 0%float)
               (if Value.toBool v false then 1 else 0) None nullptr in
  let '(nv1, tmp) := valueToNativeArg v in
  nv ← (if Value.isHandleKind v && negb (N.eqb (Value.handle v) nullptr)
        then emit (EvRetain (Value.handle v));; ret (set_handle nv1 (Value.handle v))
        else ret nv1);
  emit (EvGlobalDeclare (_it e) (c_str name) nv);;
  free_tmp tmp;;
  ret v.

(** [void declareMove(const std::string& name, Value&& v)]; the result is
    the caller's wrapper after the call. *)
Definition declareMove (e : t) (name : string) (v : Value.t) : M Value.t :=
  let '(nv1, tmp) := valueToNativeArg v in
  let '(nv, v') :=
    if Value.isHandleKind v && negb (N.eqb (Value.handle v) nullptr)
    then let '(h, v') := Value.detachHandle v in (set_handle nv1 h, v')
    else (nv1, v) in
  emit (EvGlobalDeclare (_it e) (c_str name) nv);;
  free_tmp tmp;;
  ret v'.

Section WithRuntime.
Context (rt : Runtime).

(** [static char* allocUtf8WithMinijsMalloc(const std::string& s)] *)
Definition allocUtf8WithMinijsMalloc (s : string) : M cstr :=
  let n := (N.of_nat (String.length s) + 1)%N in
  mem ← call (EvMalloc n) (fun t => rt_malloc_ok rt t n);
  if mem : bool then ret (Some s) else ret None.

(** The loop [args.push_back(Value::fromNative(argv[i], true))]; [argv] holds
    [argc] boundary values. *)
Fixpoint convert_args (argv : list minijs_value) : M (list Value.t) :=
  match argv with
  | [] => ret []
  | nv :: argv' =>
      a ← Value.fromNative nv true;
      args ← convert_args argv';
      ret (a :: args)
  end.

(** [~std::vector<Value>()] *)
Fixpoint destroy_args (args : list Value.t) : M unit :=
  match args with
  | [] => ret tt
  | a :: args' => Value.dtor a;; destroy_args args'
  end.

(** [Value tv = Value::Null(); if (thisVal) tv = Value::fromNative( *thisVal, true);] *)
Definition convert_this (thisVal : option minijs_value) : M Value.t :=
  let tv := Value.Null_ in
  match thisVal with
  | Some nv =>
      tmp ← Value.fromNative nv true;
      '(tv', tmp') ← Value.move_assign_distinct tv tmp;
      Value.dtor tmp';;
      ret tv'
  | None => ret tv
  end.

(** The conversion of the closure's result, from [minijs_value out{}] to the
    [return]s; [ret] is destroyed when its scope is left. *)
Definition convert_return (r : Value.t) : M minijs_value :=
  let out := mk_minijs_value (Value.Kind_to_int (Value.kind r)) (Value.toNumber r 0%float)
               (if Value.toBool r false then 1 else 0) None nullptr in
  match Value.kind r with
  | Value.String =>
      scope_exit
        (let s := Value.toStringRef r in
         p ← allocUtf8WithMinijsMalloc s;
         ret (set_str (set_kind out MINIJS_STRING) p))
        (Value.dtor r)
  | _ =>
      if Value.isHandleKind r && negb (N.eqb (Value.handle r) nullptr)
      then
        let '(h, r') := Value.detachHandle r in
        scope_exit
          (ret (set_handle (set_kind out (Value.Kind_to_int (Value.kind r))) h))
          (Value.dtor r')
      else scope_exit (ret out) (Value.dtor r)
  end.

(** The message of the two handlers. *)
Definition error_message (e : exn) : string :=
  match e with
  | StdException what => ("Error: " +:+ c_str what)%string
  | OtherException => "Error: unknown native exception"%string
  end.

(** [static minijs_value trampoline(int argc, const minijs_value* argv,
     const minijs_value* thisVal, void* userdata)] *)
Definition trampoline (argv : list minijs_value) (thisVal : option minijs_value)
    (userdata : option Binding) : M minijs_value :=
  match userdata with
  | None => ret (set_kind nv_zero MINIJS_NULL)
  | Some b =>
      if N.eqb (engine b) nullptr then ret (set_kind nv_zero MINIJS_NULL)
      else
        try_catch
          (args ← convert_args argv;
           scope_exit
             (tv ← convert_this thisVal;
              scope_exit
                (r ← cb b args tv;
                 convert_return r)
                (Value.dtor tv))
             (destroy_args args))
          (fun e =>
             let out := set_kind nv_zero MINIJS_STRING in
             let msg := error_message e in
             p ← allocUtf8WithMinijsMalloc msg;
             ret (set_str out p))
  end.

End WithRuntime.
End Engine.

(** ** The typed views *)

(** What the read accessors do with the boundary value the runtime filled in:
    [Value v = Value::fromNative(out, false)], then the string is freed. *)
Definition read_out (out : minijs_value) : M Value.t :=
  v ← Value.fromNative out false;
  (if (nv_kind out =? MINIJS_STRING) && bool_decide (nv_str out <> None)
   then emit EvFree else ret tt);;
  ret v.

(** The constructor shared by the four views: [_v(std::move(v))], then the
    kind is checked; when the check throws, the member [_v] is destroyed. *)
Definition view_ctor (k : Value.Kind) (msg : string) (v : Value.t) : M Value.t :=
  let '(_v, v') := Value.move_ctor v in
  if negb (Value.Kind_eqb (Value.kind _v) k)
  then Value.dtor _v;; throw (runtime_error msg)
  else ret _v.

(** ** The key-enumeration parser of [Object::keys]

    The index [i] only moves forward: the state of the scan is the rest of
    the text from [i] on, the empty rest being [i >= s.size()]. *)

Definition ch_dquote : ascii := "034"%char.
Definition ch_backslash : ascii := "\"%char.
Definition ch_lf : ascii := "010"%char.
Definition ch_cr : ascii := "013"%char.
Definition ch_tab : ascii := "009"%char.

(** [cur.push_back(c)] *)
Definition push_back (cur : string) (c : ascii) : string :=
  (cur +:+ String c EmptyString)%string.

(** The lambda [skipws]. *)
Definition is_ws (c : ascii) : bool :=
  Ascii.eqb c " " || Ascii.eqb c ch_tab || Ascii.eqb c ch_cr || Ascii.eqb c ch_lf.

Fixpoint skipws (s : string) : string :=
  match s with
  | String c s' => if is_ws c then skipws s' else s
  | EmptyString => EmptyString
  end.

(** The [switch (e)] of the escape sequences: what is pushed for the
    character [e] after a backslash. *)
Definition unescape (e : ascii) : ascii :=
  if Ascii.eqb e ch_backslash then ch_backslash
  else if Ascii.eqb e ch_dquote then ch_dquote
  else if Ascii.eqb e "n" then ch_lf
  else if Ascii.eqb e "r" then ch_cr
  else if Ascii.eqb e "t" then ch_tab
  else e.

(** The inner loop [while (i < s.size()) { char c = s[i++]; ... }] entered
    after the opening quote: the key read and the rest of the text. *)
Fixpoint scan_string (s : string) (cur : string) : string * string :=
  match s with
  | EmptyString => (cur, EmptyString)
  | String c s' =>
      if Ascii.eqb c ch_dquote then (cur, s')
      else if Ascii.eqb c ch_backslash then
        match s' with
        | String e s'' => scan_string s'' (push_back cur (unescape e))
        | EmptyString => scan_string s' (push_back cur c)
        end
      else scan_string s' (push_back cur c)
  end.

(** [i < s.size() && s[i] == c] *)
Definition at_char (c : ascii) (s : string) : bool :=
  match s with
  | String c' _ => Ascii.eqb c' c
  | EmptyString => false
  end.

(** [i++] where [i < s.size()] *)
Definition advance (s : string) : string :=
  match s with
  | String _ s' => s'
  | EmptyString => EmptyString
  end.

(** The outer loop [while (i < s.size()) { ... }]; one unit of fuel per
    iteration, [None] when the fuel is used up. *)
Fixpoint keys_loop (fuel : nat) (s : string) (res : list string) : option (list string) :=
  match fuel with
  | O => None
  | S fuel' =>
      match s with
      | EmptyString => Some res
      | String _ _ =>
          let s1 := skipws s in
          if at_char "]" s1 then Some res
          else if negb (at_char ch_dquote s1) then Some res
          else
            let s2 := advance s1 in
            let '(cur, s3) := scan_string s2 EmptyString in
            let res' := res ++ [cur] in
            let s4 := skipws s3 in
            if at_char "," s4 then keys_loop fuel' (advance s4) res'
            else
              let s5 := skipws s4 in
              if at_char "]" s5 then Some res'
              else keys_loop fuel' s5 res'
      end
  end.

(** From [size_t i = 0] to [return res], on the text [s]. *)
Definition parse_keys_fuel (fuel : nat) (s : string) : option (list string) :=
  let s0 := skipws s in
  if negb (at_char "[" s0) then Some []
  else keys_loop fuel (skipws (advance s0)) [].

(** An iteration of the outer loop that does not leave it consumes at least
    the opening quote: the length of the text is fuel enough
    ([parse_keys_fuel_enough] below). *)
Definition parse_keys (s : string) : list string :=
  default [] (parse_keys_fuel (S (String.length s)) s).

Module Object.

Record t := { _v : Value.t }.

(** [Object()] *)
Definition default : t := {| _v := Value.Null_ |}.

(** [explicit Object(Value v)] *)
Definition ctor (v : Value.t) : M t :=
  w ← view_ctor Value.Object "Object: Value is not an object" v;
  ret {| _v := w |}.

Definition handle (o : t) : ptr := Value.handle (_v o).

Section WithRuntime.
Context (rt : Runtime).

Definition has (o : t) (key : string) : M bool :=
  if N.eqb (handle o) nullptr then ret false
  else
    r ← call (EvObjectHas (handle o) (c_str key))
             (fun t => rt_object_has rt t (handle o) (c_str key));
    ret (negb (r =? 0)).

Definition get (o : t) (key : string) : M Value.t :=
  if N.eqb (handle o) nullptr then ret Value.Null_
  else
    out ← call (EvObjectGet (handle o) (c_str key))
               (fun t => rt_object_get rt t (handle o) (c_str key));
    read_out out.

Definition set (o : t) (e : Engine.t) (key : string) (v : Value.t) : M unit :=
  if N.eqb (handle o) nullptr then throw (runtime_error "Object::set on null handle")
  else
    let '(nv, tmp) := Engine.valueToNativeArg v in
    emit (EvObjectSet (handle o) (c_str key) nv);;
    Engine.free_tmp tmp.

(** [std::vector<std::string> keys() const] *)
Definition keys (o : t) : M (list string) :=
  let res : list string := [] in
  if N.eqb (handle o) nullptr then ret res
  else
    json ← call (EvObjectKeys (handle o)) (fun t => rt_object_keys rt t (handle o));
    match json with
    | None => ret res
    | Some j =>
        let s := c_str j in
        emit EvFree;;
        ret (parse_keys s)
    end.

End WithRuntime.
End Object.

Module Array.

Record t := { _v : Value.t }.

Definition default : t := {| _v := Value.Null_ |}.

(** [explicit Array(Value v)] *)
Definition ctor (v : Value.t) : M t :=
  w ← view_ctor Value.Array "Array: Value is not an array" v;
  ret {| _v := w |}.

Definition handle (a : t) : ptr := Value.handle (_v a).

Section WithRuntime.
Context (rt : Runtime).

Definition length (a : t) : M Z :=
  if N.eqb (handle a) nullptr then ret 0
  else call (EvArrayLength (handle a)) (fun t => rt_array_length rt t (handle a)).

Definition get (a : t) (index : Z) : M Value.t :=
  if N.eqb (handle a) nullptr then ret Value.Null_
  else
    out ← call (EvArrayGet (handle a) index)
               (fun t => rt_array_get rt t (handle a) index);
    read_out out.

Definition set (a : t) (e : Engine.t) (index : Z) (v : Value.t) : M unit :=
  if N.eqb (handle a) nullptr then throw (runtime_error "Array::set on null handle")
  else
    let '(nv, tmp) := Engine.valueToNativeArg v in
    emit (EvArraySet (handle a) index nv);;
    Engine.free_tmp tmp.

Definition push (a : t) (e : Engine.t) (v : Value.t) : M unit :=
  if N.eqb (handle a) nullptr then throw (runtime_error "Array::push on null handle")
  else
    let '(nv, tmp) := Engine.valueToNativeArg v in
    emit (EvArrayPush (handle a) nv);;
    Engine.free_tmp tmp.

End WithRuntime.
End Array.

Module Function.

Record t := { _v : Value.t }.

Definition default : t := {| _v := Value.Null_ |}.

(** [explicit Function(Value v)] *)
Definition ctor (v : Value.t) : M t :=
  w ← view_ctor Value.Function "Function: Value is not a function" v;
  ret {| _v := w |}.

Definition handle (f : t) : ptr := Value.handle (_v f).

(** [void* detachHandle()]: the handle and the view afterwards. *)
Definition detachHandle (f : t) : ptr * t :=
  let '(h, w) := Value.detachHandle (_v f) in (h, {| _v := w |}).

(** [~Function()] *)
Definition dtor (f : t) : M unit := Value.dtor (_v f).

End Function.

Module Class.

Record t := { _v : Value.t }.

Definition default : t := {| _v := Value.Null_ |}.

(** [explicit Class(Value v)] *)
Definition ctor (v : Value.t) : M t :=
  w ← view_ctor Value.Class "Class: Value is not a class" v;
  ret {| _v := w |}.

Definition handle (c : t) : ptr := Value.handle (_v c).

(** [void addMethod(const std::string& methodName, Function&& fn)]; the
    result is the caller's [fn] after the call. *)
Definition addMethod (c : t) (methodName : string) (fn : Function.t) : M Function.t :=
  if N.eqb (handle c) nullptr then throw (runtime_error "Class::addMethod on null handle")
  else
    let '(h, fn') := Function.detachHandle fn in
    emit (EvClassAddMethod (handle c) (c_str methodName) h);;
    ret fn'.

End Class.

(** ** Wrappers in memory

    Copy and move assignment compare the addresses of the two wrappers
    ([this == &o]); the wrappers of a program are therefore kept in a store,
    by address, and the special member functions act on the store. *)

Module Store.

Definition addr := nat.

Inductive Op :=
| CopyCtor (dst src : addr)     (* new (dst) Value( *src ) *)
| CopyAssign (dst src : addr)   (* *dst = *src *)
| MoveCtor (dst src : addr)     (* new (dst) Value(std::move( *src )) *)
| MoveAssign (dst src : addr)   (* *dst = std::move( *src ) *)
| Dtor (a : addr).              (* dst->~Value() *)

(** One operation; [None] when it is ill-formed: a constructor needs
    [dst] free and [src] live, an assignment needs both live, a destructor
    needs a live wrapper. *)
Definition step (op : Op) (σ : gmap addr Value.t) : option (M (gmap addr Value.t)) :=
  match op with
  | CopyCtor dst src =>
      match σ !! dst, σ !! src with
      | None, Some o => Some (this ← Value.copy_ctor o; ret (<[dst:=this]> σ))
      | _, _ => None
      end
  | CopyAssign dst src =>
      match σ !! dst, σ !! src with
      | Some this, Some o =>
          Some (if decide (dst = src) then ret σ
                else this' ← Value.copy_assign_distinct this o; ret (<[dst:=this']> σ))
      | _, _ => None
      end
  | MoveCtor dst src =>
      match σ !! dst, σ !! src with
      | None, Some o =>
          Some (let '(this, o') := Value.move_ctor o in
                ret (<[src:=o']> (<[dst:=this]> σ)))
      | _, _ => None
      end
  | MoveAssign dst src =>
      match σ !! dst, σ !! src with
      | Some this, Some o =>
          Some (if decide (dst = src) then ret σ
                else '(this', o') ← Value.move_assign_distinct this o;
                     ret (<[src:=o']> (<[dst:=this']> σ)))
      | _, _ => None
      end
  | Dtor a =>
      match σ !! a with
      | Some v => Some (Value.dtor v;; ret (delete a σ))
      | None => None
      end
  end.

(** A sequence of operations, from the store [σ] and the trace [t]. *)
Fixpoint run (ops : list Op) (σ : gmap addr Value.t) (t : Trace)
    : option (gmap addr Value.t * Trace) :=
  match ops with
  | [] => Some (σ, t)
  | op :: ops' =>
      match step op σ with
      | None => None
      | Some m =>
          match m t with
          | (Ok σ', t') => run ops' σ' t'
          | (Throw _, _) => None
          end
      end
  end.

(** Whether the wrapper [v] owns a reference of the handle [h], as its
    destructor decides it. *)
Definition own (h : ptr) (v : Value.t) : nat :=
  if Value.owns v && N.eqb (Value._h v) h then 1%nat else 0%nat.

(** The number of live wrappers that own a reference of [h]. *)
Definition owners (h : ptr) (σ : gmap addr Value.t) : nat :=
  map_fold (fun _ v n => (own h v + n)%nat) 0%nat σ.

End Store.

(** The calls of [minijs_handle_retain] and [minijs_handle_release] on the
    handle [h] in a trace. *)
Definition is_retain (h : ptr) (e : Event) : bool :=
  match e with
  | EvRetain h' => N.eqb h' h
  | _ => false
  end.

Definition is_release (h : ptr) (e : Event) : bool :=
  match e with
  | EvRelease h' => N.eqb h' h
  | _ => false
  end.

Definition retains (h : ptr) (t : Trace) : nat := length (List.filter (is_retain h) t).
Definition releases (h : ptr) (t : Trace) : nat := length (List.filter (is_release h) t).

(** A wrapper that holds a handle: of a handle kind, with a non-null handle. *)
Definition holds_handle (v : Value.t) : Prop :=
  Value.isHandleKind v = true /\ Value.handle v <> nullptr.

(** ** Auxiliary definitions of the statements *)

(** What the destructor appends: the release of the handle the wrapper owns. *)
Definition dtor_events (v : Value.t) : Trace :=
  if Value.owns v then [EvRelease (Value._h v)] else [].

(** What a copy appends: the retain of the handle the source owns. *)
Definition copy_events (o : Value.t) : Trace :=
  if Value.owns o then [EvRetain (Value._h o)] else [].

(** A runtime for the examples: the allocator answers [ok], key enumeration
    answers [keys], the containers are empty. *)
Definition example_runtime (ok : bool) (keys : cstr) : Runtime :=
  {| rt_malloc_ok := fun _ _ => ok;
     rt_object_has := fun _ _ _ => 0;
     rt_object_get := fun _ _ _ => nv_zero;
     rt_object_keys := fun _ _ => keys;
     rt_array_length := fun _ _ => 0;
     rt_array_get := fun _ _ _ => nv_zero |}.

(** A closure that throws [std::runtime_error("boom")]. *)
Definition throwing_binding : Engine.Binding :=
  {| Engine.engine := 1%N;
     Engine.cb := fun _ _ => throw (runtime_error "boom") |}.

(** A run of characters without quote or backslash is copied as it is. *)
Fixpoint plain (s : string) : bool :=
  match s with
  | EmptyString => true
  | String c s' => negb (Ascii.eqb c ch_dquote) && negb (Ascii.eqb c ch_backslash) && plain s'
  end.

(** A text that holds one key, with one escape sequence in it. *)
Definition one_key_text (pre : string) (e : ascii) (post : string) : string :=
  String "[" (String ch_dquote
    (pre +:+ String ch_backslash (String e (post +:+ String ch_dquote (String "]" EmptyString))))).

(** The text [s] with every apostrophe replaced by a double quote, to write
    the texts of the examples. *)
Fixpoint with_dquotes (s : string) : string :=
  match s with
  | EmptyString => EmptyString
  | String c s' => String (if Ascii.eqb c "'" then ch_dquote else c) (with_dquotes s')
  end.

(** ** main.cpp: the closures of the example *)

Module Main.

(** [args.size() > i ? args[i].toNumber() : 0.0] *)
Definition arg_number (args : list Value.t) (i : nat) : float :=
  match args !! i with
  | Some a => Value.toNumber a 0%float
  | None => 0%float
  end.

(** The closure registered as [hostAdd]. *)
Definition hostAdd : Engine.Callback :=
  fun args _ =>
    let a := arg_number args 0 in
    let b := arg_number args 1 in
    ret (Value.Number_ (a + b)%float).

(** [minijspp::Object self(Value::Handle(Kind::Object, thisVal.handle(), true))],
    then [body self], then the destruction of [self]. *)
Definition with_self {A} (thisVal : Value.t) (body : Object.t -> M A) : M A :=
  v ← Value.Handle Value.Object (Value.handle thisVal) true;
  self ← Object.ctor v;
  scope_exit (body self) (Value.dtor (Object._v self)).

(** The closure added to the class as [constructor]; [js] is the captured
    engine. *)
Definition counter_constructor (js : Engine.t) : Engine.Callback :=
  fun args thisVal =>
    with_self thisVal (fun self =>
      let v := arg_number args 0 in
      let tmp := Value.Number_ v in
      scope_exit (Object.set self js "x" tmp) (Value.dtor tmp);;
      ret Value.Null_).

Section WithRuntime.
Context (rt : Runtime).

(** The closure added to the class as [inc]. *)
Definition counter_inc (js : Engine.t) : Engine.Callback :=
  fun _ thisVal =>
    with_self thisVal (fun self =>
      x ← (got ← Object.get rt self "x";
           scope_exit (ret (Value.toNumber got 0%float)) (Value.dtor got));
      let x := (x + 1)%float in
      let tmp := Value.Number_ x in
      scope_exit (Object.set self js "x" tmp) (Value.dtor tmp);;
      ret (Value.Number_ x)).

End WithRuntime.
End Main.

(** The boundary value of the last write of [key] into the object [h] in a
    trace, if there is one. *)
Fixpoint last_set (h : ptr) (key : string) (t : Trace) : option minijs_value :=
  match t with
  | [] => None
  | e :: t' =>
      match last_set h key t' with
      | Some nv => Some nv
      | None =>
          match e with
          | EvObjectSet h' key' nv =>
              if N.eqb h' h && String.eqb key' key then Some nv else None
          | _ => None
          end
      end
  end.

(** A runtime whose objects answer a read with what was last written. *)
Definition storing_runtime : Runtime :=
  {| rt_malloc_ok := fun _ _ => true;
     rt_object_has := fun t h key => match last_set h key t with Some _ => 1 | None => 0 end;
     rt_object_get := fun t h key => default nv_zero (last_set h key t);
     rt_object_keys := fun _ _ => None;
     rt_array_length := fun _ _ => 0;
     rt_array_get := fun _ _ _ => nv_zero |}.

(** ** The text of a list of keys

    [Api.h] declares the answer of [minijs_object_keys] as a JSON array of
    strings; this is that text for a list of keys, with the escapes of JSON
    for backslash, double quote, newline, carriage return and tab. *)

Definition escape_char (c : ascii) : string :=
  if Ascii.eqb c ch_backslash then String ch_backslash (String ch_backslash EmptyString)
  else if Ascii.eqb c ch_dquote then String ch_backslash (String ch_dquote EmptyString)
  else if Ascii.eqb c ch_lf then String ch_backslash (String "n" EmptyString)
  else if Ascii.eqb c ch_cr then String ch_backslash (String "r" EmptyString)
  else if Ascii.eqb c ch_tab then String ch_backslash (String "t" EmptyString)
  else String c EmptyString.

Fixpoint escape (s : string) : string :=
  match s with
  | EmptyString => EmptyString
  | String c s' => (escape_char c +:+ escape s')%string
  end.

(** The keys in quotes, separated by commas, followed by [rest]. *)
Fixpoint join_keys (ks : list string) (rest : string) : string :=
  match ks with
  | [] => rest
  | k :: ks' =>
      String ch_dquote
        (escape k +:+
         String ch_dquote
           match ks' with
           | [] => rest
           | _ :: _ => String "," (join_keys ks' rest)
           end)%string
  end.

(** The array text of [ks], followed by [junk]. *)
Definition keys_text (ks : list string) (junk : string) : string :=
  String "[" (join_keys ks (String "]" junk)).


(** ** The life of an engine: construction, registration, factories, run

    The calls of [Api.h] that create and destroy things are recorded in a log
    of their own, in which the calls of the trace above are embedded; the
    engine object is part of the state, so that what a member function did
    to it before throwing stays. *)

(** [Value toValueMove() { return std::move(_v); }]: the value returned and
    the class view afterwards. *)
Definition Class_toValueMove (c : Class.t) : Value.t * Class.t :=
  let '(v, w) := Value.move_ctor (Class._v c) in (v, {| Class._v := w |}).

Module Lifecycle.

Inductive Call :=
| Api (e : Event)
| CallCreate                                                    (* minijs_create *)
| CallDestroy (it : ptr)                                        (* minijs_destroy *)
| CallRun (it : ptr) (code : string)                            (* minijs_run *)
| CallRegister (it : ptr) (name : string) (b : Engine.Binding)  (* minijs_register *)
| CallFunctionCreateNative (b : Engine.Binding)        (* minijs_function_create_native *)
| CallClassCreate (it : ptr) (name : string)                    (* minijs_class_create *)
| CallObjectCreate                                              (* minijs_object_create *)
| CallArrayCreate.                                              (* minijs_array_create *)

(** What the runtime does inside [minijs_run], as the host sees it: it calls
    closures back through the trampoline, each with the userdata that was
    passed when the closure was registered, goes on by what the trampoline
    returned, and in the end returns the result text.  Only a run that
    returns is described. *)
Inductive Script :=
| ScriptDone (out : cstr)
| ScriptCall (userdata : option Engine.Binding) (argv : list minijs_value)
    (thisVal : option minijs_value) (next : minijs_value -> Script).

(** A run in which the runtime calls back closures of [bs] only, or passes
    no Binding. *)
Fixpoint script_calls_only (bs : list Engine.Binding) (s : Script) : Prop :=
  match s with
  | ScriptDone _ => True
  | ScriptCall userdata _ _ next =>
      match userdata with Some b => b ∈ bs | None => True end /\
      forall r, script_calls_only bs (next r)
  end.

(** The answers of the runtime to these calls, by the log so far; the answer
    to [minijs_run] is what the runtime does during the call. *)
Record Host := {
  h_create : list Call -> ptr;
  h_run : list Call -> ptr -> string -> Script;
  h_function_create_native : list Call -> ptr;
  h_class_create : list Call -> ptr -> string -> ptr;
  h_object_create : list Call -> ptr;
  h_array_create : list Call -> ptr
}.

(** The calls of the trace in a log. *)
Definition api_trace (c : list Call) : Trace :=
  omap (fun x => match x with Api e => Some e | _ => None end) c.

(** A member function of the engine: it reads and writes the engine object
    and extends the log. *)
Definition L (A : Type) : Type := Engine.t * list Call -> Outcome A * (Engine.t * list Call).

Definition lret {A} (a : A) : L A := fun s => (Ok a, s).
Definition lthrow {A} (e : exn) : L A := fun s => (Throw e, s).
Definition lbind {A B} (m : L A) (k : A -> L B) : L B :=
  fun s => match m s with
           | (Ok a, s') => k a s'
           | (Throw e, s') => (Throw e, s')
           end.
Definition lget : L Engine.t := fun s => (Ok (fst s), s).
Definition lput (e : Engine.t) : L unit := fun s => (Ok tt, (e, snd s)).
Definition lcall {A} (ev : Call) (answer : list Call -> A) : L A :=
  fun s => (Ok (answer (snd s)), (fst s, snd s ++ [ev])).

#[global] Instance L_ret : MRet L := @lret.
#[global] Instance L_bind : MBind L := fun A B k m => lbind m k.

(** A computation on the trace, run inside a member function: it sees the
    calls of the trace that are in the log, and what it appends is appended
    to the log. *)
Definition lift {A} (m : M A) : L A :=
  fun s => let t := api_trace (snd s) in
           match m t with
           | (o, t') => (o, (fst s, snd s ++ (Api <$> drop (length t) t')))
           end.

Section WithHost.
Context (host : Host).

(** [Engine() : _it(minijs_create())] *)
Definition Engine_ctor (c : list Call) : Outcome Engine.t * list Call :=
  let it := h_create host c in
  if N.eqb it nullptr
  then (Throw (runtime_error "minijs_create() failed"), c ++ [CallCreate])
  else (Ok {| Engine._it := it; Engine._bindings := [] |}, c ++ [CallCreate]).

(** [~Engine()] *)
Definition Engine_dtor : L unit :=
  e ← lget;
  lput {| Engine._it := Engine._it e; Engine._bindings := [] |};;
  if negb (N.eqb (Engine._it e) nullptr)
  then lcall (CallDestroy (Engine._it e)) (fun _ => tt);;
       lput {| Engine._it := nullptr; Engine._bindings := [] |}
  else lret tt.

(** The call [minijs_run(_it, code.c_str())]: the callbacks the runtime makes
    go through [Engine::trampoline], and what they call is appended to the
    log. *)
Fixpoint run_script (rt : Runtime) (s : Script) : L cstr :=
  match s with
  | ScriptDone out => lret out
  | ScriptCall userdata argv thisVal next =>
      lbind (lift (Engine.trampoline rt argv thisVal userdata))
            (fun r => run_script rt (next r))
  end.

(** [std::string run(const std::string& code)] *)
Definition run (rt : Runtime) (code : string) : L string :=
  e ← lget;
  script ← lcall (CallRun (Engine._it e) (c_str code))
                 (fun c => h_run host c (Engine._it e) (c_str code));
  out ← run_script rt script;
  match out with
  | None => lret EmptyString
  | Some o =>
      let s := c_str o in
      lcall (Api EvFree) (fun _ => tt);;
      lret s
  end.

Section WithThis.
(** The address of the engine object. *)
Context (this : ptr).

(** [void registerFunction(const std::string& name, Callback cb)] *)
Definition registerFunction (name : string) (cb : Engine.Callback) : L unit :=
  if String.eqb name EmptyString
  then lthrow (runtime_error "registerFunction: name empty")
  else
    let b := {| Engine.engine := this; Engine.cb := cb |} in
    e ← lget;
    lput {| Engine._it := Engine._it e; Engine._bindings := Engine._bindings e ++ [b] |};;
    lcall (CallRegister (Engine._it e) (c_str name) b) (fun _ => tt).

(** [Function Engine::createFunction(Callback cb)] *)
Definition createFunction (cb : Engine.Callback) : L Function.t :=
  let b := {| Engine.engine := this; Engine.cb := cb |} in
  e ← lget;
  lput {| Engine._it := Engine._it e; Engine._bindings := Engine._bindings e ++ [b] |};;
  h ← lcall (CallFunctionCreateNative b) (h_function_create_native host);
  if N.eqb h nullptr then lthrow (runtime_error "minijs_function_create_native failed")
  else
    v ← lift (Value.Handle Value.Function h false);
    lift (Function.ctor v).

End WithThis.

(** [Class Engine::createClass(const std::string& name)] *)
Definition createClass (name : string) : L Class.t :=
  e ← lget;
  h ← lcall (CallClassCreate (Engine._it e) (c_str name))
            (fun c => h_class_create host c (Engine._it e) (c_str name));
  if N.eqb h nullptr then lthrow (runtime_error "minijs_class_create failed")
  else
    v ← lift (Value.Handle Value.Class h false);
    lift (Class.ctor v).

(** [Object Engine::createObject()] *)
Definition createObject : L Object.t :=
  h ← lcall CallObjectCreate (h_object_create host);
  if N.eqb h nullptr then lthrow (runtime_error "minijs_object_create failed")
  else
    v ← lift (Value.Handle Value.Object h false);
    lift (Object.ctor v).

(** [Array Engine::createArray()] *)
Definition createArray : L Array.t :=
  h ← lcall CallArrayCreate (h_array_create host);
  if N.eqb h nullptr then lthrow (runtime_error "minijs_array_create failed")
  else
    v ← lift (Value.Handle Value.Array h false);
    lift (Array.ctor v).

(** [int main(int argc, char** argv)] without the console; [this] is the
    address of [js], [code] is what [readFile(argv[1])] returns, and [rt]
    answers the calls the closures make.  A failure that leaves [main] ends
    the program; the model then runs no destructor. *)
Definition main (rt : Runtime) (this : ptr) (argc : Z) (code : string) (c : list Call)
    : Outcome Z * list Call :=
  if argc <? 2 then (Ok 1, c)
  else
    match Engine_ctor c with
    | (Throw e, c') => (Throw e, c')
    | (Ok js0, c') =>
        let body : L Z :=
          registerFunction this "hostAdd" Main.hostAdd;;
          counter ← createClass "Counter";
          js ← lget;
          f ← createFunction this (Main.counter_constructor js);
          f' ← lift (Class.addMethod counter "constructor" f);
          lift (Function.dtor f');;
          js ← lget;
          f ← createFunction this (Main.counter_inc rt js);
          f' ← lift (Class.addMethod counter "inc" f);
          lift (Function.dtor f');;
          let '(v, counter') := Class_toValueMove counter in
          js ← lget;
          v' ← lift (Engine.declareMove js "Counter" v);
          lift (Value.dtor v');;
          ret ← run rt code;
          lift (Value.dtor (Class._v counter'));;
          Engine_dtor;;
          lret 0 in
        match body (js0, c') with
        | (o, (_, c'')) => (o, c'')
        end
    end.

End WithHost.
End Lifecycle.

(** A host for the examples: it answers with the given interpreter, function,
    class, object and array handles and the given result text, and calls
    nothing back. *)
Definition example_host (it hf hc ho ha : ptr) (out : cstr) : Lifecycle.Host :=
  {| Lifecycle.h_create := fun _ => it;
     Lifecycle.h_run := fun _ _ _ => Lifecycle.ScriptDone out;
     Lifecycle.h_function_create_native := fun _ => hf;
     Lifecycle.h_class_create := fun _ _ _ => hc;
     Lifecycle.h_object_create := fun _ => ho;
     Lifecycle.h_array_create := fun _ => ha |}.

(** The Bindings the runtime has been given in a log. *)
Definition created_bindings (c : list Lifecycle.Call) : list Engine.Binding :=
  omap (fun x => match x with
                 | Lifecycle.CallRegister _ _ b | Lifecycle.CallFunctionCreateNative b => Some b
                 | _ => None
                 end) c.

(** A host for the examples whose runtime, asked to run code with the three
    closures of [main.cpp] registered, does what the script
    [new Counter(hostAdd(2, 3)).inc()] asks for, on the object [obj], and
    returns the text [out]; the function handles it answers with differ from
    call to call. *)
Definition calling_host (it hc hf obj : ptr) (out : cstr) : Lifecycle.Host :=
  let number x := mk_minijs_value MINIJS_NUMBER x 0 None nullptr in
  let object := mk_minijs_value MINIJS_OBJECT 0%float 0 None obj in
  {| Lifecycle.h_create := fun _ => it;
     Lifecycle.h_run := fun c _ _ =>
       match created_bindings c with
       | [add; ctor; inc] =>
           Lifecycle.ScriptCall (Some add) [number 2%float; number 3%float] None (fun sum =>
           Lifecycle.ScriptCall (Some ctor) [sum] (Some object) (fun _ =>
           Lifecycle.ScriptCall (Some inc) [] (Some object) (fun _ =>
           Lifecycle.ScriptDone out)))
       | _ => Lifecycle.ScriptDone None
       end;
     Lifecycle.h_function_create_native := fun c => (hf + N.of_nat (length c))%N;
     Lifecycle.h_class_create := fun _ _ _ => hc;
     Lifecycle.h_object_create := fun _ => nullptr;
     Lifecycle.h_array_create := fun _ => nullptr |}.

(** ** What crosses the boundary in a callback *)

(** The calls the closures of [main.cpp] and the trampoline make: retain,
    release, allocate, free, read and write a property. *)
Definition run_event (e : Event) : bool :=
  match e with
  | EvRetain _ | EvRelease _ | EvMalloc _ | EvFree | EvObjectGet _ _ | EvObjectSet _ _ _ => true
  | _ => false
  end.

(** Events of that sort only, among them no more retains of a handle than
    releases of it. *)
Definition quiet (d : Trace) : Prop :=
  Forall (fun e => run_event e = true) d /\
  forall h, (retains h d <= releases h d)%nat.

(** A closure that makes such calls only, whatever it is given. *)
Definition quiet_closure (b : Engine.Binding) : Prop :=
  forall args tv t, exists r d, Engine.cb b args tv t = (r, t ++ d) /\ quiet d.

(** The handle a boundary value brings: that of a value of a handle kind,
    unless it is null. *)
Definition native_handle (nv : minijs_value) : option ptr :=
  if (MINIJS_ARRAY <=? nv_kind nv) && (nv_kind nv <=? MINIJS_TASK) &&
     negb (N.eqb (nv_handle nv) nullptr)
  then Some (nv_handle nv) else None.

Definition native_handles (argv : list minijs_value) : list ptr := omap native_handle argv.

(** The handle a wrapper owns, as its destructor decides it. *)
Definition owned_handle (v : Value.t) : option ptr :=
  if Value.owns v then Some (Value._h v) else None.

(** The call of [minijs_malloc] for the text [s]. *)
Definition malloc_event (s : string) : Event :=
  EvMalloc (N.of_nat (String.length s) + 1)%N.

(** * Properties *)

(** ** Coercions *)

Lemma float_eqb_zero (f : float) :
  PrimFloat.eqb f 0%float = float_is_zero f.
Proof.
  rewrite FloatAxioms.eqb_spec. unfold float_is_zero.
  change (Prim2SF 0%float) with (S754_zero false).
  destruct (Prim2SF f) as [s| s | |s m e]; try reflexivity;
    destruct s; reflexivity.
Qed.

(** C8: [toNumber] gives the number of a Number, 1.0 / 0.0 for Bool true /
    false and the caller's default for every other kind; [toBool] gives the
    boolean of a Bool, for a Number whether it is nonzero, and the caller's
    default for every other kind. *)
Theorem toNumber_toBool_coercions (v : Value.t) (def : float) (defb : bool) :
  (Value.kind v = Value.Number -> Value.toNumber v def = Value._num v) /\
  (Value.kind v = Value.Bool -> Value._b v = true -> Value.toNumber v def = 1%float) /\
  (Value.kind v = Value.Bool -> Value._b v = false -> Value.toNumber v def = 0%float) /\
  (Value.kind v <> Value.Number -> Value.kind v <> Value.Bool ->
     Value.toNumber v def = def) /\
  (Value.kind v = Value.Bool -> Value.toBool v defb = Value._b v) /\
  (Value.kind v = Value.Number ->
     (Value.toBool v defb = true <-> float_is_zero (Value._num v) = false)) /\
  (Value.kind v <> Value.Number -> Value.kind v <> Value.Bool ->
     Value.toBool v defb = defb).
Proof.
  unfold Value.kind, Value.toNumber, Value.toBool.
  destruct v as [k n b s h]; simpl.
  repeat split; intros; subst; try reflexivity;
    try (destruct k; congruence).
  - rewrite float_eqb_zero in H0. destruct (float_is_zero n); [discriminate|reflexivity].
  - rewrite float_eqb_zero, H0. reflexivity.
Qed.

Lemma toNumber_toBool_coercions_witness :
  Value.toNumber (Value.Number_ 3.5%float) 9%float = 3.5%float /\
  Value.toNumber (Value.Bool_ true) 9%float = 1%float /\
  Value.toNumber (Value.String_ "x") 9%float = 9%float /\
  Value.toBool (Value.Bool_ true) false = true /\
  Value.toBool (Value.Number_ 3.5%float) false = true /\
  Value.toBool (Value.String_ "x") true = true.
Proof.
  destruct (toNumber_toBool_coercions (Value.Number_ 3.5%float) 9%float false)
    as (N1 & _ & _ & _ & _ & N6 & _).
  destruct (toNumber_toBool_coercions (Value.Bool_ true) 9%float false)
    as (_ & B2 & _ & _ & B5 & _ & _).
  destruct (toNumber_toBool_coercions (Value.String_ "x") 9%float true)
    as (_ & _ & _ & S4 & _ & _ & S7).
  split; [|split; [|split; [|split; [|split]]]].
  - apply N1. reflexivity.
  - apply B2; reflexivity.
  - apply S4; discriminate.
  - apply B5; reflexivity.
  - apply N6; vm_compute; reflexivity.
  - apply S7; discriminate.
Defined.

(** ** Running the monad *)

Ltac unfold_m :=
  unfold mbind, mret, M_bind, M_ret, bind, ret, emit, call, throw,
    scope_exit, try_catch in *.

Lemma bind_ok {A B} (m : M A) (k : A -> M B) (t t' : Trace) (a : A) :
  m t = (Ok a, t') -> (m ≫= k) t = k a t'.
Proof. intros H. unfold_m. rewrite H. reflexivity. Qed.

Lemma bind_throw {A B} (m : M A) (k : A -> M B) (t t' : Trace) (e : exn) :
  m t = (Throw e, t') -> (m ≫= k) t = (Throw e, t').
Proof. intros H. unfold_m. rewrite H. reflexivity. Qed.

Lemma dtor_run (v : Value.t) (t : Trace) :
  Value.dtor v t = (Ok tt, t ++ dtor_events v).
Proof.
  unfold Value.dtor, Value.cleanup, dtor_events. unfold_m.
  destruct (Value.owns v); simpl; [reflexivity | rewrite app_nil_r; reflexivity].
Qed.

Lemma cleanup_run (v : Value.t) (t : Trace) :
  Value.cleanup v t =
  (Ok (Value.mk (Value._kind v) (Value._num v) (Value._b v) (Value._s v) nullptr),
   t ++ dtor_events v).
Proof.
  unfold Value.cleanup, dtor_events. unfold_m.
  destruct (Value.owns v); simpl; [reflexivity | rewrite app_nil_r; reflexivity].
Qed.

Lemma owns_holds (v : Value.t) : holds_handle v -> Value.owns v = true.
Proof.
  intros [Hk Hh]. unfold Value.owns. rewrite Hk.
  unfold Value.handle in Hh. destruct (N.eqb_spec (Value._h v) nullptr); [contradiction | reflexivity].
Qed.

(** ** Conversion from the boundary form *)

Lemma fromNative_ok (nv : minijs_value) (retainHandle : bool) (t : Trace) :
  exists v t', Value.fromNative nv retainHandle t = (Ok v, t').
Proof.
  unfold Value.fromNative, Value.Handle.
  repeat (match goal with |- context [Z.eqb ?a ?b] => destruct (Z.eqb a b) end;
          [unfold_m; try destruct (_ && _); simpl; eauto |]).
  unfold_m; eauto.
Qed.

(** C10: for a kind discriminant outside 0..8 [fromNative] returns the Null
    value, performs no retain and raises no failure; conversion never fails,
    whatever the discriminant. *)
Theorem fromNative_unknown_kind (nv : minijs_value) (retainHandle : bool) (t : Trace) :
  (exists v t', Value.fromNative nv retainHandle t = (Ok v, t')) /\
  (~ (0 <= nv_kind nv <= 8) -> Value.fromNative nv retainHandle t = (Ok Value.Null_, t)).
Proof.
  split; [apply fromNative_ok |].
  intros Hk. unfold Value.fromNative.
  repeat (match goal with |- context [Z.eqb ?a ?b] => destruct (Z.eqb_spec a b) end;
          [lia |]).
  reflexivity.
Qed.

Lemma fromNative_unknown_kind_witness :
  Value.fromNative (mk_minijs_value 42 1.5%float 1 (Some "x"%string) 7%N) true [] =
    (Ok Value.Null_, []) /\
  Value.fromNative (mk_minijs_value (-1) 0%float 0 None 7%N) true [EvHost "e"] =
    (Ok Value.Null_, [EvHost "e"]).
Proof.
  split.
  - apply (fromNative_unknown_kind (mk_minijs_value 42 1.5%float 1 (Some "x"%string) 7%N) true []).
    simpl. lia.
  - apply (fromNative_unknown_kind (mk_minijs_value (-1) 0%float 0 None 7%N) true [EvHost "e"]).
    simpl. lia.
Defined.

(** ** The typed views *)

Lemma view_ctor_mismatch (k : Value.Kind) (msg : string) (v : Value.t) (t : Trace) :
  Value.kind v <> k ->
  view_ctor k msg v t = (Throw (runtime_error msg), t ++ dtor_events v).
Proof.
  intros Hk. unfold view_ctor. simpl.
  replace (Value.Kind_eqb (Value.kind _) k) with false.
  - simpl. erewrite bind_ok by apply dtor_run. destruct v; reflexivity.
  - symmetry. unfold Value.kind in *. simpl.
    destruct v as [kv n b s h]; simpl in *. destruct kv, k; try reflexivity; congruence.
Qed.

(** C6: constructing a view from a Value of another kind fails at
    construction, with the failure of that view, and yields no view; an
    Array view of an Object value is one instance. *)
Theorem view_ctor_kind_mismatch (v : Value.t) (t : Trace) :
  (Value.kind v <> Value.Array ->
     exists t', Array.ctor v t = (Throw (runtime_error "Array: Value is not an array"), t')) /\
  (Value.kind v <> Value.Object ->
     exists t', Object.ctor v t = (Throw (runtime_error "Object: Value is not an object"), t')) /\
  (Value.kind v <> Value.Function ->
     exists t',
       Function.ctor v t = (Throw (runtime_error "Function: Value is not a function"), t')) /\
  (Value.kind v <> Value.Class ->
     exists t', Class.ctor v t = (Throw (runtime_error "Class: Value is not a class"), t')).
Proof.
  unfold Array.ctor, Object.ctor, Function.ctor, Class.ctor.
  repeat split; intros Hk; eexists;
    (erewrite bind_throw; [reflexivity | apply view_ctor_mismatch; exact Hk]).
Qed.

Lemma view_ctor_kind_mismatch_witness :
  exists t',
    Array.ctor (Value.mk Value.Object 0%float false EmptyString 7%N) [] =
    (Throw (runtime_error "Array: Value is not an array"), t').
Proof.
  apply (view_ctor_kind_mismatch (Value.mk Value.Object 0%float false EmptyString 7%N) []).
  simpl. discriminate.
Defined.

(** C5: on a view that holds no handle the reads [Object::has],
    [Object::get], [Object::keys], [Array::length] and [Array::get] return
    false, Null, the empty sequence, 0 and Null and make no call into the
    runtime (the trace is unchanged); the writes [Object::set], [Array::set],
    [Array::push] and [Class::addMethod] fail at once. *)
Theorem null_view_operations (rt : Runtime) (e : Engine.t) (o : Object.t) (a : Array.t)
    (c : Class.t) (key : string) (index : Z) (v : Value.t) (fn : Function.t) (t : Trace) :
  Object.handle o = nullptr -> Array.handle a = nullptr -> Class.handle c = nullptr ->
  Object.has rt o key t = (Ok false, t) /\
  Object.get rt o key t = (Ok Value.Null_, t) /\
  Object.keys rt o t = (Ok [], t) /\
  Array.length rt a t = (Ok 0, t) /\
  Array.get rt a index t = (Ok Value.Null_, t) /\
  Object.set o e key v t = (Throw (runtime_error "Object::set on null handle"), t) /\
  Array.set a e index v t = (Throw (runtime_error "Array::set on null handle"), t) /\
  Array.push a e v t = (Throw (runtime_error "Array::push on null handle"), t) /\
  Class.addMethod c key fn t = (Throw (runtime_error "Class::addMethod on null handle"), t).
Proof.
  intros Ho Ha Hc.
  unfold Object.has, Object.get, Object.keys, Object.set, Array.length, Array.get,
    Array.set, Array.push, Class.addMethod.
  rewrite Ho, Ha, Hc. simpl. repeat split.
Qed.

Lemma null_view_operations_witness :
  Object.keys
    {| rt_malloc_ok := fun _ _ => true; rt_object_has := fun _ _ _ => 1;
       rt_object_get := fun _ _ _ => nv_zero; rt_object_keys := fun _ _ => Some "[]"%string;
       rt_array_length := fun _ _ => 3; rt_array_get := fun _ _ _ => nv_zero |}
    Object.default [] = (Ok [], []).
Proof.
  apply (null_view_operations
           {| rt_malloc_ok := fun _ _ => true; rt_object_has := fun _ _ _ => 1;
              rt_object_get := fun _ _ _ => nv_zero;
              rt_object_keys := fun _ _ => Some "[]"%string;
              rt_array_length := fun _ _ => 3; rt_array_get := fun _ _ _ => nv_zero |}
           {| Engine._it := 1%N; Engine._bindings := [] |} Object.default Array.default Class.default
           "k"%string 0 Value.Null_ Function.default []); reflexivity.
Defined.

(** ** The trampoline *)

Lemma destroy_args_run (args : list Value.t) (t : Trace) :
  Engine.destroy_args args t = (Ok tt, t ++ flat_map dtor_events args).
Proof.
  revert t. induction args as [|a args IH]; intros t; cbn [Engine.destroy_args flat_map].
  - rewrite app_nil_r. reflexivity.
  - erewrite bind_ok by apply dtor_run. rewrite IH, <- app_assoc. reflexivity.
Qed.

Lemma convert_args_ok (argv : list minijs_value) (t : Trace) :
  exists args t', Engine.convert_args argv t = (Ok args, t').
Proof.
  revert t. induction argv as [|nv argv IH]; intros t; cbn [Engine.convert_args].
  - eexists _, _. reflexivity.
  - destruct (fromNative_ok nv true t) as (a & t1 & Ha).
    destruct (IH t1) as (args & t2 & Hargs).
    erewrite bind_ok by exact Ha. erewrite bind_ok by exact Hargs.
    eexists _, _. reflexivity.
Qed.

Lemma convert_this_ok (thisVal : option minijs_value) (t : Trace) :
  exists tv t', Engine.convert_this thisVal t = (Ok tv, t').
Proof.
  destruct thisVal as [nv|]; cbn [Engine.convert_this].
  - destruct (fromNative_ok nv true t) as (a & t1 & Ha).
    erewrite bind_ok by exact Ha.
    unfold Value.move_assign_distinct.
    erewrite bind_ok by (erewrite bind_ok by apply cleanup_run; reflexivity).
    cbv beta iota. erewrite bind_ok by apply dtor_run.
    eexists _, _. reflexivity.
  - eexists _, _. reflexivity.
Qed.

Lemma scope_exit_ok {A} (body : M A) (v : Value.t) (t t' : Trace) (a : A) :
  body t = (Ok a, t') ->
  scope_exit body (Value.dtor v) t = (Ok a, t' ++ dtor_events v).
Proof. intros H. unfold scope_exit. rewrite H, dtor_run. reflexivity. Qed.

Lemma scope_exit_throw {A} (body : M A) (v : Value.t) (t t' : Trace) (e : exn) :
  body t = (Throw e, t') ->
  scope_exit body (Value.dtor v) t = (Throw e, t' ++ dtor_events v).
Proof. intros H. unfold scope_exit. rewrite H, dtor_run. reflexivity. Qed.

Lemma alloc_run (rt : Runtime) (s : string) (t : Trace) :
  let n := (N.of_nat (String.length s) + 1)%N in
  Engine.allocUtf8WithMinijsMalloc rt s t =
  (Ok (if rt_malloc_ok rt t n then Some s else None), t ++ [EvMalloc n]).
Proof.
  unfold Engine.allocUtf8WithMinijsMalloc. unfold_m. simpl.
  destruct (rt_malloc_ok rt t _); reflexivity.
Qed.

Lemma convert_return_ok (rt : Runtime) (r : Value.t) (t : Trace) :
  exists out t', Engine.convert_return rt r t = (Ok out, t').
Proof.
  unfold Engine.convert_return.
  destruct (Value.kind r) eqn:Hk;
    try (destruct (_ && _);
         [ simpl; eexists _, _; apply scope_exit_ok; reflexivity
         | eexists _, _; apply scope_exit_ok; reflexivity ]).
  eexists _, _. apply scope_exit_ok.
  erewrite bind_ok by apply alloc_run. reflexivity.
Qed.

(** C9: with a null user-context pointer, or a Binding without engine, the
    trampoline returns the Null boundary value at once: nothing is appended
    to the trace, so no argument was converted (no retain) and the closure,
    whatever it does, was not invoked. *)
Theorem trampoline_without_binding (rt : Runtime) (argv : list minijs_value)
    (thisVal : option minijs_value) (userdata : option Engine.Binding) (t : Trace) :
  (userdata = None \/ exists b, userdata = Some b /\ Engine.engine b = nullptr) ->
  Engine.trampoline rt argv thisVal userdata t =
  (Ok (mk_minijs_value MINIJS_NULL 0%float 0 None nullptr), t).
Proof.
  intros [-> | (b & -> & Hb)]; unfold Engine.trampoline.
  - reflexivity.
  - rewrite Hb. reflexivity.
Qed.

Lemma trampoline_without_binding_witness :
  Engine.trampoline
    {| rt_malloc_ok := fun _ _ => true; rt_object_has := fun _ _ _ => 1;
       rt_object_get := fun _ _ _ => nv_zero; rt_object_keys := fun _ _ => None;
       rt_array_length := fun _ _ => 0; rt_array_get := fun _ _ _ => nv_zero |}
    [mk_minijs_value MINIJS_ARRAY 0%float 0 None 7%N] None
    (Some {| Engine.engine := nullptr;
             Engine.cb := fun _ _ => emit (EvHost "called");; ret Value.Null_ |}) [] =
  (Ok (mk_minijs_value MINIJS_NULL 0%float 0 None nullptr), []).
Proof.
  apply trampoline_without_binding. right. eexists. split; reflexivity.
Defined.

(** What the trampoline does around the closure, once the Binding is there:
    the arguments and the receiver are converted, the closure runs, and the
    receiver and the arguments are destroyed when the [try] block is left. *)
Lemma trampoline_closure_returns (rt : Runtime) (argv : list minijs_value)
    (thisVal : option minijs_value) (b : Engine.Binding) (t t1 t2 t3 t4 : Trace)
    (args : list Value.t) (tv r : Value.t) (out : minijs_value) :
  Engine.engine b <> nullptr ->
  Engine.convert_args argv t = (Ok args, t1) ->
  Engine.convert_this thisVal t1 = (Ok tv, t2) ->
  Engine.cb b args tv t2 = (Ok r, t3) ->
  Engine.convert_return rt r t3 = (Ok out, t4) ->
  Engine.trampoline rt argv thisVal (Some b) t =
  (Ok out, t4 ++ dtor_events tv ++ flat_map dtor_events args).
Proof.
  intros Hb Hargs Htv Hcb Hout. unfold Engine.trampoline.
  destruct (N.eqb_spec (Engine.engine b) nullptr) as [|_]; [contradiction|].
  unfold try_catch.
  erewrite bind_ok by exact Hargs.
  unfold scope_exit at 1.
  erewrite bind_ok by exact Htv.
  erewrite scope_exit_ok by (erewrite bind_ok by exact Hcb; exact Hout).
  rewrite destroy_args_run, <- app_assoc. reflexivity.
Qed.

Lemma trampoline_closure_throws (rt : Runtime) (argv : list minijs_value)
    (thisVal : option minijs_value) (b : Engine.Binding) (t t1 t2 t3 : Trace)
    (args : list Value.t) (tv : Value.t) (e : exn) :
  Engine.engine b <> nullptr ->
  Engine.convert_args argv t = (Ok args, t1) ->
  Engine.convert_this thisVal t1 = (Ok tv, t2) ->
  Engine.cb b args tv t2 = (Throw e, t3) ->
  let tu := t3 ++ dtor_events tv ++ flat_map dtor_events args in
  let n := (N.of_nat (String.length (Engine.error_message e)) + 1)%N in
  Engine.trampoline rt argv thisVal (Some b) t =
  (Ok (mk_minijs_value MINIJS_STRING 0%float 0
         (if rt_malloc_ok rt tu n then Some (Engine.error_message e) else None) nullptr),
   tu ++ [EvMalloc n]).
Proof.
  intros Hb Hargs Htv Hcb. unfold Engine.trampoline.
  destruct (N.eqb_spec (Engine.engine b) nullptr) as [|_]; [contradiction|].
  unfold try_catch.
  erewrite bind_ok by exact Hargs.
  unfold scope_exit at 1.
  erewrite bind_ok by exact Htv.
  erewrite scope_exit_throw by (erewrite bind_throw by exact Hcb; reflexivity).
  rewrite destroy_args_run, <- app_assoc.
  erewrite bind_ok by apply alloc_run. reflexivity.
Qed.

Lemma trampoline_total (rt : Runtime) (argv : list minijs_value)
    (thisVal : option minijs_value) (userdata : option Engine.Binding) (t : Trace) :
  exists out t', Engine.trampoline rt argv thisVal userdata t = (Ok out, t').
Proof.
  destruct userdata as [b|]; [|eexists _, _; reflexivity].
  destruct (N.eq_dec (Engine.engine b) nullptr) as [Hb|Hb].
  - eexists _, _. unfold Engine.trampoline. rewrite Hb. reflexivity.
  - destruct (convert_args_ok argv t) as (args & t1 & Hargs).
    destruct (convert_this_ok thisVal t1) as (tv & t2 & Htv).
    destruct (Engine.cb b args tv t2) as [[r|e] t3] eqn:Hcb.
    + destruct (convert_return_ok rt r t3) as (out & t4 & Hout).
      eexists _, _. eapply trampoline_closure_returns; eassumption.
    + eexists _, _. eapply trampoline_closure_throws; eassumption.
Qed.

Lemma error_message_prefix (e : exn) :
  String.prefix "Error: " (Engine.error_message e) = true.
Proof.
  destruct e as [what|]; [|reflexivity].
  cbn. destruct (c_str what); reflexivity.
Qed.

(** C1, as stated, fails when [minijs_malloc] returns null: the closure
    throws, the trampoline returns a String-kind value, but its text pointer
    is null, so there is no text that begins with the marker. *)
Lemma trampoline_failure_text_counterexample :
  Engine.trampoline (example_runtime false None) [] None (Some throwing_binding) [] =
    (Ok (mk_minijs_value MINIJS_STRING 0%float 0 None nullptr), [EvMalloc 12%N]) /\
  ~ (exists s, nv_str (mk_minijs_value MINIJS_STRING 0%float 0 None nullptr) = Some s /\
               String.prefix "Error: " s = true).
Proof.
  split; [vm_compute; reflexivity|].
  intros (s & Hs & _). discriminate Hs.
Qed.

(** C1 (amended): no failure ever leaves the trampoline, whatever the
    closure does; when the closure throws, the receiver and the arguments are
    destroyed and the trampoline returns a String-kind value whose text is
    the marker [Error: ] followed by the message of the failure when the
    runtime's allocator returns memory, and the null pointer when it does
    not. *)
Theorem trampoline_closure_failure (rt : Runtime) (argv : list minijs_value)
    (thisVal : option minijs_value) (userdata : option Engine.Binding) (t : Trace) :
  (exists out t', Engine.trampoline rt argv thisVal userdata t = (Ok out, t')) /\
  (forall b args tv e t1 t2 t3,
     userdata = Some b ->
     Engine.engine b <> nullptr ->
     Engine.convert_args argv t = (Ok args, t1) ->
     Engine.convert_this thisVal t1 = (Ok tv, t2) ->
     Engine.cb b args tv t2 = (Throw e, t3) ->
     let tu := t3 ++ dtor_events tv ++ flat_map dtor_events args in
     let n := (N.of_nat (String.length (Engine.error_message e)) + 1)%N in
     exists out,
       Engine.trampoline rt argv thisVal userdata t = (Ok out, tu ++ [EvMalloc n]) /\
       nv_kind out = MINIJS_STRING /\
       nv_str out = (if rt_malloc_ok rt tu n then Some (Engine.error_message e) else None) /\
       String.prefix "Error: " (Engine.error_message e) = true /\
       Engine.error_message e =
         match e with
         | StdException what => ("Error: " +:+ c_str what)%string
         | OtherException => "Error: unknown native exception"%string
         end).
Proof.
  split; [apply trampoline_total|].
  intros b args tv e t1 t2 t3 -> Hb Hargs Htv Hcb tu n.
  eexists. split; [eapply trampoline_closure_throws; eassumption|].
  split; [reflexivity|]. split; [reflexivity|].
  split; [apply error_message_prefix | destruct e; reflexivity].
Qed.

Lemma trampoline_closure_failure_witness :
  exists out,
    Engine.trampoline (example_runtime true None)
      [mk_minijs_value MINIJS_ARRAY 0%float 0 None 7%N] None (Some throwing_binding) [] =
      (Ok out, [EvRetain 7%N; EvRelease 7%N; EvMalloc 12%N]) /\
    nv_kind out = MINIJS_STRING /\
    nv_str out = Some "Error: boom"%string.
Proof.
  destruct (trampoline_closure_failure (example_runtime true None)
              [mk_minijs_value MINIJS_ARRAY 0%float 0 None 7%N] None
              (Some throwing_binding) []) as [_ H].
  destruct (H throwing_binding
              [Value.mk Value.Array 0%float false EmptyString 7%N] Value.Null_
              (runtime_error "boom") [EvRetain 7%N] [EvRetain 7%N] [EvRetain 7%N])
    as (out & Hrun & Hkind & Hstr & _);
    [reflexivity | discriminate | reflexivity | reflexivity | reflexivity |].
  exists out. split; [exact Hrun|]. split; [exact Hkind | exact Hstr].
Defined.

(** ** Ownership across the consuming calls *)

Lemma holds_handle_cases (v : Value.t) :
  holds_handle v ->
  Value.isHandleKind v && negb (N.eqb (Value.handle v) nullptr) = true /\
  Value.toNumber v 0%float = 0%float /\ Value.toBool v false = false /\
  Value.kind v <> Value.String /\
  fst (Engine.valueToNativeArg v) =
    mk_minijs_value (Value.Kind_to_int (Value.kind v)) 0%float 0 None (Value.handle v) /\
  snd (Engine.valueToNativeArg v) = None.
Proof.
  intros [Hk Hh]. rewrite Hk.
  destruct (N.eqb_spec (Value.handle v) nullptr) as [|_]; [contradiction|].
  unfold Value.isHandleKind, Value.toNumber, Value.toBool, Engine.valueToNativeArg,
    Value.kind in *.
  destruct (Value._kind v); try discriminate; repeat split; discriminate.
Qed.

(** C7, as stated, fails for a Value of a handle kind whose handle is null,
    which [Value::Handle(Kind::Object, nullptr, false)] returns: [declareCopy]
    then retains nothing, its only call is [minijs_global_declare], and the
    destruction of the wrapper releases nothing. *)
Lemma declareCopy_null_handle_counterexample :
  Value.Handle Value.Object nullptr false [] =
    (Ok (Value.mk Value.Object 0%float false EmptyString nullptr), []) /\
  Value.isHandleKind (Value.mk Value.Object 0%float false EmptyString nullptr) = true /\
  Engine.declareCopy {| Engine._it := 1%N; Engine._bindings := [] |} "g"
    (Value.mk Value.Object 0%float false EmptyString nullptr) [] =
    (Ok (Value.mk Value.Object 0%float false EmptyString nullptr),
     [EvGlobalDeclare 1%N "g" (mk_minijs_value MINIJS_OBJECT 0%float 0 None nullptr)]) /\
  Value.dtor (Value.mk Value.Object 0%float false EmptyString nullptr) [] = (Ok tt, []).
Proof. repeat split. Qed.

(** C7 (amended): for a Value [v] of a handle kind, [declareCopy] leaves the
    caller's wrapper unchanged.  When [v] holds a handle, the calls are
    exactly one retain of that handle followed by the consuming
    [minijs_global_declare] with it, and the destruction of [v] afterwards
    still releases the handle once.  When the handle of [v] is null, the only
    call is [minijs_global_declare], with a null handle: nothing is retained,
    and the destruction of [v] releases nothing. *)
Theorem declareCopy_keeps_caller_reference (e : Engine.t) (name : string) (v : Value.t)
    (t : Trace) :
  Value.isHandleKind v = true ->
  let nv := mk_minijs_value (Value.Kind_to_int (Value.kind v)) 0%float 0 None
              (Value.handle v) in
  (Value.handle v <> nullptr ->
   Engine.declareCopy e name v t =
     (Ok v, t ++ [EvRetain (Value.handle v); EvGlobalDeclare (Engine._it e) (c_str name) nv]) /\
   forall t', Value.dtor v t' = (Ok tt, t' ++ [EvRelease (Value.handle v)])) /\
  (Value.handle v = nullptr ->
   Engine.declareCopy e name v t =
     (Ok v, t ++ [EvGlobalDeclare (Engine._it e) (c_str name) nv]) /\
   forall t', Value.dtor v t' = (Ok tt, t')).
Proof.
  intros Hk nv. split.
  - intros Hh. assert (Hv : holds_handle v) by (split; assumption).
    pose proof (holds_handle_cases v Hv) as (Hc & _ & _ & _ & Hnv & Htmp).
    split.
    + unfold Engine.declareCopy.
      destruct (Engine.valueToNativeArg v) as [nv1 tmp]. simpl in Hnv, Htmp. subst nv1 tmp.
      rewrite Hc. unfold_m. simpl. rewrite <- app_assoc. reflexivity.
    + intros t'. rewrite dtor_run. unfold dtor_events.
      rewrite (owns_holds v Hv). reflexivity.
  - intros Hh. split.
    + subst nv. destruct v as [k n b s h]. cbn in Hh. subst h.
      destruct k; try discriminate Hk; reflexivity.
    + intros t'. rewrite dtor_run. unfold dtor_events, Value.owns.
      unfold Value.handle in Hh. rewrite Hh. cbn. rewrite app_nil_r. reflexivity.
Qed.

Lemma declareCopy_keeps_caller_reference_witness :
  let v := Value.mk Value.Object 0%float false EmptyString 7%N in
  let w := Value.mk Value.Object 0%float false EmptyString nullptr in
  (Engine.declareCopy {| Engine._it := 1%N; Engine._bindings := [] |} "g" v [] =
     (Ok v, [EvRetain 7%N;
             EvGlobalDeclare 1%N "g" (mk_minijs_value MINIJS_OBJECT 0%float 0 None 7%N)]) /\
   forall t', Value.dtor v t' = (Ok tt, t' ++ [EvRelease 7%N])) /\
  (Engine.declareCopy {| Engine._it := 1%N; Engine._bindings := [] |} "g" w [] =
     (Ok w, [EvGlobalDeclare 1%N "g" (mk_minijs_value MINIJS_OBJECT 0%float 0 None nullptr)]) /\
   forall t', Value.dtor w t' = (Ok tt, t')).
Proof.
  intros v w.
  destruct (declareCopy_keeps_caller_reference {| Engine._it := 1%N; Engine._bindings := [] |}
              "g" v [] eq_refl) as (Hheld & _).
  destruct (declareCopy_keeps_caller_reference {| Engine._it := 1%N; Engine._bindings := [] |}
              "g" w [] eq_refl) as (_ & Hnull).
  split; [apply Hheld; discriminate | apply Hnull; reflexivity].
Defined.




(** ** Reference counts of the wrappers in a store *)

Lemma retains_app (h : ptr) (t t' : Trace) :
  retains h (t ++ t') = (retains h t + retains h t')%nat.
Proof. unfold retains. rewrite List.filter_app, length_app. reflexivity. Qed.

Lemma releases_app (h : ptr) (t t' : Trace) :
  releases h (t ++ t') = (releases h t + releases h t')%nat.
Proof. unfold releases. rewrite List.filter_app, length_app. reflexivity. Qed.

Lemma dtor_events_count (h : ptr) (v : Value.t) :
  retains h (dtor_events v) = 0%nat /\ releases h (dtor_events v) = Store.own h v.
Proof.
  unfold dtor_events, Store.own, retains, releases.
  destruct (Value.owns v); simpl; [|split; reflexivity].
  destruct (N.eqb (Value._h v) h); split; reflexivity.
Qed.

Lemma copy_events_count (h : ptr) (v : Value.t) :
  retains h (copy_events v) = Store.own h v /\ releases h (copy_events v) = 0%nat.
Proof.
  unfold copy_events, Store.own, retains, releases.
  destruct (Value.owns v); simpl; [|split; reflexivity].
  destruct (N.eqb (Value._h v) h); split; reflexivity.
Qed.

Lemma copy_ctor_run (o : Value.t) (t : Trace) :
  Value.copy_ctor o t = (Ok o, t ++ copy_events o).
Proof.
  unfold Value.copy_ctor, copy_events. unfold_m. destruct o as [k n b s h].
  simpl. destruct (Value.owns _); simpl; [reflexivity | rewrite app_nil_r; reflexivity].
Qed.

Lemma copy_assign_distinct_run (this o : Value.t) (t : Trace) :
  Value.copy_assign_distinct this o t = (Ok o, t ++ dtor_events this ++ copy_events o).
Proof.
  unfold Value.copy_assign_distinct. erewrite bind_ok by apply cleanup_run.
  unfold copy_events. unfold_m. destruct o as [k n b s h]. simpl.
  destruct (Value.owns _); simpl; rewrite <- ?app_assoc, ?app_nil_r; reflexivity.
Qed.

Lemma move_assign_distinct_run (this o : Value.t) (t : Trace) :
  Value.move_assign_distinct this o t =
  (Ok (o, Value.mk Value.Null 0%float false EmptyString nullptr), t ++ dtor_events this).
Proof.
  unfold Value.move_assign_distinct. erewrite bind_ok by apply cleanup_run.
  destruct o; reflexivity.
Qed.

Lemma own_comm (h : ptr) (j1 j2 : Store.addr) (z1 z2 : Value.t) (y : nat) :
  (Store.own h z1 + (Store.own h z2 + y) = Store.own h z2 + (Store.own h z1 + y))%nat.
Proof. lia. Qed.

Lemma owners_insert_fresh (h : ptr) (σ : gmap Store.addr Value.t) (a : Store.addr)
    (v : Value.t) :
  σ !! a = None -> Store.owners h (<[a:=v]> σ) = (Store.own h v + Store.owners h σ)%nat.
Proof.
  intros Ha. unfold Store.owners.
  rewrite map_fold_insert_L; [reflexivity | intros; apply own_comm; exact 0%nat | exact Ha].
Qed.

Lemma owners_delete (h : ptr) (σ : gmap Store.addr Value.t) (a : Store.addr)
    (old : Value.t) :
  σ !! a = Some old ->
  Store.owners h σ = (Store.own h old + Store.owners h (delete a σ))%nat.
Proof.
  intros Ha. unfold Store.owners.
  erewrite map_fold_delete_L; [reflexivity | intros; apply own_comm; exact 0%nat | exact Ha].
Qed.

Lemma owners_insert_live (h : ptr) (σ : gmap Store.addr Value.t) (a : Store.addr)
    (old v : Value.t) :
  σ !! a = Some old ->
  (Store.owners h (<[a:=v]> σ) + Store.own h old = Store.own h v + Store.owners h σ)%nat.
Proof.
  intros Ha. rewrite <- insert_delete_eq.
  rewrite owners_insert_fresh by apply lookup_delete_eq.
  rewrite (owners_delete h σ a old Ha). lia.
Qed.

Lemma own_null_state (h : ptr) :
  Store.own h (Value.mk Value.Null 0%float false EmptyString nullptr) = 0%nat.
Proof. reflexivity. Qed.

Lemma step_CopyCtor (σ : gmap Store.addr Value.t) (dst src : Store.addr) (o : Value.t)
    (t : Trace) :
  σ !! dst = None -> σ !! src = Some o ->
  exists m, Store.step (Store.CopyCtor dst src) σ = Some m /\
            m t = (Ok (<[dst:=o]> σ), t ++ copy_events o).
Proof.
  intros Hd Hs. simpl. rewrite Hd, Hs. eexists. split; [reflexivity|].
  erewrite bind_ok by apply copy_ctor_run. reflexivity.
Qed.

Lemma step_CopyAssign (σ : gmap Store.addr Value.t) (dst src : Store.addr)
    (this o : Value.t) (t : Trace) :
  σ !! dst = Some this -> σ !! src = Some o ->
  exists m, Store.step (Store.CopyAssign dst src) σ = Some m /\
            m t = if decide (dst = src) then (Ok σ, t)
                  else (Ok (<[dst:=o]> σ), t ++ dtor_events this ++ copy_events o).
Proof.
  intros Hd Hs. simpl. rewrite Hd, Hs. eexists. split; [reflexivity|].
  destruct (decide (dst = src)); [reflexivity|].
  erewrite bind_ok by apply copy_assign_distinct_run. reflexivity.
Qed.

Lemma step_MoveCtor (σ : gmap Store.addr Value.t) (dst src : Store.addr) (o : Value.t)
    (t : Trace) :
  σ !! dst = None -> σ !! src = Some o ->
  exists m, Store.step (Store.MoveCtor dst src) σ = Some m /\
            m t = (Ok (<[src:=Value.mk Value.Null 0%float false EmptyString nullptr]>
                         (<[dst:=o]> σ)), t).
Proof.
  intros Hd Hs. simpl. rewrite Hd, Hs. eexists. split; [reflexivity|].
  destruct o; reflexivity.
Qed.

Lemma step_MoveAssign (σ : gmap Store.addr Value.t) (dst src : Store.addr)
    (this o : Value.t) (t : Trace) :
  σ !! dst = Some this -> σ !! src = Some o ->
  exists m, Store.step (Store.MoveAssign dst src) σ = Some m /\
            m t = if decide (dst = src) then (Ok σ, t)
                  else (Ok (<[src:=Value.mk Value.Null 0%float false EmptyString nullptr]>
                              (<[dst:=o]> σ)), t ++ dtor_events this).
Proof.
  intros Hd Hs. simpl. rewrite Hd, Hs. eexists. split; [reflexivity|].
  destruct (decide (dst = src)); [reflexivity|].
  erewrite bind_ok by apply move_assign_distinct_run. reflexivity.
Qed.

Lemma step_Dtor (σ : gmap Store.addr Value.t) (a : Store.addr) (v : Value.t) (t : Trace) :
  σ !! a = Some v ->
  exists m, Store.step (Store.Dtor a) σ = Some m /\
            m t = (Ok (delete a σ), t ++ dtor_events v).
Proof.
  intros Ha. simpl. rewrite Ha. eexists. split; [reflexivity|].
  erewrite bind_ok by apply dtor_run. reflexivity.
Qed.

Ltac count_events h :=
  rewrite ?retains_app, ?releases_app;
  repeat match goal with
         | |- context [dtor_events ?v] =>
             lazymatch goal with
             | _ : releases h (dtor_events v) = _ |- _ => fail
             | _ => destruct (dtor_events_count h v) as [? ?]
             end
         | |- context [copy_events ?v] =>
             lazymatch goal with
             | _ : retains h (copy_events v) = _ |- _ => fail
             | _ => destruct (copy_events_count h v) as [? ?]
             end
         end.

(** One operation keeps the balance: what it retains plus the owners before
    is what it releases plus the owners after. *)
Lemma step_balance (op : Store.Op) (σ σ' : gmap Store.addr Value.t)
    (m : M (gmap Store.addr Value.t)) (t t' : Trace) (h : ptr) :
  Store.step op σ = Some m -> m t = (Ok σ', t') ->
  (retains h t' + Store.owners h σ + releases h t =
   releases h t' + Store.owners h σ' + retains h t)%nat.
Proof.
  intros Hstep Hrun. destruct op as [dst src|dst src|dst src|dst src|a].
  - destruct (σ !! dst) as [this|] eqn:Hd; [simpl in Hstep; rewrite Hd in Hstep; discriminate|].
    destruct (σ !! src) as [o|] eqn:Hs; [|simpl in Hstep; rewrite Hd, Hs in Hstep; discriminate].
    destruct (step_CopyCtor σ dst src o t Hd Hs) as (m' & Hm & Hr).
    rewrite Hstep in Hm. injection Hm as <-. rewrite Hrun in Hr. injection Hr as -> ->.
    rewrite (owners_insert_fresh h σ dst o Hd). count_events h. lia.
  - destruct (σ !! dst) as [this|] eqn:Hd; [|simpl in Hstep; rewrite Hd in Hstep; discriminate].
    destruct (σ !! src) as [o|] eqn:Hs; [|simpl in Hstep; rewrite Hd, Hs in Hstep; discriminate].
    destruct (step_CopyAssign σ dst src this o t Hd Hs) as (m' & Hm & Hr).
    rewrite Hstep in Hm. injection Hm as <-. rewrite Hrun in Hr.
    destruct (decide (dst = src)); injection Hr as -> ->; [lia|].
    pose proof (owners_insert_live h σ dst this o Hd). count_events h. lia.
  - destruct (σ !! dst) as [this|] eqn:Hd; [simpl in Hstep; rewrite Hd in Hstep; discriminate|].
    destruct (σ !! src) as [o|] eqn:Hs; [|simpl in Hstep; rewrite Hd, Hs in Hstep; discriminate].
    destruct (step_MoveCtor σ dst src o t Hd Hs) as (m' & Hm & Hr).
    rewrite Hstep in Hm. injection Hm as <-. rewrite Hrun in Hr. injection Hr as -> ->.
    assert (Hne : dst <> src) by congruence.
    pose proof (owners_insert_fresh h σ dst o Hd) as H1.
    pose proof (owners_insert_live h (<[dst:=o]> σ) src o
                  (Value.mk Value.Null 0%float false EmptyString nullptr)) as H2.
    rewrite lookup_insert_ne in H2 by exact Hne. specialize (H2 Hs).
    rewrite own_null_state in H2. lia.
  - destruct (σ !! dst) as [this|] eqn:Hd; [|simpl in Hstep; rewrite Hd in Hstep; discriminate].
    destruct (σ !! src) as [o|] eqn:Hs; [|simpl in Hstep; rewrite Hd, Hs in Hstep; discriminate].
    destruct (step_MoveAssign σ dst src this o t Hd Hs) as (m' & Hm & Hr).
    rewrite Hstep in Hm. injection Hm as <-. rewrite Hrun in Hr.
    destruct (decide (dst = src)) as [|Hne]; injection Hr as -> ->; [lia|].
    pose proof (owners_insert_live h σ dst this o Hd) as H1.
    pose proof (owners_insert_live h (<[dst:=o]> σ) src o
                  (Value.mk Value.Null 0%float false EmptyString nullptr)) as H2.
    rewrite lookup_insert_ne in H2 by exact Hne. specialize (H2 Hs).
    rewrite own_null_state in H2. count_events h. lia.
  - destruct (σ !! a) as [v|] eqn:Ha; [|simpl in Hstep; rewrite Ha in Hstep; discriminate].
    destruct (step_Dtor σ a v t Ha) as (m' & Hm & Hr).
    rewrite Hstep in Hm. injection Hm as <-. rewrite Hrun in Hr. injection Hr as -> ->.
    pose proof (owners_delete h σ a v Ha). count_events h. lia.
Qed.

(** A sequence of operations keeps the balance. *)
Lemma run_balance (ops : list Store.Op) (σ σ' : gmap Store.addr Value.t) (t t' : Trace)
    (h : ptr) :
  Store.run ops σ t = Some (σ', t') ->
  (retains h t' + Store.owners h σ + releases h t =
   releases h t' + Store.owners h σ' + retains h t)%nat.
Proof.
  revert σ t. induction ops as [|op ops IH]; intros σ t Hrun; simpl in Hrun.
  - injection Hrun as -> ->. lia.
  - destruct (Store.step op σ) as [m|] eqn:Hstep; [|discriminate].
    destruct (m t) as [[σ1|e] t1] eqn:Hm; [|discriminate].
    pose proof (step_balance op σ σ1 m t t1 h Hstep Hm).
    pose proof (IH σ1 t1 Hrun). lia.
Qed.

(** C3, as stated, fails: a copy assignment of a wrapper to itself performs
    no retain; a move assignment of a wrapper to itself leaves it with its
    kind and its handle; a move assignment onto another wrapper of the same
    handle releases the handle; and over the sequence that copies the one
    wrapper of a handle and then destroys both wrappers, one retain is issued
    and two releases. *)
Lemma retains_equal_releases_counterexample :
  let v := Value.mk Value.Array 0%float false EmptyString 7%N in
  let σ : gmap Store.addr Value.t := {[ 0%nat := v ]} in
  Store.run [Store.CopyAssign 0%nat 0%nat] σ [] = Some (σ, []) /\
  Store.run [Store.MoveAssign 0%nat 0%nat] σ [] = Some (σ, []) /\
  Store.run [Store.CopyCtor 1%nat 0%nat; Store.MoveAssign 1%nat 0%nat] σ [] =
    Some (<[0%nat:=Value.Null_]> (<[1%nat:=v]> σ), [EvRetain 7%N; EvRelease 7%N]) /\
  Store.run [Store.CopyCtor 1%nat 0%nat; Store.Dtor 0%nat; Store.Dtor 1%nat] σ [] =
    Some (∅, [EvRetain 7%N; EvRelease 7%N; EvRelease 7%N]) /\
  retains 7%N [EvRetain 7%N; EvRelease 7%N; EvRelease 7%N] = 1%nat /\
  releases 7%N [EvRetain 7%N; EvRelease 7%N; EvRelease 7%N] = 2%nat.
Proof.
  repeat split; vm_compute; reflexivity.
Qed.

(** C3 (amended): for a wrapper [o] at [src] that holds the handle [h]:
    copy construction performs exactly one retain of [h]; copy assignment to
    another wrapper performs exactly one retain of [h], after the release of
    what the destination owned, and copy assignment to itself performs
    nothing; move construction performs no call and leaves the source in the
    Null state; move assignment to another wrapper performs no retain, only
    the release of what the destination owned, and leaves the source in the
    Null state, and move assignment to itself performs nothing and leaves the
    wrapper as it is; destruction performs exactly one release of [h].
    Consequently, over any sequence of copies, moves and destructions, for
    every handle the retains issued plus the wrappers that own it at the
    start equal the releases issued plus the wrappers that own it at the end:
    retains and releases are equal in number exactly when as many wrappers
    own the handle at the end as at the start, and once no wrapper owns it
    the releases are the retains plus the initial owners. *)
Theorem wrapper_refcount_balance (σ : gmap Store.addr Value.t) (dst src : Store.addr)
    (this o : Value.t) (t : Trace) :
  holds_handle o -> σ !! src = Some o ->
  let h := Value.handle o in
  (σ !! dst = None ->
     Store.run [Store.CopyCtor dst src] σ t = Some (<[dst:=o]> σ, t ++ [EvRetain h])) /\
  (σ !! dst = Some this -> dst <> src ->
     Store.run [Store.CopyAssign dst src] σ t =
       Some (<[dst:=o]> σ, t ++ dtor_events this ++ [EvRetain h])) /\
  Store.run [Store.CopyAssign src src] σ t = Some (σ, t) /\
  (σ !! dst = None ->
     exists o', Store.run [Store.MoveCtor dst src] σ t =
                  Some (<[src:=o']> (<[dst:=o]> σ), t) /\
                Value.kind o' = Value.Null /\ Value.handle o' = nullptr) /\
  (σ !! dst = Some this -> dst <> src ->
     exists o', Store.run [Store.MoveAssign dst src] σ t =
                  Some (<[src:=o']> (<[dst:=o]> σ), t ++ dtor_events this) /\
                Value.kind o' = Value.Null /\ Value.handle o' = nullptr) /\
  Store.run [Store.MoveAssign src src] σ t = Some (σ, t) /\
  Store.run [Store.Dtor src] σ t = Some (delete src σ, t ++ [EvRelease h]) /\
  (forall ops σ0 σ' t0 t' h',
     Store.run ops σ0 t0 = Some (σ', t') ->
     (retains h' t' + Store.owners h' σ0 + releases h' t0 =
      releases h' t' + Store.owners h' σ' + retains h' t0)%nat) /\
  (forall ops σ0 σ' t' h',
     Store.run ops σ0 [] = Some (σ', t') ->
     (retains h' t' = releases h' t' <-> Store.owners h' σ' = Store.owners h' σ0) /\
     (Store.owners h' σ' = 0%nat ->
      releases h' t' = (retains h' t' + Store.owners h' σ0)%nat)).
Proof.
  intros Ho Hs h.
  assert (Hd : dtor_events o = [EvRelease h])
    by (unfold dtor_events; rewrite (owns_holds o Ho); reflexivity).
  assert (Hc : copy_events o = [EvRetain h])
    by (unfold copy_events; rewrite (owns_holds o Ho); reflexivity).
  repeat apply conj.
  - intros Hdst. destruct (step_CopyCtor σ dst src o t Hdst Hs) as (m & Hm & Hr).
    cbn [Store.run]. rewrite Hm, Hr, Hc. reflexivity.
  - intros Hdst Hne. destruct (step_CopyAssign σ dst src this o t Hdst Hs) as (m & Hm & Hr).
    cbn [Store.run]. rewrite Hm, Hr, Hc. rewrite decide_False by exact Hne. reflexivity.
  - destruct (step_CopyAssign σ src src o o t Hs Hs) as (m & Hm & Hr).
    cbn [Store.run]. rewrite Hm, Hr. rewrite decide_True by reflexivity. reflexivity.
  - intros Hdst. destruct (step_MoveCtor σ dst src o t Hdst Hs) as (m & Hm & Hr).
    eexists. cbn [Store.run]. rewrite Hm, Hr. repeat split.
  - intros Hdst Hne. destruct (step_MoveAssign σ dst src this o t Hdst Hs) as (m & Hm & Hr).
    eexists. cbn [Store.run]. rewrite Hm, Hr. rewrite decide_False by exact Hne.
    repeat split.
  - destruct (step_MoveAssign σ src src o o t Hs Hs) as (m & Hm & Hr).
    cbn [Store.run]. rewrite Hm, Hr. rewrite decide_True by reflexivity. reflexivity.
  - destruct (step_Dtor σ src o t Hs) as (m & Hm & Hr).
    cbn [Store.run]. rewrite Hm, Hr, Hd. reflexivity.
  - intros ops σ0 σ' t0 t' h' Hrun. exact (run_balance ops σ0 σ' t0 t' h' Hrun).
  - intros ops σ0 σ' t' h' Hrun.
    pose proof (run_balance ops σ0 σ' [] t' h' Hrun) as Hb.
    change (retains h' []) with 0%nat in Hb. change (releases h' []) with 0%nat in Hb.
    split; [split; lia | lia].
Qed.

Lemma wrapper_refcount_balance_witness :
  let v := Value.mk Value.Array 0%float false EmptyString 7%N in
  let w := Value.mk Value.Object 0%float false EmptyString 9%N in
  let σ : gmap Store.addr Value.t := {[ 0%nat := v; 2%nat := w ]} in
  Store.run [Store.CopyCtor 1%nat 0%nat] σ [] = Some (<[1%nat:=v]> σ, [EvRetain 7%N]) /\
  Store.run [Store.CopyAssign 2%nat 0%nat] σ [] =
    Some (<[2%nat:=v]> σ, [EvRelease 9%N; EvRetain 7%N]) /\
  (exists o', Store.run [Store.MoveAssign 2%nat 0%nat] σ [] =
                Some (<[0%nat:=o']> (<[2%nat:=v]> σ), [EvRelease 9%N]) /\
              Value.kind o' = Value.Null /\ Value.handle o' = nullptr) /\
  Store.run [Store.Dtor 0%nat] σ [] = Some (delete 0%nat σ, [EvRelease 7%N]) /\
  releases 7%N [EvRetain 7%N; EvRelease 7%N; EvRelease 7%N] =
    (retains 7%N [EvRetain 7%N; EvRelease 7%N; EvRelease 7%N] + Store.owners 7%N σ)%nat.
Proof.
  intros v w σ.
  assert (Hv : holds_handle v) by (split; [reflexivity | discriminate]).
  assert (Hs : σ !! 0%nat = Some v) by (vm_compute; reflexivity).
  destruct (wrapper_refcount_balance σ 1%nat 0%nat w v [] Hv Hs)
    as (Hcopy & _ & _ & _ & _ & _ & Hdtor & _ & Hlife).
  destruct (wrapper_refcount_balance σ 2%nat 0%nat w v [] Hv Hs)
    as (_ & Hassign & _ & _ & Hmove & _ & _ & _ & _).
  split; [apply Hcopy; vm_compute; reflexivity|].
  split; [apply Hassign; [vm_compute; reflexivity | lia]|].
  split; [apply Hmove; [vm_compute; reflexivity | lia]|].
  split; [exact Hdtor|].
  apply (Hlife [Store.CopyCtor 1%nat 0%nat; Store.Dtor 0%nat; Store.Dtor 1%nat]
           σ {[ 2%nat := w ]}); vm_compute; reflexivity.
Defined.

(** ** The key-enumeration parser *)

Lemma skipws_length (s : string) : (String.length (skipws s) <= String.length s)%nat.
Proof.
  induction s as [|c s IH]; simpl; [lia|].
  destruct (is_ws c); simpl; lia.
Qed.

Lemma advance_length (c : ascii) (s : string) :
  at_char c s = true -> (String.length (advance s) < String.length s)%nat.
Proof. destruct s; simpl; [discriminate | lia]. Qed.

(** The inner loop only moves forward. *)
Lemma scan_string_length (s cur : string) :
  (String.length (snd (scan_string s cur)) <= String.length s)%nat.
Proof.
  remember (String.length s) as n eqn:Hn.
  assert (Hle : (String.length s <= n)%nat) by lia. clear Hn.
  revert s cur Hle. induction n as [n IH] using lt_wf_ind. intros s cur Hle.
  destruct s as [|c s]; cbn [scan_string snd String.length] in *; [lia|].
  destruct (Ascii.eqb c ch_dquote); cbn [snd]; [lia|].
  destruct (Ascii.eqb c ch_backslash).
  - destruct s as [|e s]; cbn [scan_string snd String.length] in *; [lia|].
    pose proof (IH (String.length s) ltac:(lia) s (push_back cur (unescape e)) ltac:(lia)).
    lia.
  - pose proof (IH (String.length s) ltac:(lia) s (push_back cur c) ltac:(lia)). lia.
Qed.

(** The outer loop returns when the fuel exceeds the length of the text. *)
Lemma keys_loop_enough (fuel : nat) (s : string) (res : list string) :
  (String.length s < fuel)%nat -> exists r, keys_loop fuel s res = Some r.
Proof.
  revert s res. induction fuel as [|fuel IH]; intros s res Hlt; [lia|].
  cbn [keys_loop]. destruct s as [|c0 s0]; [eauto|].
  set (s := String c0 s0) in *.
  destruct (at_char "]" (skipws s)); [eauto|].
  destruct (at_char ch_dquote (skipws s)) eqn:Hq; cbn [negb]; [|eauto].
  pose proof (skipws_length s) as H1.
  pose proof (advance_length _ _ Hq) as H2.
  pose proof (scan_string_length (advance (skipws s)) EmptyString) as H3.
  destruct (scan_string (advance (skipws s)) EmptyString) as [cur s3]. cbn [snd] in H3.
  pose proof (skipws_length s3) as H4.
  destruct (at_char "," (skipws s3)) eqn:Hc.
  - pose proof (advance_length _ _ Hc). apply IH. lia.
  - pose proof (skipws_length (skipws s3)) as H5.
    destruct (at_char "]" (skipws (skipws s3))); [eauto|].
    apply IH. lia.
Qed.

(** More fuel does not change the result. *)
Lemma keys_loop_more (fuel fuel' : nat) (s : string) (res r : list string) :
  keys_loop fuel s res = Some r -> (fuel <= fuel')%nat -> keys_loop fuel' s res = Some r.
Proof.
  revert fuel' s res. induction fuel as [|fuel IH]; intros fuel' s res Hr Hle;
    [discriminate|].
  destruct fuel' as [|fuel']; [lia|].
  cbn [keys_loop] in *. destruct s as [|c0 s0]; [exact Hr|].
  destruct (at_char "]" (skipws (String c0 s0))); [exact Hr|].
  destruct (negb (at_char ch_dquote (skipws (String c0 s0)))); [exact Hr|].
  destruct (scan_string (advance (skipws (String c0 s0))) EmptyString) as [cur s3].
  destruct (at_char "," (skipws s3)); [apply IH; [exact Hr | lia]|].
  destruct (at_char "]" (skipws (skipws s3))); [exact Hr|].
  apply IH; [exact Hr | lia].
Qed.

Lemma parse_keys_fuel_enough (fuel : nat) (s : string) :
  (String.length s < fuel)%nat -> parse_keys_fuel fuel s = Some (parse_keys s).
Proof.
  intros Hlt. unfold parse_keys.
  assert (Hex : forall f, (String.length s < f)%nat -> exists r, parse_keys_fuel f s = Some r).
  { intros f Hf. unfold parse_keys_fuel.
    destruct (negb (at_char "[" (skipws s))) eqn:Hb; [eauto|].
    apply keys_loop_enough.
    pose proof (skipws_length s). pose proof (skipws_length (advance (skipws s))).
    apply negb_false_iff in Hb. pose proof (advance_length _ _ Hb). lia. }
  destruct (Hex (S (String.length s)) ltac:(lia)) as (r & Hr).
  rewrite Hr. simpl. destruct (Hex fuel Hlt) as (r' & Hr'). rewrite Hr'.
  unfold parse_keys_fuel in *.
  destruct (negb (at_char "[" (skipws s))); [congruence|].
  destruct (Nat.le_ge_cases fuel (S (String.length s))) as [Hle|Hle].
  - rewrite (keys_loop_more _ _ _ _ _ Hr' Hle) in Hr. exact Hr.
  - rewrite (keys_loop_more _ _ _ _ _ Hr Hle) in Hr'. congruence.
Qed.

Lemma append_cons (c : ascii) (s s' : string) :
  (String c s +:+ s' = String c (s +:+ s'))%string.
Proof. reflexivity. Qed.

Lemma append_push_back (cur : string) (c : ascii) (s : string) :
  (push_back cur c +:+ s = cur +:+ String c s)%string.
Proof.
  unfold push_back. induction cur as [|a cur IH]; [reflexivity|].
  rewrite !append_cons, IH. reflexivity.
Qed.

Lemma append_empty_r (s : string) : (s +:+ EmptyString = s)%string.
Proof. induction s as [|a s IH]; [reflexivity|]. rewrite append_cons, IH. reflexivity. Qed.

Lemma scan_string_plain (pre rest cur : string) :
  plain pre = true ->
  scan_string (pre +:+ rest) cur = scan_string rest (cur +:+ pre).
Proof.
  revert cur. induction pre as [|c pre IH]; intros cur Hp.
  - rewrite append_empty_r. reflexivity.
  - cbn [plain] in Hp. apply andb_true_iff in Hp as [Hc Hp].
    apply andb_true_iff in Hc as [Hq Hb].
    apply negb_true_iff in Hq, Hb.
    rewrite append_cons. cbn [scan_string]. rewrite Hq, Hb.
    rewrite IH by exact Hp. rewrite append_push_back. reflexivity.
Qed.

Lemma scan_string_escape (e : ascii) (rest cur : string) :
  scan_string (String ch_backslash (String e rest)) cur =
  scan_string rest (push_back cur (unescape e)).
Proof. reflexivity. Qed.

Lemma scan_string_quote (rest cur : string) :
  scan_string (String ch_dquote rest) cur = (cur, rest).
Proof. reflexivity. Qed.

Lemma parse_keys_one_key (pre post : string) (e : ascii) :
  plain pre = true -> plain post = true ->
  parse_keys (one_key_text pre e post) = [(pre +:+ String (unescape e) post)%string].
Proof.
  intros Hpre Hpost. unfold parse_keys, parse_keys_fuel, one_key_text.
  cbn [skipws]. change (is_ws "[") with false. cbv iota.
  cbn [at_char advance]. change (Ascii.eqb "[" "[") with true.
  cbn [negb skipws]. change (is_ws ch_dquote) with false. cbv iota.
  cbn [String.length keys_loop skipws]. change (is_ws ch_dquote) with false. cbv iota.
  cbn [at_char advance]. change (Ascii.eqb ch_dquote "]") with false.
  change (Ascii.eqb ch_dquote ch_dquote) with true. cbn [negb].
  rewrite scan_string_plain by exact Hpre.
  rewrite scan_string_escape, scan_string_plain by exact Hpost.
  rewrite scan_string_quote. rewrite append_push_back. reflexivity.
Qed.

Lemma unescape_other (e : ascii) :
  e <> ch_backslash -> e <> ch_dquote -> e <> "n"%char -> e <> "r"%char -> e <> "t"%char ->
  unescape e = e.
Proof.
  intros H1 H2 H3 H4 H5. unfold unescape.
  repeat match goal with
         | |- context [Ascii.eqb e ?c] =>
             destruct (Ascii.eqb_spec e c) as [|_]; [contradiction|]
         end.
  reflexivity.
Qed.

Lemma keys_run (rt : Runtime) (o : Object.t) (t : Trace) :
  Object.keys rt o t =
  if N.eqb (Object.handle o) nullptr then (Ok [], t)
  else match rt_object_keys rt t (Object.handle o) with
       | None => (Ok [], t ++ [EvObjectKeys (Object.handle o)])
       | Some j => (Ok (parse_keys (c_str j)), t ++ [EvObjectKeys (Object.handle o); EvFree])
       end.
Proof.
  unfold Object.keys. destruct (N.eqb (Object.handle o) nullptr); [reflexivity|].
  unfold_m. destruct (rt_object_keys rt t (Object.handle o)); [|reflexivity].
  rewrite <- app_assoc. reflexivity.
Qed.

(** C4: the parser of [Object::keys] decodes backslash-backslash,
    backslash-quote, backslash-n, backslash-r and backslash-t to backslash,
    double quote, newline, carriage return and tab, and any other escape to
    its trailing character, wherever the escape stands in a key; the text
    of the example (the keys a, b backslash n, c backslash quote, each in
    double quotes, in brackets) gives a, b<newline>, c<quote>; a lone bracket, an
    unterminated string or a missing opening bracket give an empty or partial
    sequence; and on every text the parser returns (the loop ends within as
    many iterations as the text has characters) and [keys] raises no
    failure. *)
Theorem keys_parser (rt : Runtime) (o : Object.t) (t : Trace) :
  (unescape ch_backslash = ch_backslash /\ unescape ch_dquote = ch_dquote /\
   unescape "n" = ch_lf /\ unescape "r" = ch_cr /\ unescape "t" = ch_tab) /\
  (forall e, e <> ch_backslash -> e <> ch_dquote -> e <> "n"%char -> e <> "r"%char ->
             e <> "t"%char -> unescape e = e) /\
  (forall pre post e, plain pre = true -> plain post = true ->
     parse_keys (one_key_text pre e post) = [(pre +:+ String (unescape e) post)%string]) /\
  parse_keys (with_dquotes "['a','b\n','c\'']") =
    ["a"%string; String "b" (String ch_lf EmptyString);
     String "c" (String ch_dquote EmptyString)] /\
  parse_keys "[" = [] /\
  parse_keys (with_dquotes "['ab") = ["ab"%string] /\
  parse_keys (with_dquotes "['a','b") = ["a"%string; "b"%string] /\
  parse_keys (with_dquotes "'a']") = [] /\
  (forall s fuel, (String.length s < fuel)%nat ->
     parse_keys_fuel fuel s = Some (parse_keys s)) /\
  (exists ks t', Object.keys rt o t = (Ok ks, t')) /\
  (forall j, Object.handle o <> nullptr ->
     rt_object_keys rt t (Object.handle o) = Some j ->
     Object.keys rt o t =
       (Ok (parse_keys (c_str j)), t ++ [EvObjectKeys (Object.handle o); EvFree])).
Proof.
  split; [repeat split|].
  split; [exact unescape_other|].
  split; [exact parse_keys_one_key|].
  do 5 (split; [vm_compute; reflexivity|]).
  split; [intros s fuel; apply parse_keys_fuel_enough|].
  rewrite keys_run. split.
  - destruct (N.eqb (Object.handle o) nullptr); [eauto|].
    destruct (rt_object_keys rt t (Object.handle o)); eauto.
  - intros j Hh Hj. destruct (N.eqb_spec (Object.handle o) nullptr) as [|_]; [contradiction|].
    rewrite Hj. reflexivity.
Qed.

Lemma keys_parser_witness :
  let rt := example_runtime true (Some (with_dquotes "['a','b\n','c\'']")) in
  let o := {| Object._v := Value.mk Value.Object 0%float false EmptyString 7%N |} in
  parse_keys (one_key_text "x" "t" "y") = [String "x" (String ch_tab "y")] /\
  parse_keys (one_key_text "x" "q" "y") = ["xqy"%string] /\
  parse_keys_fuel 3 "[ " = Some [] /\
  Object.keys rt o [] =
    (Ok ["a"%string; String "b" (String ch_lf EmptyString);
         String "c" (String ch_dquote EmptyString)],
     [EvObjectKeys 7%N; EvFree]).
Proof.
  intros rt o.
  destruct (keys_parser rt o []) as (_ & Hother & Hkey & _ & _ & _ & _ & _ & Hfuel & _ & Hkeys).
  split; [apply (Hkey "x"%string "y"%string "t"%char); reflexivity|].
  split.
  - replace ["xqy"%string] with [("x" +:+ String (unescape "q") "y")%string].
    + apply (Hkey "x"%string "y"%string "q"%char); reflexivity.
    + rewrite (Hother "q"%char) by discriminate. reflexivity.
  - split; [apply (Hfuel "[ "%string 3%nat); simpl; lia|].
    apply (Hkeys (with_dquotes "['a','b\n','c\'']")); [discriminate | reflexivity].
Defined.

(** * Further properties *)

(** ** Round trip through the boundary form *)

Lemma c_str_idem (s : string) : c_str (c_str s) = c_str s.
Proof.
  induction s as [|c s IH]; [reflexivity|]. cbn [c_str].
  destruct (Ascii.eqb c Ascii.zero) eqn:Hc; [reflexivity|].
  cbn [c_str]. rewrite Hc, IH. reflexivity.
Qed.

(** X1: converting a Null, Number, Bool or String value to the boundary form
    with [valueToNativeArg] and back with [fromNative] gives the value again,
    makes no call and leaves no temporary to free; of a String the text up to
    its first NUL byte comes back, which is the whole text when it holds no
    NUL. *)
Theorem primitive_round_trip (n : float) (b : bool) (s : string) (retainHandle : bool)
    (t : Trace) :
  Value.fromNative (fst (Engine.valueToNativeArg Value.Null_)) retainHandle t =
    (Ok Value.Null_, t) /\
  Value.fromNative (fst (Engine.valueToNativeArg (Value.Number_ n))) retainHandle t =
    (Ok (Value.Number_ n), t) /\
  Value.fromNative (fst (Engine.valueToNativeArg (Value.Bool_ b))) retainHandle t =
    (Ok (Value.Bool_ b), t) /\
  Value.fromNative (fst (Engine.valueToNativeArg (Value.String_ s))) retainHandle t =
    (Ok (Value.String_ (c_str s)), t) /\
  (c_str s = s ->
   Value.fromNative (fst (Engine.valueToNativeArg (Value.String_ s))) retainHandle t =
     (Ok (Value.String_ s), t)) /\
  (forall v, snd (Engine.valueToNativeArg v) = None).
Proof.
  split; [reflexivity|]. split; [reflexivity|].
  split; [destruct b; reflexivity|]. split; [reflexivity|].
  split.
  - intros Hs. cbn. rewrite Hs. reflexivity.
  - intros v. unfold Engine.valueToNativeArg. destruct (Value.kind v); reflexivity.
Qed.

Lemma primitive_round_trip_witness :
  Value.fromNative (fst (Engine.valueToNativeArg (Value.String_ "key"))) false [] =
    (Ok (Value.String_ "key"), []).
Proof.
  apply (primitive_round_trip 0%float false "key" false []). reflexivity.
Defined.

(** X2: for every wrapper, whatever its fields, the round trip through the
    boundary form keeps what can be observed of it: the kind, the results of
    [toNumber] and [toBool] for every default, the text up to its first NUL
    for a String, and the handle for a handle kind; without [retainHandle] no
    call is made, and with it the only call is one retain of a handle that is
    there. *)
Theorem value_round_trip_observable (v : Value.t) (t : Trace) :
  exists w,
    Value.fromNative (fst (Engine.valueToNativeArg v)) false t = (Ok w, t) /\
    Value.fromNative (fst (Engine.valueToNativeArg v)) true t = (Ok w, t ++ copy_events w) /\
    Value.kind w = Value.kind v /\
    (forall def, Value.toNumber w def = Value.toNumber v def) /\
    (forall def, Value.toBool w def = Value.toBool v def) /\
    (Value.kind v = Value.String -> Value.toStringRef w = c_str (Value.toStringRef v)) /\
    (Value.isHandleKind v = true -> Value.handle w = Value.handle v) /\
    Value.owns w = Value.owns v.
Proof.
  destruct v as [k n b s h].
  assert (Hprim : forall w : Value.t,
            Value.owns w = false -> (Ok w, t) = (Ok w, t ++ copy_events w) :> Outcome _ * _).
  { intros w Hw. unfold copy_events. rewrite Hw, app_nil_r. reflexivity. }
  destruct k;
    [ exists Value.Null_ | exists (Value.Number_ n) | exists (Value.Bool_ b)
    | exists (Value.String_ (c_str s))
    | exists (Value.mk Value.Array 0%float false EmptyString h)
    | exists (Value.mk Value.Object 0%float false EmptyString h)
    | exists (Value.mk Value.Function 0%float false EmptyString h)
    | exists (Value.mk Value.Class 0%float false EmptyString h)
    | exists (Value.mk Value.Task 0%float false EmptyString h) ];
    (split; [try reflexivity; destruct b; reflexivity|]);
    (split;
     [ first [ apply Hprim; reflexivity
             | destruct b; apply Hprim; reflexivity
             | unfold Value.fromNative, Value.Handle, copy_events, Value.owns; cbn;
               destruct (N.eqb h nullptr); cbn; rewrite ?app_nil_r; reflexivity ]
     |]);
    (split; [reflexivity|]);
    (split; [intros; try reflexivity; destruct b; reflexivity|]);
    (split; [intros; try reflexivity; destruct b; reflexivity|]);
    (split; [intros; try reflexivity; discriminate|]);
    (split; [intros; try reflexivity; discriminate|]);
    unfold Value.owns; cbn; rewrite ?andb_false_r, ?andb_true_r; reflexivity.
Qed.

Lemma value_round_trip_observable_witness :
  exists w,
    Value.fromNative
      (fst (Engine.valueToNativeArg
              (Value.mk Value.String 1.5%float true (String "a" (String Ascii.zero "b")) 7%N)))
      false [] = (Ok w, []) /\
    Value.toStringRef w = "a"%string.
Proof.
  destruct (value_round_trip_observable
              (Value.mk Value.String 1.5%float true (String "a" (String Ascii.zero "b")) 7%N)
              []) as (w & Hw & _ & _ & _ & _ & Hs & _).
  exists w. split; [exact Hw | apply Hs; reflexivity].
Defined.

(** ** Reads and writes through the views *)

Lemma fromNative_no_retain (nv : minijs_value) :
  exists v, forall t, Value.fromNative nv false t = (Ok v, t).
Proof.
  unfold Value.fromNative, Value.Handle.
  repeat (match goal with |- context [Z.eqb ?a ?b] => destruct (Z.eqb a b) end;
          [eexists; intros t; reflexivity |]).
  eexists; intros t; reflexivity.
Qed.

Lemma fromNative_handle_kind (nv : minijs_value) (v : Value.t) (t t' : Trace) :
  4 <= nv_kind nv <= 8 -> nv_handle nv <> nullptr ->
  Value.fromNative nv false t = (Ok v, t') ->
  holds_handle v /\ Value.handle v = nv_handle nv /\
  Value.Kind_to_int (Value.kind v) = nv_kind nv.
Proof.
  intros Hk Hh. unfold Value.fromNative, Value.Handle. unfold_m. cbn [andb].
  repeat (match goal with |- context [Z.eqb ?a ?b] => destruct (Z.eqb_spec a b) end;
          [try lia; intros [= <- _]; repeat split; cbn;
           unfold MINIJS_ARRAY, MINIJS_OBJECT, MINIJS_FUNCTION, MINIJS_CLASS, MINIJS_TASK;
           first [assumption | congruence] |]).
  lia.
Qed.

Lemma read_out_run (out : minijs_value) (t : Trace) :
  exists v,
    (forall t0, Value.fromNative out false t0 = (Ok v, t0)) /\
    read_out out t =
      (Ok v, t ++ if (nv_kind out =? MINIJS_STRING) && bool_decide (nv_str out <> None)
                  then [EvFree] else []).
Proof.
  destruct (fromNative_no_retain out) as (v & Hv). exists v. split; [exact Hv|].
  unfold read_out. erewrite bind_ok by apply Hv.
  destruct (_ && _); unfold_m; rewrite ?app_nil_r; reflexivity.
Qed.

(** X3: [Object::get] and [Array::get] on a view that holds a handle never
    fail and never retain or release: they make the one read call, decode
    what the runtime wrote with [fromNative] without retaining, and free the
    text exactly when the result is of String kind with a non-null text.  A
    handle that comes back is adopted as it is: the wrapper returned owns it,
    so that its destruction releases it once. *)
Theorem read_accessors_adopt (rt : Runtime) (o : Object.t) (a : Array.t) (key : string)
    (index : Z) (t : Trace) :
  Object.handle o <> nullptr -> Array.handle a <> nullptr ->
  let oget := EvObjectGet (Object.handle o) (c_str key) in
  let aget := EvArrayGet (Array.handle a) index in
  let oout := rt_object_get rt t (Object.handle o) (c_str key) in
  let aout := rt_array_get rt t (Array.handle a) index in
  let frees (out : minijs_value) : Trace :=
    if (nv_kind out =? MINIJS_STRING) && bool_decide (nv_str out <> None)
    then [EvFree] else [] in
  (exists v,
     Object.get rt o key t = (Ok v, t ++ oget :: frees oout) /\
     (forall t0, Value.fromNative oout false t0 = (Ok v, t0)) /\
     (4 <= nv_kind oout <= 8 -> nv_handle oout <> nullptr ->
      Value.handle v = nv_handle oout /\
      forall t', Value.dtor v t' = (Ok tt, t' ++ [EvRelease (nv_handle oout)]))) /\
  (exists v,
     Array.get rt a index t = (Ok v, t ++ aget :: frees aout) /\
     (forall t0, Value.fromNative aout false t0 = (Ok v, t0)) /\
     (4 <= nv_kind aout <= 8 -> nv_handle aout <> nullptr ->
      Value.handle v = nv_handle aout /\
      forall t', Value.dtor v t' = (Ok tt, t' ++ [EvRelease (nv_handle aout)]))).
Proof.
  intros Ho Ha. cbv zeta.
  assert (Hadopt : forall out v,
            (forall t0, Value.fromNative out false t0 = (Ok v, t0)) ->
            4 <= nv_kind out <= 8 -> nv_handle out <> nullptr ->
            Value.handle v = nv_handle out /\
            forall t', Value.dtor v t' = (Ok tt, t' ++ [EvRelease (nv_handle out)])).
  { intros out v Hv Hk Hh.
    destruct (fromNative_handle_kind out v [] [] Hk Hh (Hv [])) as (Hholds & Hhandle & _).
    split; [exact Hhandle|]. intros t'. rewrite dtor_run. unfold dtor_events.
    rewrite (owns_holds v Hholds). unfold Value.handle in Hhandle. rewrite Hhandle.
    reflexivity. }
  split.
  - destruct (read_out_run (rt_object_get rt t (Object.handle o) (c_str key))
                (t ++ [EvObjectGet (Object.handle o) (c_str key)])) as (v & Hv & Hrun).
    exists v. split; [|split; [exact Hv | apply Hadopt; exact Hv]].
    unfold Object.get. destruct (N.eqb_spec (Object.handle o) nullptr) as [|_]; [contradiction|].
    unfold call. unfold mbind, M_bind, bind. rewrite Hrun.
    rewrite <- app_assoc. reflexivity.
  - destruct (read_out_run (rt_array_get rt t (Array.handle a) index)
                (t ++ [EvArrayGet (Array.handle a) index])) as (v & Hv & Hrun).
    exists v. split; [|split; [exact Hv | apply Hadopt; exact Hv]].
    unfold Array.get. destruct (N.eqb_spec (Array.handle a) nullptr) as [|_]; [contradiction|].
    unfold call. unfold mbind, M_bind, bind. rewrite Hrun.
    rewrite <- app_assoc. reflexivity.
Qed.

Lemma read_accessors_adopt_witness :
  let rt := {| rt_malloc_ok := fun _ _ => true; rt_object_has := fun _ _ _ => 1;
               rt_object_get := fun _ _ _ => mk_minijs_value MINIJS_ARRAY 0%float 0 None 9%N;
               rt_object_keys := fun _ _ => None; rt_array_length := fun _ _ => 1;
               rt_array_get := fun _ _ _ =>
                                 mk_minijs_value MINIJS_STRING 0%float 0 (Some "s"%string)
                                   nullptr |} in
  let o := {| Object._v := Value.mk Value.Object 0%float false EmptyString 7%N |} in
  let a := {| Array._v := Value.mk Value.Array 0%float false EmptyString 8%N |} in
  (exists v, Object.get rt o "k" [] = (Ok v, [EvObjectGet 7%N "k"]) /\
             forall t', Value.dtor v t' = (Ok tt, t' ++ [EvRelease 9%N])) /\
  (exists v, Array.get rt a 0 [] = (Ok v, [EvArrayGet 8%N 0; EvFree])).
Proof.
  intros rt o a.
  destruct (read_accessors_adopt rt o a "k" 0 []) as [(v & Hget & _ & Hown) (w & Haget & _)];
    [discriminate | discriminate |].
  split.
  - exists v. split; [exact Hget|]. apply Hown; [simpl; unfold MINIJS_ARRAY; lia | discriminate].
  - exists w. exact Haget.
Defined.

(** X4: [Object::set], [Array::set] and [Array::push] on a view that holds a
    handle borrow the value: each makes exactly one call, the write, with the
    boundary form of the value; none retains, releases or frees anything
    (the temporary string of [valueToNativeArg] is never set), so a handle
    written into a container stays owned by the caller's wrapper. *)
Theorem container_writes_borrow (o : Object.t) (a : Array.t) (e : Engine.t) (key : string)
    (index : Z) (v : Value.t) (t : Trace) :
  Object.handle o <> nullptr -> Array.handle a <> nullptr ->
  Object.set o e key v t =
    (Ok tt, t ++ [EvObjectSet (Object.handle o) (c_str key) (fst (Engine.valueToNativeArg v))]) /\
  Array.set a e index v t =
    (Ok tt, t ++ [EvArraySet (Array.handle a) index (fst (Engine.valueToNativeArg v))]) /\
  Array.push a e v t =
    (Ok tt, t ++ [EvArrayPush (Array.handle a) (fst (Engine.valueToNativeArg v))]) /\
  nv_kind (fst (Engine.valueToNativeArg v)) = Value.Kind_to_int (Value.kind v) /\
  (Value.isHandleKind v = true ->
   nv_handle (fst (Engine.valueToNativeArg v)) = Value.handle v).
Proof.
  intros Ho Ha. unfold Object.set, Array.set, Array.push.
  destruct (N.eqb_spec (Object.handle o) nullptr) as [|_]; [contradiction|].
  destruct (N.eqb_spec (Array.handle a) nullptr) as [|_]; [contradiction|].
  assert (Htmp : snd (Engine.valueToNativeArg v) = None)
    by (unfold Engine.valueToNativeArg; destruct (Value.kind v); reflexivity).
  destruct (Engine.valueToNativeArg v) as [nv tmp] eqn:Hnv. cbn [fst snd] in *. subst tmp.
  repeat split; try (unfold_m; cbn; rewrite ?app_nil_r; reflexivity).
  - unfold Engine.valueToNativeArg in Hnv.
    destruct (Value.kind v); injection Hnv as <-; reflexivity.
  - unfold Engine.valueToNativeArg, Value.isHandleKind, Value.kind in *.
    destruct (Value._kind v); injection Hnv as <-; (discriminate || reflexivity).
Qed.

Lemma container_writes_borrow_witness :
  Array.push {| Array._v := Value.mk Value.Array 0%float false EmptyString 8%N |}
    {| Engine._it := 1%N; Engine._bindings := [] |}
    (Value.mk Value.Object 0%float false EmptyString 7%N) [] =
  (Ok tt, [EvArrayPush 8%N (mk_minijs_value MINIJS_OBJECT 0%float 0 None 7%N)]).
Proof.
  destruct (container_writes_borrow
              {| Object._v := Value.mk Value.Object 0%float false EmptyString 7%N |}
              {| Array._v := Value.mk Value.Array 0%float false EmptyString 8%N |}
              {| Engine._it := 1%N; Engine._bindings := [] |} "k" 0
              (Value.mk Value.Object 0%float false EmptyString 7%N) [])
    as (_ & _ & Hpush & _); [discriminate | discriminate |].
  exact Hpush.
Defined.

(** X5: constructing a view takes the reference of the value it is given:
    when the kind matches, the view wraps the value as it is and no call is
    made; when it does not, the failure is raised after the member has been
    destroyed, so the handle the value held is released exactly once and is
    no longer the caller's. *)
Theorem view_ctor_takes_reference (v : Value.t) (t : Trace) :
  (Value.kind v = Value.Object -> Object.ctor v t = (Ok {| Object._v := v |}, t)) /\
  (Value.kind v = Value.Array -> Array.ctor v t = (Ok {| Array._v := v |}, t)) /\
  (Value.kind v = Value.Function -> Function.ctor v t = (Ok {| Function._v := v |}, t)) /\
  (Value.kind v = Value.Class -> Class.ctor v t = (Ok {| Class._v := v |}, t)) /\
  (holds_handle v ->
   (Value.kind v <> Value.Object ->
    Object.ctor v t = (Throw (runtime_error "Object: Value is not an object"),
                       t ++ [EvRelease (Value.handle v)])) /\
   (Value.kind v <> Value.Array ->
    Array.ctor v t = (Throw (runtime_error "Array: Value is not an array"),
                      t ++ [EvRelease (Value.handle v)])) /\
   (Value.kind v <> Value.Function ->
    Function.ctor v t = (Throw (runtime_error "Function: Value is not a function"),
                         t ++ [EvRelease (Value.handle v)])) /\
   (Value.kind v <> Value.Class ->
    Class.ctor v t = (Throw (runtime_error "Class: Value is not a class"),
                      t ++ [EvRelease (Value.handle v)]))).
Proof.
  unfold Object.ctor, Array.ctor, Function.ctor, Class.ctor.
  repeat apply conj;
    try (intros Hk; destruct v as [k n b s h]; cbn in Hk; subst k; reflexivity).
  intros Hv.
  assert (Hd : dtor_events v = [EvRelease (Value.handle v)])
    by (unfold dtor_events; rewrite (owns_holds v Hv); reflexivity).
  repeat apply conj; intros Hk;
    (erewrite bind_throw; [reflexivity | rewrite <- Hd; apply view_ctor_mismatch; exact Hk]).
Qed.

Lemma view_ctor_takes_reference_witness :
  Array.ctor (Value.mk Value.Array 0%float false EmptyString 7%N) [] =
    (Ok {| Array._v := Value.mk Value.Array 0%float false EmptyString 7%N |}, []) /\
  Array.ctor (Value.mk Value.Object 0%float false EmptyString 7%N) [] =
    (Throw (runtime_error "Array: Value is not an array"), [EvRelease 7%N]).
Proof.
  destruct (view_ctor_takes_reference
              (Value.mk Value.Array 0%float false EmptyString 7%N) [])
    as (_ & Hok & _).
  destruct (view_ctor_takes_reference
              (Value.mk Value.Object 0%float false EmptyString 7%N) [])
    as (_ & _ & _ & _ & Hbad).
  split; [apply Hok; reflexivity|].
  destruct Hbad as (_ & Harr & _); [split; [reflexivity | discriminate]|].
  apply Harr. discriminate.
Defined.

(** ** The trampoline around the closure *)

Lemma ok_pair_eq {A} (a v : A) (t t' : Trace) :
  a = v -> t = t' -> (Ok a, t) = (Ok v, t').
Proof. intros -> ->. reflexivity. Qed.

Lemma fromNative_retain_run (nv : minijs_value) (t : Trace) :
  exists v, Value.fromNative nv true t = (Ok v, t ++ copy_events v).
Proof.
  unfold Value.fromNative, Value.Handle.
  repeat (match goal with |- context [Z.eqb ?a ?b] => destruct (Z.eqb a b) end;
          [unfold_m; cbn [andb]; destruct (N.eqb (nv_handle nv) nullptr) eqn:Hh; cbn [negb];
           (eexists; apply ok_pair_eq;
            [reflexivity
            | unfold copy_events, Value.owns; cbn; rewrite ?Hh; cbn;
              rewrite ?app_nil_r; reflexivity]) |]).
  unfold_m. eexists. apply ok_pair_eq; [reflexivity | cbn; rewrite app_nil_r; reflexivity].
Qed.

Lemma convert_args_run (argv : list minijs_value) (t : Trace) :
  exists args,
    Engine.convert_args argv t = (Ok args, t ++ flat_map copy_events args) /\
    length args = length argv.
Proof.
  revert t. induction argv as [|nv argv IH]; intros t; cbn [Engine.convert_args].
  - exists []. cbn. rewrite app_nil_r. split; reflexivity.
  - destruct (fromNative_retain_run nv t) as (a & Ha).
    destruct (IH (t ++ copy_events a)) as (args & Hargs & Hlen).
    exists (a :: args). erewrite bind_ok by exact Ha. erewrite bind_ok by exact Hargs.
    cbn. rewrite <- app_assoc, Hlen. split; reflexivity.
Qed.

Lemma convert_this_run (thisVal : option minijs_value) (t : Trace) :
  exists tv, Engine.convert_this thisVal t = (Ok tv, t ++ copy_events tv).
Proof.
  destruct thisVal as [nv|]; cbn [Engine.convert_this].
  - destruct (fromNative_retain_run nv t) as (a & Ha). exists a.
    erewrite bind_ok by exact Ha.
    erewrite bind_ok by apply move_assign_distinct_run.
    cbv beta iota. erewrite bind_ok by apply dtor_run.
    cbn. rewrite !app_nil_r. reflexivity.
  - exists Value.Null_. cbn. rewrite app_nil_r. reflexivity.
Qed.

Lemma flat_map_events_count (h : ptr) (l : list Value.t) :
  retains h (flat_map copy_events l) = releases h (flat_map dtor_events l) /\
  releases h (flat_map copy_events l) = 0%nat /\
  retains h (flat_map dtor_events l) = 0%nat.
Proof.
  induction l as [|v l (IH1 & IH2 & IH3)]; [repeat split|].
  cbn [flat_map]. rewrite !retains_app, !releases_app.
  destruct (copy_events_count h v) as [-> ->].
  destruct (dtor_events_count h v) as [-> ->]. lia.
Qed.

Lemma convert_return_run (rt : Runtime) (r : Value.t) (t : Trace) :
  exists out,
    Engine.convert_return rt r t =
      (Ok out,
       t ++ match Value.kind r with
            | Value.String => [EvMalloc (N.of_nat (String.length (Value.toStringRef r)) + 1)%N]
            | _ => []
            end) /\
    (Value.kind r = Value.String ->
     out = mk_minijs_value MINIJS_STRING 0%float 0
             (if rt_malloc_ok rt t (N.of_nat (String.length (Value.toStringRef r)) + 1)%N
              then Some (Value.toStringRef r) else None) nullptr) /\
    (Value.kind r <> Value.String ->
     out = mk_minijs_value (Value.Kind_to_int (Value.kind r)) (Value.toNumber r 0%float)
             (if Value.toBool r false then 1 else 0) None
             (if Value.isHandleKind r then Value.handle r else nullptr)).
Proof.
  unfold Engine.convert_return.
  destruct r as [k n b s h]; unfold Value.isHandleKind, Value.kind, Value.handle;
    cbn [Value._kind Value._h Value._s Value.toStringRef].
  destruct k; cbn [andb]; cbv zeta.
  1-3: (eexists; split;
        [ erewrite scope_exit_ok by reflexivity; unfold dtor_events, Value.owns; cbn;
          rewrite ?andb_false_r; reflexivity
        | split; [discriminate | intros _; reflexivity] ]).
  2-6: destruct (N.eqb h nullptr) eqn:Hh; cbn [negb]; cbv iota beta;
      unfold Value.detachHandle; cbv iota beta;
      (eexists; split;
        [ erewrite scope_exit_ok by reflexivity; unfold dtor_events, Value.owns; cbn;
          rewrite ?Hh; cbn; rewrite ?app_nil_r; reflexivity
        | split; [discriminate | intros _; try (apply N.eqb_eq in Hh; subst h); reflexivity] ]).
  eexists. split.
  - erewrite scope_exit_ok by (erewrite bind_ok by apply alloc_run; reflexivity).
    unfold dtor_events, Value.owns; cbn. rewrite ?andb_false_r, app_nil_r. reflexivity.
  - split; [intros _; reflexivity | intros H; congruence].
Qed.

Lemma copy_events_owned (v : Value.t) :
  copy_events v = EvRetain <$> option_list (owned_handle v).
Proof. unfold copy_events, owned_handle. destruct (Value.owns v); reflexivity. Qed.

Lemma dtor_events_owned (v : Value.t) :
  dtor_events v = EvRelease <$> option_list (owned_handle v).
Proof. unfold dtor_events, owned_handle. destruct (Value.owns v); reflexivity. Qed.

Lemma fromNative_owned (nv : minijs_value) (t : Trace) :
  exists a,
    Value.fromNative nv true t = (Ok a, t ++ (EvRetain <$> option_list (native_handle nv))) /\
    owned_handle a = native_handle nv /\
    (0 <= nv_kind nv <= 8 -> Value.Kind_to_int (Value.kind a) = nv_kind nv).
Proof.
  destruct nv as [k n b s h].
  unfold Value.fromNative, Value.Handle, native_handle, owned_handle, Value.owns,
    MINIJS_ARRAY, MINIJS_TASK.
  cbn [nv_kind nv_handle nv_num nv_boolean nv_str].
  repeat (match goal with |- context [Z.eqb k ?c] => destruct (Z.eqb_spec k c) as [->|?] end;
          [ destruct h as [|p]; unfold_m; cbn;
            (eexists; split; [rewrite ?app_nil_r; reflexivity | split; [reflexivity|]]);
            intros _; reflexivity
          |]).
  exists Value.Null_. unfold_m. cbn.
  destruct (Z.leb_spec 4 k); destruct (Z.leb_spec k 8); cbn [andb];
    try lia; (split; [rewrite app_nil_r; reflexivity | split; [reflexivity | lia]]).
Qed.

Lemma convert_args_owned (argv : list minijs_value) (t : Trace) :
  exists args,
    Engine.convert_args argv t = (Ok args, t ++ (EvRetain <$> native_handles argv)) /\
    Forall2 (fun nv a =>
               owned_handle a = native_handle nv /\
               (0 <= nv_kind nv <= 8 -> Value.Kind_to_int (Value.kind a) = nv_kind nv))
            argv args /\
    flat_map dtor_events args = EvRelease <$> native_handles argv.
Proof.
  revert t. induction argv as [|nv argv IH]; intros t; cbn [Engine.convert_args].
  - exists []. cbn. rewrite app_nil_r. repeat split. constructor.
  - destruct (fromNative_owned nv t) as (a & Ha & Hown & Hkind).
    destruct (IH (t ++ (EvRetain <$> option_list (native_handle nv))))
      as (args & Hargs & Hall & Hrel).
    exists (a :: args). erewrite bind_ok by exact Ha. erewrite bind_ok by exact Hargs.
    split; [|split].
    + unfold native_handles. cbn [omap list_omap]. unfold_m.
      rewrite <- app_assoc. destruct (native_handle nv); reflexivity.
    + constructor; [split; assumption | exact Hall].
    + cbn [flat_map]. rewrite Hrel, dtor_events_owned, Hown.
      unfold native_handles. cbn [omap list_omap].
      destruct (native_handle nv); reflexivity.
Qed.

Lemma convert_this_owned (thisVal : option minijs_value) (t : Trace) :
  exists tv,
    Engine.convert_this thisVal t =
      (Ok tv, t ++ (EvRetain <$> native_handles (option_list thisVal))) /\
    owned_handle tv = thisVal ≫= native_handle /\
    dtor_events tv = EvRelease <$> native_handles (option_list thisVal).
Proof.
  destruct thisVal as [nv|]; cbn [Engine.convert_this].
  - destruct (fromNative_owned nv t) as (a & Ha & Hown & _).
    exists (Value.mk (Value._kind a) (Value._num a) (Value._b a) (Value._s a) (Value._h a)).
    erewrite bind_ok by exact Ha.
    erewrite bind_ok by apply move_assign_distinct_run.
    cbv beta iota. erewrite bind_ok by apply dtor_run.
    assert (Ha' : Value.mk (Value._kind a) (Value._num a) (Value._b a) (Value._s a)
                    (Value._h a) = a) by (destruct a; reflexivity).
    rewrite Ha'. change (dtor_events Value.Null_) with (@nil Event).
    change (dtor_events (Value.mk Value.Null 0%float false EmptyString nullptr))
      with (@nil Event).
    rewrite !app_nil_r, (dtor_events_owned a), Hown.
    unfold native_handles. cbn [option_list option_rect omap list_omap mbind option_bind].
    destruct (native_handle nv); repeat split; reflexivity.
  - exists Value.Null_. cbn. rewrite app_nil_r. repeat split.
Qed.

Lemma trampoline_shape (rt : Runtime) (argv : list minijs_value)
    (thisVal : option minijs_value) (b : Engine.Binding) (t : Trace) :
  Engine.engine b <> nullptr ->
  let retained := EvRetain <$> (native_handles argv ++ native_handles (option_list thisVal)) in
  let released := EvRelease <$> (native_handles (option_list thisVal) ++ native_handles argv) in
  exists args tv out,
    Forall2 (fun nv a =>
               owned_handle a = native_handle nv /\
               (0 <= nv_kind nv <= 8 -> Value.Kind_to_int (Value.kind a) = nv_kind nv))
            argv args /\
    owned_handle tv = thisVal ≫= native_handle /\
    Engine.trampoline rt argv thisVal (Some b) t =
      (Ok out,
       snd (Engine.cb b args tv (t ++ retained)) ++
       match fst (Engine.cb b args tv (t ++ retained)) with
       | Ok r =>
           match Value.kind r with
           | Value.String => [malloc_event (Value.toStringRef r)]
           | _ => []
           end ++ released
       | Throw e => released ++ [malloc_event (Engine.error_message e)]
       end).
Proof.
  intros Hb retained released.
  destruct (convert_args_owned argv t) as (args & Hargs & Hall & Hrel).
  destruct (convert_this_owned thisVal (t ++ (EvRetain <$> native_handles argv)))
    as (tv & Htv & Hown & Hreltv).
  rewrite <- app_assoc, <- fmap_app in Htv. fold retained in Htv.
  assert (Hreleased : dtor_events tv ++ flat_map dtor_events args = released).
  { rewrite Hrel, Hreltv. unfold released. rewrite fmap_app. reflexivity. }
  exists args, tv.
  destruct (Engine.cb b args tv (t ++ retained)) as [[r|e] t3] eqn:Hcb; cbn [fst snd].
  - destruct (convert_return_run rt r t3) as (out & Hout & _).
    exists out. split; [exact Hall|]. split; [exact Hown|].
    erewrite trampoline_closure_returns by eassumption.
    rewrite Hreleased, <- app_assoc. reflexivity.
  - eexists. split; [exact Hall|]. split; [exact Hown|].
    erewrite trampoline_closure_throws by eassumption.
    rewrite Hreleased, <- app_assoc. reflexivity.
Qed.

(** X6: with a Binding that has an engine, the trampoline is neutral on the
    reference counts of what it is given, whatever the closure returns or
    throws.  The closure is entered after exactly one retain for every
    non-null handle of a handle kind among the arguments, in their order,
    and then the receiver; it is given one wrapper per argument, each owning
    the handle its boundary value brought and of its kind, and a receiver
    that owns the receiver's handle.  After the closure the trampoline
    releases exactly these handles, the receiver's first, and the only other
    call it makes is the one [minijs_malloc]: for the text of a String
    result before the releases, for the error text of a failure after
    them. *)
Theorem trampoline_arguments_balanced (rt : Runtime) (argv : list minijs_value)
    (thisVal : option minijs_value) (b : Engine.Binding) (t : Trace) :
  Engine.engine b <> nullptr ->
  let retained := EvRetain <$> (native_handles argv ++ native_handles (option_list thisVal)) in
  let released := EvRelease <$> (native_handles (option_list thisVal) ++ native_handles argv) in
  exists args tv out,
    Forall2 (fun nv a =>
               owned_handle a = native_handle nv /\
               (0 <= nv_kind nv <= 8 -> Value.Kind_to_int (Value.kind a) = nv_kind nv))
            argv args /\
    owned_handle tv = thisVal ≫= native_handle /\
    Engine.trampoline rt argv thisVal (Some b) t =
      (Ok out,
       snd (Engine.cb b args tv (t ++ retained)) ++
       match fst (Engine.cb b args tv (t ++ retained)) with
       | Ok r =>
           match Value.kind r with
           | Value.String => [malloc_event (Value.toStringRef r)]
           | _ => []
           end ++ released
       | Throw e => released ++ [malloc_event (Engine.error_message e)]
       end).
Proof. apply trampoline_shape. Qed.

Lemma trampoline_arguments_balanced_witness :
  let argv := [mk_minijs_value MINIJS_ARRAY 0%float 0 None 5%N;
               mk_minijs_value MINIJS_NUMBER 2%float 0 None nullptr;
               mk_minijs_value MINIJS_OBJECT 0%float 0 None nullptr] in
  let thisVal := Some (mk_minijs_value MINIJS_OBJECT 0%float 0 None 6%N) in
  exists args tv out,
    Forall2 (fun nv a =>
               owned_handle a = native_handle nv /\
               (0 <= nv_kind nv <= 8 -> Value.Kind_to_int (Value.kind a) = nv_kind nv))
            argv args /\
    owned_handle tv = Some 6%N /\
    Engine.trampoline (example_runtime true None) argv thisVal (Some throwing_binding) [] =
      (Ok out,
       snd (Engine.cb throwing_binding args tv [EvRetain 5%N; EvRetain 6%N]) ++
       match fst (Engine.cb throwing_binding args tv [EvRetain 5%N; EvRetain 6%N]) with
       | Ok r =>
           match Value.kind r with
           | Value.String => [malloc_event (Value.toStringRef r)]
           | _ => []
           end ++ [EvRelease 6%N; EvRelease 5%N]
       | Throw e => [EvRelease 6%N; EvRelease 5%N] ++ [malloc_event (Engine.error_message e)]
       end).
Proof.
  intros argv thisVal.
  apply (trampoline_arguments_balanced (example_runtime true None) argv thisVal
           throwing_binding []).
  discriminate.
Defined.

(** X7: what the trampoline hands back for a closure that returns: for a
    result that is not a String the boundary value carries the kind, the
    number [toNumber()] (so 1 or 0 for a Bool), the boolean of [toBool()] (so
    whether a Number is nonzero), no text and the handle of a handle kind, and
    reading it back with [fromNative] gives a value with the same kind,
    coercions and handle; for a String the value is of String kind with the
    text allocated by the runtime's allocator, or a null text when the
    allocator returns null, which reads back as the empty string. *)
Theorem trampoline_return_value (rt : Runtime) (argv : list minijs_value)
    (thisVal : option minijs_value) (b : Engine.Binding) (t t1 t2 t3 : Trace)
    (args : list Value.t) (tv r : Value.t) :
  Engine.engine b <> nullptr ->
  Engine.convert_args argv t = (Ok args, t1) ->
  Engine.convert_this thisVal t1 = (Ok tv, t2) ->
  Engine.cb b args tv t2 = (Ok r, t3) ->
  exists out t4,
    Engine.trampoline rt argv thisVal (Some b) t = (Ok out, t4) /\
    (Value.kind r <> Value.String ->
     nv_kind out = Value.Kind_to_int (Value.kind r) /\
     nv_num out = Value.toNumber r 0%float /\
     nv_boolean out = (if Value.toBool r false then 1 else 0) /\
     nv_str out = None /\
     (Value.isHandleKind r = true -> nv_handle out = Value.handle r) /\
     exists w,
       (forall t0, Value.fromNative out false t0 = (Ok w, t0)) /\
       Value.kind w = Value.kind r /\
       (forall def, Value.toNumber w def = Value.toNumber r def) /\
       (forall def, Value.toBool w def = Value.toBool r def) /\
       (Value.isHandleKind r = true -> Value.handle w = Value.handle r)) /\
    (Value.kind r = Value.String ->
     let ok := rt_malloc_ok rt t3 (N.of_nat (String.length (Value.toStringRef r)) + 1)%N in
     nv_kind out = MINIJS_STRING /\
     nv_str out = (if ok then Some (Value.toStringRef r) else None) /\
     forall t0,
       Value.fromNative out false t0 =
         (Ok (Value.String_ (if ok then c_str (Value.toStringRef r) else EmptyString)), t0)).
Proof.
  intros Hb Hargs Htv Hcb.
  destruct (convert_return_run rt r t3) as (out & Hout & Hstr & Hother).
  exists out. eexists. split; [eapply trampoline_closure_returns; eassumption|].
  split.
  - intros Hk. rewrite (Hother Hk). clear Hout Hstr Hother Hcb.
    destruct r as [k n bb s h]. unfold Value.kind, Value.isHandleKind, Value.handle in *.
    cbn in Hk |- *.
    destruct k; try congruence; cbn;
      (repeat split; try reflexivity; try discriminate);
      try (eexists; repeat split; try (intros; reflexivity); discriminate).
    eexists (Value.Bool_ bb).
    destruct bb; repeat split; try (intros; reflexivity); discriminate.
  - intros Hk ok. rewrite (Hstr Hk). fold ok. cbn.
    split; [reflexivity|]. split; [reflexivity|].
    intros t0. destruct ok; reflexivity.
Qed.

Lemma trampoline_return_value_witness :
  let b := {| Engine.engine := 1%N; Engine.cb := fun _ _ => ret (Value.Number_ 3.5%float) |} in
  exists out t4,
    Engine.trampoline (example_runtime true None) [] None (Some b) [] = (Ok out, t4) /\
    nv_kind out = MINIJS_NUMBER /\ nv_num out = 3.5%float /\ nv_boolean out = 1.
Proof.
  intros b.
  destruct (trampoline_return_value (example_runtime true None) [] None b [] [] [] []
              [] Value.Null_ (Value.Number_ 3.5%float))
    as (out & t4 & Hrun & Hother & _);
    [discriminate | reflexivity | reflexivity | reflexivity |].
  exists out, t4. split; [exact Hrun|].
  destruct Hother as (Hk & Hn & Hb & _); [discriminate|].
  split; [exact Hk|]. split; [exact Hn | exact Hb].
Defined.

(** ** The closures of the example, through the trampoline *)

Lemma convert_args_lookup (argv : list minijs_value) (args : list Value.t) (t t' : Trace)
    (i : nat) (nv : minijs_value) :
  Engine.convert_args argv t = (Ok args, t') -> argv !! i = Some nv ->
  exists a, args !! i = Some a /\ forall t0, Value.fromNative nv false t0 = (Ok a, t0).
Proof.
  revert args t t' i. induction argv as [|nv0 argv IH]; intros args t t' i Hrun Hi;
    [discriminate|].
  cbn [Engine.convert_args] in Hrun.
  destruct (fromNative_retain_run nv0 t) as (a0 & Ha0).
  erewrite bind_ok in Hrun by exact Ha0.
  destruct (convert_args_run argv (t ++ copy_events a0)) as (args' & Hargs' & _).
  erewrite bind_ok in Hrun by exact Hargs'. injection Hrun as <- _.
  destruct i as [|i]; cbn in Hi |- *.
  - injection Hi as <-. exists a0. split; [reflexivity|].
    destruct (fromNative_no_retain nv0) as (v & Hv).
    destruct (fromNative_retain_run nv0 []) as (v' & Hv').
    intros t0. rewrite Hv.
    assert (Hsame : forall nv r1 r2 ta tb w1 w2 tc td,
              Value.fromNative nv r1 ta = (Ok w1, tc) ->
              Value.fromNative nv r2 tb = (Ok w2, td) -> w1 = w2).
    { clear. intros nv r1 r2 ta tb w1 w2 tc td.
      unfold Value.fromNative, Value.Handle. unfold_m.
      repeat (match goal with |- context [Z.eqb ?a ?b] => destruct (Z.eqb a b) end;
              [repeat match goal with |- context [if ?c then _ else _] => destruct c end;
               cbn; congruence |]).
      congruence. }
    f_equal. f_equal. exact (Hsame _ _ _ _ _ _ _ _ _ (Hv []) Ha0).
  - exact (IH args' _ _ i Hargs' Hi).
Qed.

Lemma hostAdd_run (args : list Value.t) (tv : Value.t) (t : Trace) :
  Main.hostAdd args tv t =
  (Ok (Value.Number_ (Main.arg_number args 0 + Main.arg_number args 1)%float), t).
Proof. reflexivity. Qed.

(** X8: the closure registered as [hostAdd], called through the trampoline,
    never yields an error value: the result is of Number kind and its number
    is the sum of the first two arguments taken with [toNumber()], an absent
    argument counting as 0.0, so that for two Number arguments it is their
    sum; the only calls are the retains and releases of the handles among
    the arguments and the receiver. *)
Theorem hostAdd_through_trampoline (rt : Runtime) (argv : list minijs_value)
    (thisVal : option minijs_value) (e : ptr) (t : Trace) :
  e <> nullptr ->
  exists args tv out,
    Engine.convert_args argv t = (Ok args, t ++ flat_map copy_events args) /\
    Engine.trampoline rt argv thisVal (Some {| Engine.engine := e; Engine.cb := Main.hostAdd |}) t =
      (Ok out, t ++ flat_map copy_events args ++ copy_events tv ++
               dtor_events tv ++ flat_map dtor_events args) /\
    nv_kind out = MINIJS_NUMBER /\
    nv_num out = (Main.arg_number args 0 + Main.arg_number args 1)%float /\
    (forall x y rest,
       argv = mk_minijs_value MINIJS_NUMBER x 0 None nullptr ::
              mk_minijs_value MINIJS_NUMBER y 0 None nullptr :: rest ->
       nv_num out = (x + y)%float) /\
    (argv = [] -> nv_num out = 0%float).
Proof.
  intros He.
  destruct (convert_args_run argv t) as (args & Hargs & Hlen).
  destruct (convert_this_run thisVal (t ++ flat_map copy_events args)) as (tv & Htv).
  pose (r := Value.Number_ (Main.arg_number args 0 + Main.arg_number args 1)%float).
  destruct (convert_return_run rt r (t ++ flat_map copy_events args ++ copy_events tv))
    as (out & Hout & _ & Hother).
  specialize (Hother ltac:(discriminate)). cbn [Value.kind Value._kind r Value.Number_] in Hout.
  rewrite app_nil_r in Hout.
  exists args, tv, out. split; [exact Hargs|]. split.
  - erewrite trampoline_closure_returns;
      [ | exact He | exact Hargs | exact Htv | cbn [Engine.cb]; apply hostAdd_run
        | rewrite <- app_assoc; exact Hout ].
    rewrite <- !app_assoc. reflexivity.
  - rewrite Hother. cbn. split; [reflexivity|]. split; [reflexivity|]. split.
    + intros x y rest ->.
      destruct (convert_args_lookup _ _ _ _ 0%nat _ Hargs eq_refl) as (a0 & Ha0 & Hf0).
      destruct (convert_args_lookup _ _ _ _ 1%nat _ Hargs eq_refl) as (a1 & Ha1 & Hf1).
      specialize (Hf0 []). specialize (Hf1 []). cbn in Hf0, Hf1.
      injection Hf0 as <-. injection Hf1 as <-.
      unfold Main.arg_number. rewrite Ha0, Ha1. reflexivity.
    + intros ->. cbn in Hlen. destruct args; [reflexivity | discriminate].
Qed.

Lemma hostAdd_through_trampoline_witness :
  exists out t',
    Engine.trampoline (example_runtime true None)
      [mk_minijs_value MINIJS_NUMBER 2%float 0 None nullptr;
       mk_minijs_value MINIJS_NUMBER 3%float 0 None nullptr] None
      (Some {| Engine.engine := 1%N; Engine.cb := Main.hostAdd |}) [] = (Ok out, t') /\
    nv_kind out = MINIJS_NUMBER /\ nv_num out = 5%float.
Proof.
  destruct (hostAdd_through_trampoline (example_runtime true None)
              [mk_minijs_value MINIJS_NUMBER 2%float 0 None nullptr;
               mk_minijs_value MINIJS_NUMBER 3%float 0 None nullptr] None 1%N [])
    as (args & tv & out & _ & Hrun & Hk & _ & Hsum & _); [discriminate|].
  exists out. eexists. split; [exact Hrun|]. split; [exact Hk|].
  apply (Hsum 2%float 3%float []). reflexivity.
Defined.

Lemma with_self_run {A} (thisVal : Value.t) (body : Object.t -> M A) (t : Trace) :
  let v := Value.mk Value.Object 0%float false EmptyString (Value.handle thisVal) in
  Main.with_self thisVal body t =
  scope_exit (body {| Object._v := v |}) (Value.dtor v) (t ++ copy_events v).
Proof.
  unfold Main.with_self, Value.Handle, Object.ctor, view_ctor, copy_events, Value.owns.
  cbn. unfold_m. cbn.
  destruct (N.eqb (Value.handle thisVal) nullptr); cbn; rewrite ?app_nil_r; reflexivity.
Qed.

Lemma counter_constructor_run (js : Engine.t) (args : list Value.t) (tv : Value.t)
    (t : Trace) :
  let h := Value.handle tv in
  Main.counter_constructor js args tv t =
  if N.eqb h nullptr
  then (Throw (runtime_error "Object::set on null handle"), t)
  else (Ok Value.Null_,
        t ++ [EvRetain h;
              EvObjectSet h "x"
                (mk_minijs_value MINIJS_NUMBER (Main.arg_number args 0) 0 None nullptr);
              EvRelease h]).
Proof.
  intros h. unfold Main.counter_constructor. rewrite with_self_run.
  unfold Object.set, Object.handle, copy_events, Value.owns. cbn. fold h.
  destruct (N.eqb h nullptr) eqn:Hh; cbn.
  - unfold_m. rewrite dtor_run. unfold dtor_events, Value.owns. cbn. fold h.
    rewrite Hh. cbn. rewrite !app_nil_r. reflexivity.
  - unfold_m. cbn. rewrite !dtor_run. unfold dtor_events, Value.owns. cbn. fold h.
    rewrite Hh. cbn. rewrite ?app_nil_r, <- ?app_assoc. reflexivity.
Qed.

Lemma counter_inc_run (rt : Runtime) (js : Engine.t) (args : list Value.t) (tv : Value.t)
    (t : Trace) :
  let h := Value.handle tv in
  let out := rt_object_get rt (t ++ [EvRetain h]) h "x" in
  h <> nullptr -> nv_kind out = MINIJS_NUMBER ->
  Main.counter_inc rt js args tv t =
  (Ok (Value.Number_ (nv_num out + 1)%float),
   t ++ [EvRetain h; EvObjectGet h "x";
         EvObjectSet h "x" (mk_minijs_value MINIJS_NUMBER (nv_num out + 1)%float 0 None nullptr);
         EvRelease h]).
Proof.
  intros h out Hh Hk. unfold Main.counter_inc. rewrite with_self_run.
  unfold Object.set, Object.get, Object.handle, copy_events, Value.owns, read_out. cbn. fold h.
  destruct (N.eqb_spec h nullptr) as [|_]; [contradiction|]. cbn.
  unfold call. unfold_m. cbn. fold out.
  unfold Value.fromNative. rewrite Hk. cbn. do 2 (unfold_m; cbn).
  rewrite !dtor_run. unfold dtor_events, Value.owns. cbn. fold h.
  destruct (N.eqb_spec h nullptr) as [|_]; [contradiction|]. cbn.
  rewrite ?app_nil_r, <- ?app_assoc. reflexivity.
Qed.

Lemma convert_this_object (nv : minijs_value) (t : Trace) :
  nv_kind nv = MINIJS_OBJECT -> nv_handle nv <> nullptr ->
  Engine.convert_this (Some nv) t =
  (Ok (Value.mk Value.Object 0%float false EmptyString (nv_handle nv)),
   t ++ [EvRetain (nv_handle nv)]).
Proof.
  intros Hk Hh. cbn [Engine.convert_this].
  assert (Hf : Value.fromNative nv true t =
               (Ok (Value.mk Value.Object 0%float false EmptyString (nv_handle nv)),
                t ++ [EvRetain (nv_handle nv)])).
  { unfold Value.fromNative, Value.Handle. rewrite Hk. cbn.
    destruct (N.eqb_spec (nv_handle nv) nullptr) as [|_]; [contradiction|]. reflexivity. }
  erewrite bind_ok by exact Hf.
  erewrite bind_ok by apply move_assign_distinct_run.
  cbv beta iota. erewrite bind_ok by apply dtor_run.
  cbn. rewrite !app_nil_r. reflexivity.
Qed.

(** X9: the [constructor] closure of the example class, called through the
    trampoline on an object receiver, writes the number of its first
    argument under the key x and returns Null; it retains the receiver once
    for its own view and releases it again, around the retain and release of
    the trampoline.  Called without receiver, its write fails on the null
    handle and the trampoline hands the failure back as an error text (a
    null text when the allocator returns null); nothing is written. *)
Theorem counter_constructor_through_trampoline (rt : Runtime) (js : Engine.t)
    (argv : list minijs_value) (thisNv : minijs_value) (e : ptr) (t : Trace) :
  e <> nullptr -> nv_kind thisNv = MINIJS_OBJECT -> nv_handle thisNv <> nullptr ->
  let h := nv_handle thisNv in
  let b := {| Engine.engine := e; Engine.cb := Main.counter_constructor js |} in
  exists args,
    Engine.convert_args argv t = (Ok args, t ++ flat_map copy_events args) /\
    Engine.trampoline rt argv (Some thisNv) (Some b) t =
      (Ok (mk_minijs_value MINIJS_NULL 0%float 0 None nullptr),
       t ++ flat_map copy_events args ++
       [EvRetain h; EvRetain h;
        EvObjectSet h "x"
          (mk_minijs_value MINIJS_NUMBER (Main.arg_number args 0) 0 None nullptr);
        EvRelease h; EvRelease h] ++
       flat_map dtor_events args) /\
    let tu := t ++ flat_map copy_events args ++ flat_map dtor_events args in
    Engine.trampoline rt argv None (Some b) t =
      (Ok (mk_minijs_value MINIJS_STRING 0%float 0
             (if rt_malloc_ok rt tu 34%N
              then Some "Error: Object::set on null handle"%string else None) nullptr),
       tu ++ [EvMalloc 34%N]).
Proof.
  intros He Hk Hh h b.
  destruct (convert_args_run argv t) as (args & Hargs & _).
  exists args. split; [exact Hargs|]. split.
  - erewrite trampoline_closure_returns;
      [ | exact He | exact Hargs | apply convert_this_object; assumption
        | cbn [Engine.cb b]; rewrite counter_constructor_run; cbn [Value.handle Value._h];
          fold h; destruct (N.eqb_spec h nullptr) as [|_]; [contradiction | reflexivity]
        | cbn; reflexivity ].
    unfold dtor_events, Value.owns. cbn. fold h.
    destruct (N.eqb_spec h nullptr) as [|_]; [contradiction|]. cbn.
    rewrite <- !app_assoc. reflexivity.
  - cbv zeta.
    erewrite trampoline_closure_throws;
      [ | exact He | exact Hargs | reflexivity
        | cbn [Engine.cb b]; rewrite counter_constructor_run; reflexivity ].
    cbn. rewrite <- !app_assoc. reflexivity.
Qed.

Lemma counter_constructor_through_trampoline_witness :
  let b := {| Engine.engine := 1%N;
              Engine.cb := Main.counter_constructor
                             {| Engine._it := 1%N; Engine._bindings := [] |} |} in
  Engine.trampoline (example_runtime true None)
    [mk_minijs_value MINIJS_NUMBER 4%float 0 None nullptr]
    (Some (mk_minijs_value MINIJS_OBJECT 0%float 0 None 6%N)) (Some b) [] =
    (Ok (mk_minijs_value MINIJS_NULL 0%float 0 None nullptr),
     [EvRetain 6%N; EvRetain 6%N;
      EvObjectSet 6%N "x" (mk_minijs_value MINIJS_NUMBER 4%float 0 None nullptr);
      EvRelease 6%N; EvRelease 6%N]) /\
  Engine.trampoline (example_runtime true None)
    [mk_minijs_value MINIJS_NUMBER 4%float 0 None nullptr] None (Some b) [] =
    (Ok (mk_minijs_value MINIJS_STRING 0%float 0
           (Some "Error: Object::set on null handle"%string) nullptr),
     [EvMalloc 34%N]).
Proof.
  intros b.
  destruct (counter_constructor_through_trampoline (example_runtime true None)
              {| Engine._it := 1%N; Engine._bindings := [] |}
              [mk_minijs_value MINIJS_NUMBER 4%float 0 None nullptr]
              (mk_minijs_value MINIJS_OBJECT 0%float 0 None 6%N) 1%N [])
    as (args & Hargs & Hok & Herr); [discriminate | reflexivity | discriminate |].
  cbn in Hargs. injection Hargs as <-.
  split; [exact Hok | exact Herr].
Defined.

Lemma last_set_app (h : ptr) (key : string) (t t' : Trace) :
  last_set h key (t ++ t') =
  match last_set h key t' with
  | Some nv => Some nv
  | None => last_set h key t
  end.
Proof.
  induction t as [|e t IH]; cbn [app last_set].
  - destruct (last_set h key t'); reflexivity.
  - rewrite IH. destruct (last_set h key t'); reflexivity.
Qed.

Lemma counter_inc_through_trampoline (rt : Runtime) (js : Engine.t) (thisNv : minijs_value)
    (e : ptr) (t : Trace) (n : float) :
  let h := nv_handle thisNv in
  let b := {| Engine.engine := e; Engine.cb := Main.counter_inc rt js |} in
  e <> nullptr -> nv_kind thisNv = MINIJS_OBJECT -> h <> nullptr ->
  nv_kind (rt_object_get rt (t ++ [EvRetain h; EvRetain h]) h "x") = MINIJS_NUMBER ->
  nv_num (rt_object_get rt (t ++ [EvRetain h; EvRetain h]) h "x") = n ->
  exists out,
    Engine.trampoline rt [] (Some thisNv) (Some b) t =
      (Ok out,
       t ++ [EvRetain h; EvRetain h; EvObjectGet h "x";
             EvObjectSet h "x" (mk_minijs_value MINIJS_NUMBER (n + 1)%float 0 None nullptr);
             EvRelease h; EvRelease h]) /\
    nv_kind out = MINIJS_NUMBER /\ nv_num out = (n + 1)%float.
Proof.
  intros h b He Hk Hh Hgk Hgn.
  assert (Hcb : Engine.cb b [] (Value.mk Value.Object 0%float false EmptyString h)
                  (t ++ [EvRetain h]) =
                (Ok (Value.Number_ (n + 1)%float),
                 (t ++ [EvRetain h]) ++
                 [EvRetain h; EvObjectGet h "x";
                  EvObjectSet h "x" (mk_minijs_value MINIJS_NUMBER (n + 1)%float 0 None nullptr);
                  EvRelease h])).
  { cbn [Engine.cb b]. rewrite counter_inc_run; cbn [Value.handle Value._h];
      rewrite <- ?app_assoc; cbn [app]; [rewrite Hgn; reflexivity | exact Hh | exact Hgk]. }
  destruct (convert_return_run rt (Value.Number_ (n + 1)%float)
              ((t ++ [EvRetain h]) ++
               [EvRetain h; EvObjectGet h "x";
                EvObjectSet h "x" (mk_minijs_value MINIJS_NUMBER (n + 1)%float 0 None nullptr);
                EvRelease h])) as (out & Hout & _ & Hother).
  specialize (Hother ltac:(discriminate)).
  exists out. split.
  - erewrite trampoline_closure_returns;
      [ | exact He | reflexivity | apply convert_this_object; assumption
        | exact Hcb | exact Hout ].
    unfold dtor_events, Value.owns. cbn. fold h.
    destruct (N.eqb_spec h nullptr) as [|_]; [contradiction|]. cbn.
    rewrite <- !app_assoc. reflexivity.
  - rewrite Hother. split; reflexivity.
Qed.

(** X10: the example class end to end, for a runtime whose objects answer a
    read of x with what was last written to x: the constructor called with
    the number [v] on the object, then [inc] twice, return Null, [v + 1] and
    [(v + 1) + 1]; each call leaves the reference count of every handle as it
    found it (as many retains as releases). *)
Theorem counter_end_to_end (rt : Runtime) (js : Engine.t) (e h : ptr) (v : float)
    (t0 : Trace) :
  e <> nullptr -> h <> nullptr ->
  (forall t, rt_object_get rt t h "x" = default nv_zero (last_set h "x" t)) ->
  let this := Some (mk_minijs_value MINIJS_OBJECT 0%float 0 None h) in
  let ctor := Some {| Engine.engine := e; Engine.cb := Main.counter_constructor js |} in
  let inc := Some {| Engine.engine := e; Engine.cb := Main.counter_inc rt js |} in
  exists out0 t1 out1 t2 out2 t3,
    Engine.trampoline rt [mk_minijs_value MINIJS_NUMBER v 0 None nullptr] this ctor t0 =
      (Ok out0, t1) /\
    Engine.trampoline rt [] this inc t1 = (Ok out1, t2) /\
    Engine.trampoline rt [] this inc t2 = (Ok out2, t3) /\
    nv_kind out0 = MINIJS_NULL /\
    nv_kind out1 = MINIJS_NUMBER /\ nv_num out1 = (v + 1)%float /\
    nv_kind out2 = MINIJS_NUMBER /\ nv_num out2 = (v + 1 + 1)%float /\
    forall h',
      (retains h' t3 + releases h' t0 = releases h' t3 + retains h' t0)%nat.
Proof.
  intros He Hh Hstore this ctor inc.
  destruct (counter_constructor_through_trampoline rt js
              [mk_minijs_value MINIJS_NUMBER v 0 None nullptr]
              (mk_minijs_value MINIJS_OBJECT 0%float 0 None h) e t0 He eq_refl Hh)
    as (args & Hargs & Hctor & _).
  cbn in Hargs. injection Hargs as <-. cbn in Hctor.
  set (t1 := t0 ++ _) in Hctor.
  assert (H1 : rt_object_get rt (t1 ++ [EvRetain h; EvRetain h]) h "x" =
               mk_minijs_value MINIJS_NUMBER v 0 None nullptr).
  { rewrite Hstore. subst t1. rewrite <- app_assoc, last_set_app. cbn.
    rewrite N.eqb_refl. reflexivity. }
  destruct (counter_inc_through_trampoline rt js
              (mk_minijs_value MINIJS_OBJECT 0%float 0 None h) e t1 v He eq_refl Hh)
    as (out1 & Hinc1 & Hk1 & Hn1);
    [cbn [nv_handle]; rewrite H1; reflexivity | cbn [nv_handle]; rewrite H1; reflexivity |].
  cbn in Hinc1. set (t2 := t1 ++ _) in Hinc1.
  assert (H2 : rt_object_get rt (t2 ++ [EvRetain h; EvRetain h]) h "x" =
               mk_minijs_value MINIJS_NUMBER (v + 1)%float 0 None nullptr).
  { rewrite Hstore. subst t2. rewrite <- app_assoc, last_set_app. cbn.
    rewrite N.eqb_refl. reflexivity. }
  destruct (counter_inc_through_trampoline rt js
              (mk_minijs_value MINIJS_OBJECT 0%float 0 None h) e t2 (v + 1)%float He eq_refl Hh)
    as (out2 & Hinc2 & Hk2 & Hn2);
    [cbn [nv_handle]; rewrite H2; reflexivity | cbn [nv_handle]; rewrite H2; reflexivity |].
  cbn in Hinc2. set (t3 := t2 ++ _) in Hinc2.
  eexists _, t1, out1, t2, out2, t3.
  split; [exact Hctor|]. split; [exact Hinc1|]. split; [exact Hinc2|].
  split; [reflexivity|]. split; [exact Hk1|]. split; [exact Hn1|].
  split; [exact Hk2|]. split; [exact Hn2|].
  intros h'. subst t3 t2 t1. rewrite !retains_app, !releases_app. cbn.
  destruct (N.eqb h h'); cbn; lia.
Qed.

Lemma counter_end_to_end_witness :
  let js := {| Engine._it := 1%N; Engine._bindings := [] |} in
  let this := Some (mk_minijs_value MINIJS_OBJECT 0%float 0 None 6%N) in
  let ctor := Some {| Engine.engine := 1%N; Engine.cb := Main.counter_constructor js |} in
  let inc := Some {| Engine.engine := 1%N;
                     Engine.cb := Main.counter_inc storing_runtime js |} in
  exists out0 t1 out1 t2 out2 t3,
    Engine.trampoline storing_runtime [mk_minijs_value MINIJS_NUMBER 4%float 0 None nullptr]
      this ctor [] = (Ok out0, t1) /\
    Engine.trampoline storing_runtime [] this inc t1 = (Ok out1, t2) /\
    Engine.trampoline storing_runtime [] this inc t2 = (Ok out2, t3) /\
    nv_num out1 = 5%float /\ nv_num out2 = 6%float.
Proof.
  intros js this ctor inc.
  destruct (counter_end_to_end storing_runtime js 1%N 6%N 4%float [])
    as (out0 & t1 & out1 & t2 & out2 & t3 & H0 & H1 & H2 & _ & _ & Hn1 & _ & Hn2 & _);
    [discriminate | discriminate | reflexivity |].
  exists out0, t1, out1, t2, out2, t3.
  split; [exact H0|]. split; [exact H1|]. split; [exact H2|].
  split; [exact Hn1 | exact Hn2].
Defined.

(** ** Wrappers in a store: what never happens *)

Lemma own_le_owners (h : ptr) (σ : gmap Store.addr Value.t) (a : Store.addr) (v : Value.t) :
  σ !! a = Some v -> (Store.own h v <= Store.owners h σ)%nat.
Proof. intros Ha. rewrite (owners_delete h σ a v Ha). lia. Qed.

Lemma prefix_of_short (p : Trace) (ev : Trace) :
  p `prefix_of` ev -> (length ev <= 1)%nat -> p = [] \/ p = ev.
Proof.
  intros [k ->] Hlen. destruct p as [|x p]; [left; reflexivity|].
  right. destruct p; cbn in Hlen; [|lia]. destruct k; [reflexivity | cbn in Hlen; lia].
Qed.

Lemma prefix_of_app_cases (p l1 l2 : Trace) :
  p `prefix_of` l1 ++ l2 ->
  p `prefix_of` l1 \/ exists k, p = l1 ++ k /\ k `prefix_of` l2.
Proof.
  revert p. induction l1 as [|x l1 IH]; intros p Hp.
  - right. exists p. split; [reflexivity | exact Hp].
  - destruct p as [|y p]; [left; apply prefix_nil|].
    cbn [app] in Hp. pose proof (prefix_cons_inv_1 _ _ _ _ Hp) as ->.
    apply prefix_cons_inv_2 in Hp. destruct (IH p Hp) as [H | (k & -> & Hk)].
    + left. apply prefix_cons. exact H.
    + right. exists k. split; [reflexivity | exact Hk].
Qed.

Lemma dtor_events_short (v : Value.t) : (length (dtor_events v) <= 1)%nat.
Proof. unfold dtor_events. destruct (Value.owns v); cbn; lia. Qed.

Lemma copy_events_short (v : Value.t) : (length (copy_events v) <= 1)%nat.
Proof. unfold copy_events. destruct (Value.owns v); cbn; lia. Qed.

(** The events of one operation, with the bound on each of their prefixes. *)
Lemma step_events (op : Store.Op) (σ σ' : gmap Store.addr Value.t)
    (m : M (gmap Store.addr Value.t)) (t t' : Trace) (h : ptr) :
  Store.step op σ = Some m -> m t = (Ok σ', t') ->
  exists ev, t' = t ++ ev /\
    forall p, p `prefix_of` ev -> (releases h p <= retains h p + Store.owners h σ)%nat.
Proof.
  intros Hstep Hrun.
  assert (Hnil : releases h [] = 0%nat) by reflexivity.
  assert (Hone : forall a v ev, σ !! a = Some v -> ev = dtor_events v \/ ev = copy_events v ->
            forall p, p `prefix_of` ev -> (releases h p <= retains h p + Store.owners h σ)%nat).
  { intros a v ev Ha Hev p Hp. pose proof (own_le_owners h σ a v Ha) as Hle.
    destruct Hev as [-> | ->].
    - destruct (prefix_of_short p _ Hp (dtor_events_short v)) as [-> | ->]; [cbn; lia|].
      destruct (dtor_events_count h v) as [-> ->]. lia.
    - destruct (prefix_of_short p _ Hp (copy_events_short v)) as [-> | ->]; [cbn; lia|].
      destruct (copy_events_count h v) as [-> ->]. lia. }
  destruct op as [dst src|dst src|dst src|dst src|a]; cbn [Store.step] in Hstep.
  - destruct (σ !! dst) as [this|] eqn:Hd; [discriminate|].
    destruct (σ !! src) as [o|] eqn:Hs; [|discriminate].
    destruct (step_CopyCtor σ dst src o t Hd Hs) as (m' & Hm & Hr).
    cbn [Store.step] in Hm. rewrite Hd, Hs in Hm. rewrite Hstep in Hm.
    injection Hm as <-. rewrite Hrun in Hr. injection Hr as -> ->.
    eexists. split; [reflexivity|]. apply (Hone src o); [exact Hs | right; reflexivity].
  - destruct (σ !! dst) as [this|] eqn:Hd; [|discriminate].
    destruct (σ !! src) as [o|] eqn:Hs; [|discriminate].
    destruct (step_CopyAssign σ dst src this o t Hd Hs) as (m' & Hm & Hr).
    cbn [Store.step] in Hm. rewrite Hd, Hs in Hm. rewrite Hstep in Hm.
    injection Hm as <-. rewrite Hrun in Hr.
    destruct (decide (dst = src)); injection Hr as -> ->.
    + exists []. rewrite app_nil_r. split; [reflexivity|].
      intros p [k Hk]. symmetry in Hk. apply app_eq_nil in Hk as [-> _]. cbn. lia.
    + eexists. split; [reflexivity|]. intros p Hp.
      pose proof (own_le_owners h σ dst this Hd) as Hle.
      destruct (dtor_events_count h this) as [Hr1 Hr2].
      apply prefix_of_app_cases in Hp as [Hp | (k & -> & Hk)].
      * apply (Hone dst this (dtor_events this)); [exact Hd | left; reflexivity | exact Hp].
      * rewrite retains_app, releases_app, Hr1, Hr2.
        destruct (prefix_of_short k _ Hk (copy_events_short o)) as [-> | ->]; [cbn; lia|].
        destruct (copy_events_count h o) as [-> ->]. lia.
  - destruct (σ !! dst) as [this|] eqn:Hd; [discriminate|].
    destruct (σ !! src) as [o|] eqn:Hs; [|discriminate].
    destruct (step_MoveCtor σ dst src o t Hd Hs) as (m' & Hm & Hr).
    cbn [Store.step] in Hm. rewrite Hd, Hs in Hm. rewrite Hstep in Hm.
    injection Hm as <-. rewrite Hrun in Hr. injection Hr as -> ->.
    exists []. rewrite app_nil_r. split; [reflexivity|].
    intros p [k Hk]. symmetry in Hk. apply app_eq_nil in Hk as [-> _]. cbn. lia.
  - destruct (σ !! dst) as [this|] eqn:Hd; [|discriminate].
    destruct (σ !! src) as [o|] eqn:Hs; [|discriminate].
    destruct (step_MoveAssign σ dst src this o t Hd Hs) as (m' & Hm & Hr).
    cbn [Store.step] in Hm. rewrite Hd, Hs in Hm. rewrite Hstep in Hm.
    injection Hm as <-. rewrite Hrun in Hr.
    destruct (decide (dst = src)); injection Hr as -> ->.
    + exists []. rewrite app_nil_r. split; [reflexivity|].
      intros p [k Hk]. symmetry in Hk. apply app_eq_nil in Hk as [-> _]. cbn. lia.
    + eexists. split; [reflexivity|].
      apply (Hone dst this); [exact Hd | left; reflexivity].
  - destruct (σ !! a) as [v|] eqn:Ha; [|discriminate].
    destruct (step_Dtor σ a v t Ha) as (m' & Hm & Hr).
    cbn [Store.step] in Hm. rewrite Ha in Hm. rewrite Hstep in Hm.
    injection Hm as <-. rewrite Hrun in Hr. injection Hr as -> ->.
    eexists. split; [reflexivity|]. apply (Hone a v); [exact Ha | left; reflexivity].
Qed.

Lemma run_events (ops : list Store.Op) (σ σ' : gmap Store.addr Value.t) (t t' : Trace)
    (h : ptr) :
  Store.run ops σ t = Some (σ', t') ->
  exists ev, t' = t ++ ev /\
    forall p, p `prefix_of` ev -> (releases h p <= retains h p + Store.owners h σ)%nat.
Proof.
  revert σ t. induction ops as [|op ops IH]; intros σ t Hrun; cbn [Store.run] in Hrun.
  - injection Hrun as -> ->. exists []. rewrite app_nil_r. split; [reflexivity|].
    intros p Hp. apply prefix_nil_inv in Hp as ->. cbn. lia.
  - destruct (Store.step op σ) as [m|] eqn:Hstep; [|discriminate].
    destruct (m t) as [[σ1|e] t1] eqn:Hm; [|discriminate].
    destruct (step_events op σ σ1 m t t1 h Hstep Hm) as (ev1 & -> & Hev1).
    pose proof (step_balance op σ σ1 m t (t ++ ev1) h Hstep Hm) as Hbal.
    rewrite retains_app, releases_app in Hbal.
    destruct (IH σ1 (t ++ ev1) Hrun) as (ev2 & -> & Hev2).
    exists (ev1 ++ ev2). rewrite app_assoc. split; [reflexivity|].
    intros p Hp. apply prefix_of_app_cases in Hp as [Hp | (k & -> & Hk)].
    + apply Hev1. exact Hp.
    + specialize (Hev2 k Hk). rewrite retains_app, releases_app. lia.
Qed.

(** X11: at no point of any sequence of copies, moves and destructions has a
    handle been released more often than it was retained plus the number of
    wrappers that owned it at the start: for every prefix of the calls
    issued, the releases of a handle are at most its retains plus its initial
    owners. *)
Theorem wrappers_never_over_release (ops : list Store.Op) (σ σ' : gmap Store.addr Value.t)
    (t' p : Trace) (h : ptr) :
  Store.run ops σ [] = Some (σ', t') -> p `prefix_of` t' ->
  (releases h p <= retains h p + Store.owners h σ)%nat.
Proof.
  intros Hrun Hp. destruct (run_events ops σ σ' [] t' h Hrun) as (ev & -> & Hev).
  apply Hev. exact Hp.
Qed.

Lemma wrappers_never_over_release_witness :
  let v := Value.mk Value.Array 0%float false EmptyString 7%N in
  let σ : gmap Store.addr Value.t := {[ 0%nat := v ]} in
  (releases 7%N [EvRetain 7%N; EvRelease 7%N; EvRelease 7%N] <=
   retains 7%N [EvRetain 7%N; EvRelease 7%N; EvRelease 7%N] + Store.owners 7%N σ)%nat.
Proof.
  intros v σ.
  apply (wrappers_never_over_release
           [Store.CopyCtor 1%nat 0%nat; Store.Dtor 0%nat; Store.Dtor 1%nat] σ ∅
           [EvRetain 7%N; EvRelease 7%N; EvRelease 7%N]).
  - vm_compute. reflexivity.
  - exists []. rewrite app_nil_r. reflexivity.
Defined.

(** X12: moving a wrapper that holds a handle into a new wrapper and then
    destroying both, in either order, releases the handle exactly once and
    retains nothing: the moved-from wrapper is safe to destroy and the
    reference travels with the move. *)
Theorem move_then_destroy_releases_once (σ : gmap Store.addr Value.t)
    (dst src : Store.addr) (o : Value.t) (t : Trace) :
  holds_handle o -> σ !! src = Some o -> σ !! dst = None ->
  Store.run [Store.MoveCtor dst src; Store.Dtor src; Store.Dtor dst] σ t =
    Some (delete src σ, t ++ [EvRelease (Value.handle o)]) /\
  Store.run [Store.MoveCtor dst src; Store.Dtor dst; Store.Dtor src] σ t =
    Some (delete src σ, t ++ [EvRelease (Value.handle o)]).
Proof.
  intros Ho Hs Hd.
  assert (Hne : dst <> src) by congruence.
  assert (Hdo : dtor_events o = [EvRelease (Value.handle o)])
    by (unfold dtor_events; rewrite (owns_holds o Ho); reflexivity).
  set (null := Value.mk Value.Null 0%float false EmptyString nullptr).
  assert (Hfinal1 : delete dst (delete src (<[src:=null]> (<[dst:=o]> σ))) = delete src σ).
  { apply map_eq. intros i.
    destruct (decide (i = dst)) as [->|Hi1]; [rewrite lookup_delete_eq, lookup_delete_ne by auto;
                                              symmetry; exact Hd|].
    rewrite lookup_delete_ne by auto.
    destruct (decide (i = src)) as [->|Hi2]; [rewrite !lookup_delete_eq; reflexivity|].
    rewrite !lookup_delete_ne, !lookup_insert_ne by auto. reflexivity. }
  assert (Hfinal2 : delete src (delete dst (<[src:=null]> (<[dst:=o]> σ))) = delete src σ).
  { rewrite delete_delete. exact Hfinal1. }
  destruct (step_MoveCtor σ dst src o t Hd Hs) as (m & Hm & Hr). fold null in Hr.
  split; cbn [Store.run]; rewrite Hm, Hr.
  - destruct (step_Dtor (<[src:=null]> (<[dst:=o]> σ)) src null t
                ltac:(apply lookup_insert_eq)) as (m1 & Hm1 & Hr1).
    rewrite Hm1, Hr1.
    destruct (step_Dtor (delete src (<[src:=null]> (<[dst:=o]> σ))) dst o
                (t ++ dtor_events null)) as (m2 & Hm2 & Hr2).
    { rewrite lookup_delete_ne, lookup_insert_ne, lookup_insert_eq by auto. reflexivity. }
    rewrite Hm2, Hr2, Hfinal1, Hdo. cbn. rewrite app_nil_r. reflexivity.
  - destruct (step_Dtor (<[src:=null]> (<[dst:=o]> σ)) dst o t) as (m1 & Hm1 & Hr1).
    { rewrite lookup_insert_ne, lookup_insert_eq by auto. reflexivity. }
    rewrite Hm1, Hr1.
    destruct (step_Dtor (delete dst (<[src:=null]> (<[dst:=o]> σ))) src null
                (t ++ dtor_events o)) as (m2 & Hm2 & Hr2).
    { rewrite lookup_delete_ne, lookup_insert_eq by auto. reflexivity. }
    rewrite Hm2, Hr2, Hfinal2, Hdo. cbn. rewrite app_nil_r. reflexivity.
Qed.

Lemma move_then_destroy_releases_once_witness :
  let v := Value.mk Value.Array 0%float false EmptyString 7%N in
  let σ : gmap Store.addr Value.t := {[ 0%nat := v ]} in
  Store.run [Store.MoveCtor 1%nat 0%nat; Store.Dtor 0%nat; Store.Dtor 1%nat] σ [] =
    Some (delete 0%nat σ, [EvRelease 7%N]).
Proof.
  intros v σ.
  apply (move_then_destroy_releases_once σ 1%nat 0%nat v []).
  - split; [reflexivity | discriminate].
  - vm_compute. reflexivity.
  - vm_compute. reflexivity.
Defined.

(** ** The key parser on well-formed and on cut-off texts *)

Lemma append_assoc (a b c : string) : ((a +:+ b) +:+ c = a +:+ (b +:+ c))%string.
Proof. induction a as [|x a IH]; [reflexivity|]. rewrite !append_cons, IH. reflexivity. Qed.

Lemma append_length (a b : string) :
  String.length (a +:+ b) = (String.length a + String.length b)%nat.
Proof.
  induction a as [|x a IH]; [reflexivity|]. rewrite append_cons. cbn [String.length].
  rewrite IH. reflexivity.
Qed.

Lemma skipws_not_ws (c : ascii) (s : string) :
  is_ws c = false -> skipws (String c s) = String c s.
Proof. intros Hc. cbn [skipws]. rewrite Hc. reflexivity. Qed.

(** The inner loop undoes [escape], up to the closing quote or to the end of
    the text. *)
Lemma scan_string_escaped (k : string) (tail : string) (cur : string) :
  (tail = EmptyString \/ exists rest, tail = String ch_dquote rest) ->
  scan_string (escape k +:+ tail) cur =
  ((cur +:+ k)%string, match tail with String _ rest => rest | EmptyString => EmptyString end).
Proof.
  intros Htail. revert cur. induction k as [|c k IH]; intros cur.
  - cbn [escape]. rewrite append_empty_r.
    destruct Htail as [-> | (rest & ->)]; reflexivity.
  - cbn [escape]. rewrite append_assoc. rewrite <- (append_push_back cur c k).
    rewrite <- IH. unfold escape_char.
    destruct (Ascii.eqb_spec c ch_backslash) as [->|Hb]; [reflexivity|].
    destruct (Ascii.eqb_spec c ch_dquote) as [->|Hq]; [reflexivity|].
    destruct (Ascii.eqb_spec c ch_lf) as [->|_]; [reflexivity|].
    destruct (Ascii.eqb_spec c ch_cr) as [->|_]; [reflexivity|].
    destruct (Ascii.eqb_spec c ch_tab) as [->|_]; [reflexivity|].
    rewrite append_cons. cbn [scan_string].
    destruct (Ascii.eqb_spec c ch_dquote) as [|_]; [contradiction|].
    destruct (Ascii.eqb_spec c ch_backslash) as [|_]; [contradiction|].
    reflexivity.
Qed.

Lemma join_keys_length (ks : list string) (rest : string) :
  (length ks + String.length rest <= String.length (join_keys ks rest))%nat.
Proof.
  induction ks as [|k ks IH]; cbn [join_keys length String.length]; [lia|].
  rewrite append_length. cbn [String.length].
  destruct ks as [|k2 ks]; cbn [String.length length] in *; lia.
Qed.

(** The outer loop on the keys of a list, whatever follows the last key. *)
Lemma keys_loop_join (rest : string) (extra : list string) (n : nat) :
  (forall res f, (n <= f)%nat ->
     (if at_char "," (skipws rest) then keys_loop f (advance (skipws rest)) res
      else if at_char "]" (skipws (skipws rest)) then Some res
           else keys_loop f (skipws (skipws rest)) res) = Some (res ++ extra)) ->
  forall ks res f, ks <> [] -> (length ks + n <= S f)%nat ->
    keys_loop (S f) (join_keys ks rest) res = Some (res ++ ks ++ extra).
Proof.
  intros Hafter ks. induction ks as [|k ks IH]; intros res f Hne Hf; [contradiction|].
  cbn [join_keys keys_loop].
  rewrite skipws_not_ws by reflexivity. cbn [at_char advance].
  change (Ascii.eqb ch_dquote "]") with false.
  change (Ascii.eqb ch_dquote ch_dquote) with true. cbn [negb].
  rewrite scan_string_escaped by (right; eexists; reflexivity).
  change (EmptyString +:+ k)%string with k.
  destruct ks as [|k2 ks].
  - rewrite Hafter by (cbn in Hf; lia). rewrite <- app_assoc. reflexivity.
  - rewrite skipws_not_ws by reflexivity. cbn [at_char advance].
    change (Ascii.eqb "," ",") with true. cbv iota.
    destruct f as [|f]; [cbn in Hf; lia|].
    rewrite IH by (try discriminate; cbn in Hf |- *; lia).
    rewrite <- app_assoc. reflexivity.
Qed.

Lemma parse_keys_from_loop (s : string) (r : list string) (fuel : nat) :
  is_ws (match s with String c _ => c | EmptyString => "x"%char end) = false ->
  keys_loop fuel s [] = Some r -> (fuel <= S (S (String.length s)))%nat ->
  parse_keys (String "[" s) = r.
Proof.
  intros Hws Hr Hfuel. unfold parse_keys, parse_keys_fuel.
  rewrite skipws_not_ws by reflexivity. cbn [at_char advance String.length].
  change (Ascii.eqb "[" "[") with true. cbn [negb].
  assert (Hs : skipws s = s) by (destruct s; [reflexivity | apply skipws_not_ws; exact Hws]).
  rewrite Hs. rewrite (keys_loop_more _ _ _ _ _ Hr Hfuel). reflexivity.
Qed.

Lemma parse_keys_text (ks : list string) (junk : string) :
  parse_keys (keys_text ks junk) = ks.
Proof.
  unfold keys_text. destruct ks as [|k ks].
  - apply (parse_keys_from_loop _ _ 1%nat); [reflexivity | reflexivity | lia].
  - apply (parse_keys_from_loop _ _ (S (length ks))); [reflexivity | |].
    + rewrite (keys_loop_join (String "]" junk) [] 0%nat); [rewrite app_nil_r; reflexivity | | | ].
      * intros res f _. rewrite skipws_not_ws by reflexivity. cbn [at_char].
        change (Ascii.eqb "]" ",") with false. cbv iota.
        rewrite skipws_not_ws by reflexivity. cbn [at_char].
        change (Ascii.eqb "]" "]") with true. rewrite app_nil_r. reflexivity.
      * discriminate.
      * cbn. lia.
    + pose proof (join_keys_length (k :: ks) (String "]" junk)) as Hlen.
      cbn [length] in Hlen. lia.
Qed.

(** X13: the key parser inverts the array text that [Api.h] declares: for
    every list of keys, whatever bytes the keys hold, parsing the JSON array
    of the escaped keys gives the keys back in order, and whatever follows
    the closing bracket is not read; [Object::keys] returns them when the
    runtime answers with that text. *)
Theorem keys_round_trip (rt : Runtime) (o : Object.t) (ks : list string) (junk : string)
    (t : Trace) :
  parse_keys (keys_text ks junk) = ks /\
  (Object.handle o <> nullptr ->
   rt_object_keys rt t (Object.handle o) = Some (keys_text ks junk) ->
   c_str (keys_text ks junk) = keys_text ks junk ->
   Object.keys rt o t = (Ok ks, t ++ [EvObjectKeys (Object.handle o); EvFree])).
Proof.
  split; [apply parse_keys_text|].
  intros Hh Hj Hc. rewrite keys_run.
  destruct (N.eqb_spec (Object.handle o) nullptr) as [|_]; [contradiction|].
  rewrite Hj, Hc, parse_keys_text. reflexivity.
Qed.

Lemma keys_round_trip_witness :
  let ks := ["a"%string; String "b" (String ch_lf EmptyString);
             String ch_backslash (String ch_dquote "c")] in
  Object.keys (example_runtime true (Some (keys_text ks " trailing")))
    {| Object._v := Value.mk Value.Object 0%float false EmptyString 7%N |} [] =
  (Ok ks, [EvObjectKeys 7%N; EvFree]).
Proof.
  intros ks.
  apply (keys_round_trip (example_runtime true (Some (keys_text ks " trailing")))
           {| Object._v := Value.mk Value.Object 0%float false EmptyString 7%N |}
           ks " trailing" []); [discriminate | reflexivity | reflexivity].
Defined.



(** ** Declaring values that hold no handle *)

(** X15: for a value that owns no handle (a primitive, a String, or a handle
    kind with a null handle) [declareCopy] and [declareMove] do the same:
    one [minijs_global_declare] call with the boundary form of the value, no
    retain and no free, and the caller's value is left as it was: a moved
    primitive is not reset. *)
Theorem declare_without_handle (e : Engine.t) (name : string) (v : Value.t) (t : Trace) :
  Value.owns v = false ->
  Engine.declareCopy e name v t =
    (Ok v, t ++ [EvGlobalDeclare (Engine._it e) (c_str name) (fst (Engine.valueToNativeArg v))]) /\
  Engine.declareMove e name v t =
    (Ok v, t ++ [EvGlobalDeclare (Engine._it e) (c_str name) (fst (Engine.valueToNativeArg v))]) /\
  (Value.kind v = Value.String ->
   nv_str (fst (Engine.valueToNativeArg v)) = Some (Value.toStringRef v)) /\
  forall t', Value.dtor v t' = (Ok tt, t').
Proof.
  intros Hown.
  assert (Hc : Value.isHandleKind v && negb (N.eqb (Value.handle v) nullptr) = false).
  { unfold Value.owns in Hown. unfold Value.handle. rewrite andb_comm. exact Hown. }
  assert (Htmp : snd (Engine.valueToNativeArg v) = None)
    by (unfold Engine.valueToNativeArg; destruct (Value.kind v); reflexivity).
  unfold Engine.declareCopy, Engine.declareMove.
  destruct (Engine.valueToNativeArg v) as [nv tmp] eqn:Hnv. cbn [fst snd] in *. subst tmp.
  rewrite Hc. unfold_m. cbn. rewrite ?app_nil_r.
  split; [reflexivity|]. split; [reflexivity|]. split.
  - intros Hk. unfold Engine.valueToNativeArg in Hnv. rewrite Hk in Hnv.
    injection Hnv as <-. reflexivity.
  - intros t'. rewrite dtor_run. unfold dtor_events. rewrite Hown, app_nil_r. reflexivity.
Qed.

Lemma declare_without_handle_witness :
  Engine.declareMove {| Engine._it := 1%N; Engine._bindings := [] |} "g"
    (Value.String_ "text") [] =
  (Ok (Value.String_ "text"),
   [EvGlobalDeclare 1%N "g" (mk_minijs_value MINIJS_STRING 0%float 0 (Some "text"%string) nullptr)]).
Proof.
  destruct (declare_without_handle {| Engine._it := 1%N; Engine._bindings := [] |} "g"
              (Value.String_ "text") []) as (_ & Hmove & _); [reflexivity|].
  exact Hmove.
Defined.

(** ** The life of an engine *)

Ltac unfold_l :=
  unfold mbind, mret, Lifecycle.L_bind, Lifecycle.L_ret, Lifecycle.lbind, Lifecycle.lret,
    Lifecycle.lthrow, Lifecycle.lget, Lifecycle.lput, Lifecycle.lcall in *.

Lemma lift_run {A} (m : M A) (o : Outcome A) (ev : Trace) (s : Engine.t * list Lifecycle.Call) :
  (forall t, m t = (o, t ++ ev)) ->
  Lifecycle.lift m s = (o, (fst s, snd s ++ (Lifecycle.Api <$> ev))).
Proof.
  intros Hm. unfold Lifecycle.lift. rewrite Hm, drop_app_length. reflexivity.
Qed.

Lemma createArray_run (host : Lifecycle.Host) (e : Engine.t) (c : list Lifecycle.Call) :
  Lifecycle.createArray host (e, c) =
  let h := Lifecycle.h_array_create host c in
  if N.eqb h nullptr
  then (Throw (runtime_error "minijs_array_create failed"), (e, c ++ [Lifecycle.CallArrayCreate]))
  else (Ok {| Array._v := Value.mk Value.Array 0%float false EmptyString h |},
        (e, c ++ [Lifecycle.CallArrayCreate])).
Proof.
  unfold Lifecycle.createArray. unfold_l. cbn.
  destruct (N.eqb (Lifecycle.h_array_create host c) nullptr); [reflexivity|].
  unfold Lifecycle.lift. cbn. unfold Array.ctor, Value.Handle, view_ctor. unfold_m. cbn.
  rewrite !drop_all. cbn. rewrite !app_nil_r. reflexivity.
Qed.

Lemma createObject_run (host : Lifecycle.Host) (e : Engine.t) (c : list Lifecycle.Call) :
  Lifecycle.createObject host (e, c) =
  let h := Lifecycle.h_object_create host c in
  if N.eqb h nullptr
  then (Throw (runtime_error "minijs_object_create failed"),
        (e, c ++ [Lifecycle.CallObjectCreate]))
  else (Ok {| Object._v := Value.mk Value.Object 0%float false EmptyString h |},
        (e, c ++ [Lifecycle.CallObjectCreate])).
Proof.
  unfold Lifecycle.createObject. unfold_l. cbn.
  destruct (N.eqb (Lifecycle.h_object_create host c) nullptr); [reflexivity|].
  unfold Lifecycle.lift. cbn. unfold Object.ctor, Value.Handle, view_ctor. unfold_m. cbn.
  rewrite !drop_all. cbn. rewrite !app_nil_r. reflexivity.
Qed.

Lemma createClass_run (host : Lifecycle.Host) (name : string) (e : Engine.t)
    (c : list Lifecycle.Call) :
  Lifecycle.createClass host name (e, c) =
  let call := Lifecycle.CallClassCreate (Engine._it e) (c_str name) in
  let h := Lifecycle.h_class_create host c (Engine._it e) (c_str name) in
  if N.eqb h nullptr
  then (Throw (runtime_error "minijs_class_create failed"), (e, c ++ [call]))
  else (Ok {| Class._v := Value.mk Value.Class 0%float false EmptyString h |},
        (e, c ++ [call])).
Proof.
  unfold Lifecycle.createClass. unfold_l. cbn.
  destruct (N.eqb (Lifecycle.h_class_create host c (Engine._it e) (c_str name)) nullptr);
    [reflexivity|].
  unfold Lifecycle.lift. cbn. unfold Class.ctor, Value.Handle, view_ctor. unfold_m. cbn.
  rewrite !drop_all. cbn. rewrite !app_nil_r. reflexivity.
Qed.

Lemma createFunction_run (host : Lifecycle.Host) (this : ptr) (cb : Engine.Callback)
    (e : Engine.t) (c : list Lifecycle.Call) :
  Lifecycle.createFunction host this cb (e, c) =
  let b := {| Engine.engine := this; Engine.cb := cb |} in
  let e' := {| Engine._it := Engine._it e; Engine._bindings := Engine._bindings e ++ [b] |} in
  let h := Lifecycle.h_function_create_native host c in
  if N.eqb h nullptr
  then (Throw (runtime_error "minijs_function_create_native failed"),
        (e', c ++ [Lifecycle.CallFunctionCreateNative b]))
  else (Ok {| Function._v := Value.mk Value.Function 0%float false EmptyString h |},
        (e', c ++ [Lifecycle.CallFunctionCreateNative b])).
Proof.
  unfold Lifecycle.createFunction. unfold_l. cbn.
  destruct (N.eqb (Lifecycle.h_function_create_native host c) nullptr); [reflexivity|].
  unfold Lifecycle.lift. cbn. unfold Function.ctor, Value.Handle, view_ctor. unfold_m. cbn.
  rewrite !drop_all. cbn. rewrite !app_nil_r. reflexivity.
Qed.

Lemma registerFunction_run (this : ptr) (name : string) (cb : Engine.Callback)
    (e : Engine.t) (c : list Lifecycle.Call) :
  Lifecycle.registerFunction this name cb (e, c) =
  let b := {| Engine.engine := this; Engine.cb := cb |} in
  if String.eqb name EmptyString
  then (Throw (runtime_error "registerFunction: name empty"), (e, c))
  else (Ok tt,
        ({| Engine._it := Engine._it e; Engine._bindings := Engine._bindings e ++ [b] |},
         c ++ [Lifecycle.CallRegister (Engine._it e) (c_str name) b])).
Proof.
  unfold Lifecycle.registerFunction. destruct (String.eqb name EmptyString); reflexivity.
Qed.

(** X16: the factories of the engine: when the runtime answers with a null
    handle, [createArray], [createObject], [createClass] and [createFunction]
    fail after their one call; otherwise they return a view that holds the
    handle, without retaining it, so that the view owns the reference of the
    creation and the destruction of its value releases the handle exactly
    once.  [createFunction] has added its Binding to the engine by then, also
    when it fails. *)
Theorem engine_factories (host : Lifecycle.Host) (this : ptr) (name : string)
    (cb : Engine.Callback) (e : Engine.t) (c : list Lifecycle.Call) :
  let b := {| Engine.engine := this; Engine.cb := cb |} in
  let e' := {| Engine._it := Engine._it e; Engine._bindings := Engine._bindings e ++ [b] |} in
  let ha := Lifecycle.h_array_create host c in
  let ho := Lifecycle.h_object_create host c in
  let hc := Lifecycle.h_class_create host c (Engine._it e) (c_str name) in
  let hf := Lifecycle.h_function_create_native host c in
  (ha = nullptr ->
   Lifecycle.createArray host (e, c) =
     (Throw (runtime_error "minijs_array_create failed"),
      (e, c ++ [Lifecycle.CallArrayCreate]))) /\
  (ho = nullptr ->
   Lifecycle.createObject host (e, c) =
     (Throw (runtime_error "minijs_object_create failed"),
      (e, c ++ [Lifecycle.CallObjectCreate]))) /\
  (hc = nullptr ->
   Lifecycle.createClass host name (e, c) =
     (Throw (runtime_error "minijs_class_create failed"),
      (e, c ++ [Lifecycle.CallClassCreate (Engine._it e) (c_str name)]))) /\
  (hf = nullptr ->
   Lifecycle.createFunction host this cb (e, c) =
     (Throw (runtime_error "minijs_function_create_native failed"),
      (e', c ++ [Lifecycle.CallFunctionCreateNative b]))) /\
  (ha <> nullptr ->
   exists a, Lifecycle.createArray host (e, c) = (Ok a, (e, c ++ [Lifecycle.CallArrayCreate])) /\
     Array.handle a = ha /\
     forall t, Value.dtor (Array._v a) t = (Ok tt, t ++ [EvRelease ha])) /\
  (ho <> nullptr ->
   exists o, Lifecycle.createObject host (e, c) =
               (Ok o, (e, c ++ [Lifecycle.CallObjectCreate])) /\
     Object.handle o = ho /\
     forall t, Value.dtor (Object._v o) t = (Ok tt, t ++ [EvRelease ho])) /\
  (hc <> nullptr ->
   exists k, Lifecycle.createClass host name (e, c) =
               (Ok k, (e, c ++ [Lifecycle.CallClassCreate (Engine._it e) (c_str name)])) /\
     Class.handle k = hc /\
     forall t, Value.dtor (Class._v k) t = (Ok tt, t ++ [EvRelease hc])) /\
  (hf <> nullptr ->
   exists f, Lifecycle.createFunction host this cb (e, c) =
               (Ok f, (e', c ++ [Lifecycle.CallFunctionCreateNative b])) /\
     Function.handle f = hf /\
     forall t, Function.dtor f t = (Ok tt, t ++ [EvRelease hf])).
Proof.
  cbv zeta.
  rewrite createArray_run, createObject_run, createClass_run, createFunction_run. cbv zeta.
  repeat apply conj; intros Hh;
    try (rewrite Hh; reflexivity);
    (match goal with |- context [N.eqb ?h nullptr] =>
       destruct (N.eqb_spec h nullptr) as [|Hne]; [contradiction|] end);
    (eexists; split; [reflexivity|]; split; [reflexivity|]; intros t;
     unfold Function.dtor; rewrite dtor_run; unfold dtor_events, Value.owns; cbn;
     match goal with |- context [N.eqb ?h nullptr] =>
       destruct (N.eqb_spec h nullptr) as [|_]; [contradiction|] end; reflexivity).
Qed.

Lemma engine_factories_witness :
  let host := example_host 1%N nullptr 7%N 6%N 8%N None in
  let e := {| Engine._it := 1%N; Engine._bindings := [] |} in
  (exists a, Lifecycle.createArray host (e, []) = (Ok a, (e, [Lifecycle.CallArrayCreate])) /\
     Array.handle a = 8%N /\
     forall t, Value.dtor (Array._v a) t = (Ok tt, t ++ [EvRelease 8%N])) /\
  Lifecycle.createFunction host 5%N Main.hostAdd (e, []) =
    (Throw (runtime_error "minijs_function_create_native failed"),
     ({| Engine._it := 1%N;
         Engine._bindings := [{| Engine.engine := 5%N; Engine.cb := Main.hostAdd |}] |},
      [Lifecycle.CallFunctionCreateNative
         {| Engine.engine := 5%N; Engine.cb := Main.hostAdd |}])).
Proof.
  intros host e.
  destruct (engine_factories host 5%N "C" Main.hostAdd e [])
    as (_ & _ & _ & Hf & Ha & _).
  split; [apply Ha; discriminate | apply Hf; reflexivity].
Defined.

(** X17: [registerFunction] with an empty name fails before anything is
    done: the engine and the log are unchanged.  Otherwise it makes the one
    [minijs_register] call with a new Binding of this engine.  Through
    [registerFunction] and [createFunction], whether they return or fail, the
    runtime instance of the engine stays the same, the Bindings it had stay in
    place in front of the new one (none is removed), and every Binding keeps
    pointing at this engine. *)
Theorem bindings_only_grow (host : Lifecycle.Host) (this : ptr) (name : string)
    (cb : Engine.Callback) (e : Engine.t) (c : list Lifecycle.Call) :
  let b := {| Engine.engine := this; Engine.cb := cb |} in
  let grown := {| Engine._it := Engine._it e; Engine._bindings := Engine._bindings e ++ [b] |} in
  let e1 := fst (snd (Lifecycle.registerFunction this name cb (e, c))) in
  let e2 := fst (snd (Lifecycle.createFunction host this cb (e, c))) in
  (name = EmptyString ->
   Lifecycle.registerFunction this name cb (e, c) =
     (Throw (runtime_error "registerFunction: name empty"), (e, c))) /\
  (name <> EmptyString ->
   Lifecycle.registerFunction this name cb (e, c) =
     (Ok tt, (grown, c ++ [Lifecycle.CallRegister (Engine._it e) (c_str name) b]))) /\
  e2 = grown /\
  Engine._it e1 = Engine._it e /\
  Engine._bindings e `prefix_of` Engine._bindings e1 /\
  Engine._bindings e `prefix_of` Engine._bindings e2 /\
  (Forall (fun b => Engine.engine b = this) (Engine._bindings e) ->
   Forall (fun b => Engine.engine b = this) (Engine._bindings e1) /\
   Forall (fun b => Engine.engine b = this) (Engine._bindings e2)).
Proof.
  cbv zeta. rewrite registerFunction_run, createFunction_run. cbv zeta.
  destruct (String.eqb_spec name EmptyString) as [Hn|Hn];
    destruct (N.eqb (Lifecycle.h_function_create_native host c) nullptr); cbn [fst snd];
    (repeat apply conj;
     [ intros; try reflexivity; contradiction
     | intros; try reflexivity; contradiction
     | reflexivity
     | reflexivity
     | first [reflexivity | apply prefix_app_r; reflexivity]
     | apply prefix_app_r; reflexivity
     | intros Hall; split;
       first [exact Hall | apply Forall_app; split; [exact Hall | repeat constructor]] ]).
Qed.

Lemma bindings_only_grow_witness :
  let e := {| Engine._it := 1%N; Engine._bindings := [] |} in
  let b := {| Engine.engine := 5%N; Engine.cb := Main.hostAdd |} in
  Lifecycle.registerFunction 5%N "" Main.hostAdd (e, []) =
    (Throw (runtime_error "registerFunction: name empty"), (e, [])) /\
  Lifecycle.registerFunction 5%N "hostAdd" Main.hostAdd (e, []) =
    (Ok tt, ({| Engine._it := 1%N; Engine._bindings := [b] |},
             [Lifecycle.CallRegister 1%N "hostAdd" b])).
Proof.
  intros e b.
  destruct (bindings_only_grow (example_host 1%N 2%N 7%N 6%N 8%N None) 5%N "" Main.hostAdd e [])
    as (Hempty & _).
  destruct (bindings_only_grow (example_host 1%N 2%N 7%N 6%N 8%N None) 5%N "hostAdd"
              Main.hostAdd e []) as (_ & Hreg & _).
  split; [apply Hempty; reflexivity | apply Hreg; discriminate].
Defined.

Lemma addMethod_run (c : Class.t) (name : string) (fn : Function.t) (t : Trace) :
  Class.handle c <> nullptr ->
  Class.addMethod c name fn t =
  (Ok {| Function._v := Value.mk Value.Null 0%float false EmptyString nullptr |},
   t ++ [EvClassAddMethod (Class.handle c) (c_str name) (Function.handle fn)]).
Proof.
  intros Hc. unfold Class.addMethod.
  destruct (N.eqb_spec (Class.handle c) nullptr) as [|_]; [contradiction|]. reflexivity.
Qed.

Lemma declareMove_run (e : Engine.t) (name : string) (v : Value.t) (t : Trace) :
  holds_handle v ->
  Engine.declareMove e name v t =
  (Ok (Value.mk Value.Null 0%float false EmptyString nullptr),
   t ++ [EvGlobalDeclare (Engine._it e) (c_str name)
           (mk_minijs_value (Value.Kind_to_int (Value.kind v)) 0%float 0 None (Value.handle v))]).
Proof.
  intros Hv. pose proof (holds_handle_cases v Hv) as (Hc & _ & _ & _ & Hnv & Htmp).
  unfold Engine.declareMove.
  destruct (Engine.valueToNativeArg v) as [nv1 tmp]. simpl in Hnv, Htmp. subst nv1 tmp.
  rewrite Hc. reflexivity.
Qed.

Lemma null_dtor_run (t : Trace) :
  Value.dtor (Value.mk Value.Null 0%float false EmptyString nullptr) t = (Ok tt, t ++ []).
Proof. rewrite dtor_run. reflexivity. Qed.

(** ** The run of a script *)

Lemma fmap_handle_counts (h : ptr) (l : list ptr) :
  retains h (EvRetain <$> l) = releases h (EvRelease <$> l) /\
  retains h (EvRelease <$> l) = 0%nat.
Proof.
  unfold retains, releases.
  induction l as [|x l [IH1 IH2]]; [split; reflexivity|].
  cbn. destruct (N.eqb x h); cbn; rewrite ?IH1; split; first [reflexivity | exact IH2].
Qed.

Lemma quiet_nil : quiet [].
Proof. split; [constructor | intros h; reflexivity]. Qed.

Lemma quiet_app (d1 d2 : Trace) : quiet d1 -> quiet d2 -> quiet (d1 ++ d2).
Proof.
  intros [Ha1 Hc1] [Ha2 Hc2]. split; [apply Forall_app; split; assumption|].
  intros h. rewrite retains_app, releases_app. specialize (Hc1 h). specialize (Hc2 h). lia.
Qed.

Lemma hostAdd_quiet (this : ptr) :
  quiet_closure {| Engine.engine := this; Engine.cb := Main.hostAdd |}.
Proof.
  intros args tv t. eexists _, []. cbn [Engine.cb]. rewrite hostAdd_run, app_nil_r.
  split; [reflexivity | apply quiet_nil].
Qed.

Lemma counter_constructor_quiet (this : ptr) (js : Engine.t) :
  quiet_closure {| Engine.engine := this; Engine.cb := Main.counter_constructor js |}.
Proof.
  intros args tv t. cbn [Engine.cb]. rewrite counter_constructor_run. cbv zeta.
  destruct (N.eqb (Value.handle tv) nullptr).
  - eexists _, []. rewrite app_nil_r. split; [reflexivity | apply quiet_nil].
  - eexists _, _. split; [reflexivity|]. split; [repeat constructor|].
    intros h. unfold retains, releases. cbn.
    destruct (N.eqb (Value.handle tv) h); cbn; lia.
Qed.

Lemma counter_inc_quiet (rt : Runtime) (this : ptr) (js : Engine.t) :
  quiet_closure {| Engine.engine := this; Engine.cb := Main.counter_inc rt js |}.
Proof.
  intros args [k n b0 s h] t. cbn [Engine.cb]. unfold Main.counter_inc.
  rewrite with_self_run. cbv zeta. cbn [Value.handle Value._h].
  unfold Object.set, Object.get, Object.handle, copy_events, Value.owns.
  cbn [Object._v Value.handle Value._h Value._kind Value.isHandleKind].
  destruct h as [|p].
  - unfold scope_exit, Value.dtor, Value.cleanup, Value.owns. unfold_m. cbn.
    eexists _, []. rewrite !app_nil_r. split; [reflexivity | apply quiet_nil].
  - set (h := N.pos p).
    change (N.eqb h nullptr) with false. cbn [negb andb].
    destruct (read_out_run (rt_object_get rt (t ++ [EvRetain h]) h (c_str "x"))
                ((t ++ [EvRetain h]) ++ [EvObjectGet h (c_str "x")])) as (got & _ & Hgot).
    unfold call. unfold_m. rewrite Hgot. rewrite !dtor_run.
    match type of Hgot with _ = (_, _ ++ ?f) => set (frees := f) in * end.
    assert (Hfrees : quiet frees).
    { subst frees. destruct (_ && _); [|apply quiet_nil].
      split; [repeat constructor | intros h'; reflexivity]. }
    assert (Hdg : Forall (fun e => run_event e = true) (dtor_events got))
      by (unfold dtor_events; destruct (Value.owns got); repeat constructor).
    assert (Hdg0 : forall h', retains h' (dtor_events got) = 0%nat)
      by (intros h'; apply dtor_events_count).
    set (dg := dtor_events got) in *. clearbody frees dg. clear Hgot.
    unfold Engine.valueToNativeArg, Value.Number_, Engine.free_tmp.
    cbn [Value.kind Value._kind]. unfold_m. rewrite !dtor_run.
    unfold dtor_events, Value.owns. cbn [Value._h Value._kind Value.isHandleKind andb].
    change (N.eqb h nullptr) with false. cbn [negb andb].
    rewrite ?app_nil_r, <- ?app_assoc.
    eexists _, _. split; [reflexivity|].
    destruct Hfrees as [Hf1 Hf2]. split.
    + repeat (apply Forall_cons; split; [reflexivity|]).
      apply Forall_app; split; [exact Hf1|]. apply Forall_app; split; [exact Hdg|].
      repeat constructor.
    + intros h'. specialize (Hf2 h'). cbn [app].
      change (?x :: ?y :: frees ++ dg ++ ?l) with ([x; y] ++ frees ++ dg ++ l).
      rewrite !retains_app, !releases_app.
      rewrite Hdg0.
      clearbody h. unfold retains at 1 3, releases at 1 4. cbn.
      destruct (N.eqb h h'); cbn; lia.
Qed.

Lemma trampoline_quiet (rt : Runtime) (userdata : option Engine.Binding)
    (argv : list minijs_value) (thisVal : option minijs_value) (t : Trace) :
  match userdata with Some b => quiet_closure b | None => True end ->
  exists out d, Engine.trampoline rt argv thisVal userdata t = (Ok out, t ++ d) /\ quiet d.
Proof.
  intros Hq. destruct userdata as [b|];
    [|eexists _, []; rewrite app_nil_r; split; [reflexivity | apply quiet_nil]].
  destruct (N.eq_dec (Engine.engine b) nullptr) as [Hb|Hb].
  { eexists _, []. unfold Engine.trampoline. rewrite Hb, app_nil_r.
    split; [reflexivity | apply quiet_nil]. }
  destruct (trampoline_shape rt argv thisVal b t Hb) as (args & tv & out & _ & _ & Hrun).
  cbv zeta in Hrun.
  destruct (Hq args tv
              (t ++ (EvRetain <$> native_handles argv ++ native_handles (option_list thisVal))))
    as (r & d & Hcb & Hd).
  rewrite Hcb in Hrun. cbn [fst snd] in Hrun. rewrite <- !app_assoc in Hrun.
  eexists _, _. split; [exact Hrun|].
  set (l1 := native_handles argv) in *. set (l2 := native_handles (option_list thisVal)) in *.
  assert (Hret : Forall (fun e => run_event e = true) (EvRetain <$> l1 ++ l2))
    by (apply Forall_fmap, Forall_true; reflexivity).
  assert (Hrel : Forall (fun e => run_event e = true) (EvRelease <$> l2 ++ l1))
    by (apply Forall_fmap, Forall_true; reflexivity).
  destruct Hd as [Hall Hcount].
  assert (Hn : forall h,
            (retains h (EvRetain <$> l1 ++ l2) <= releases h (EvRelease <$> l2 ++ l1))%nat /\
            retains h (EvRelease <$> l2 ++ l1) = 0%nat).
  { intros h. rewrite !fmap_app, !retains_app, !releases_app.
    destruct (fmap_handle_counts h l1) as [-> ->].
    destruct (fmap_handle_counts h l2) as [-> ->]. lia. }
  split.
  - apply Forall_app; split; [exact Hret|]. apply Forall_app; split; [exact Hall|].
    destruct r as [v|e].
    + apply Forall_app; split; [destruct (Value.kind v); repeat constructor | exact Hrel].
    + apply Forall_app; split; [exact Hrel | repeat constructor].
  - intros h. specialize (Hcount h). destruct (Hn h) as [Hle Hz].
    rewrite !retains_app, !releases_app.
    destruct r as [v|e]; rewrite !retains_app, !releases_app, Hz.
    + match goal with |- context [(retains h ?m + 0)%nat] =>
        assert (retains h m = 0%nat) as -> by (destruct (Value.kind v); reflexivity) end.
      lia.
    + change (retains h [malloc_event (Engine.error_message e)]) with 0%nat. lia.
Qed.

Lemma api_trace_app (c : list Lifecycle.Call) (d : Trace) :
  Lifecycle.api_trace (c ++ (Lifecycle.Api <$> d)) = Lifecycle.api_trace c ++ d.
Proof.
  unfold Lifecycle.api_trace. rewrite omap_app. f_equal.
  induction d as [|e d IH]; [reflexivity|]. cbn. rewrite IH. reflexivity.
Qed.

Lemma lift_run_at {A} (m : M A) (o : Outcome A) (ev : Trace)
    (s : Engine.t * list Lifecycle.Call) :
  m (Lifecycle.api_trace (snd s)) = (o, Lifecycle.api_trace (snd s) ++ ev) ->
  Lifecycle.lift m s = (o, (fst s, snd s ++ (Lifecycle.Api <$> ev))).
Proof.
  intros Hm. unfold Lifecycle.lift. rewrite Hm, drop_app_length. reflexivity.
Qed.

Lemma run_script_quiet (rt : Runtime) (bs : list Engine.Binding) (s : Lifecycle.Script) :
  Forall quiet_closure bs -> Lifecycle.script_calls_only bs s ->
  forall js c, exists out d,
    Lifecycle.run_script rt s (js, c) = (Ok out, (js, c ++ (Lifecycle.Api <$> d))) /\
    quiet d.
Proof.
  intros Hbs. induction s as [out|userdata argv thisVal next IH]; intros Hs js c.
  - exists out, []. cbn. rewrite app_nil_r. split; [reflexivity | apply quiet_nil].
  - destruct Hs as [Hu Hnext].
    destruct (trampoline_quiet rt userdata argv thisVal (Lifecycle.api_trace c))
      as (r & d1 & Hr & Hd1).
    { destruct userdata as [b|]; [|exact I].
      rewrite Forall_forall in Hbs. apply Hbs, Hu. }
    destruct (IH r (Hnext r) js (c ++ (Lifecycle.Api <$> d1))) as (out & d2 & Hrun & Hd2).
    exists out, (d1 ++ d2). cbn [Lifecycle.run_script]. unfold Lifecycle.lbind.
    rewrite (lift_run_at _ (Ok r) d1 (js, c)) by exact Hr. cbn [fst snd].
    rewrite Hrun, fmap_app, app_assoc. split; [reflexivity | apply quiet_app; assumption].
Qed.

Lemma run_script_state (rt : Runtime) (s : Lifecycle.Script) (js : Engine.t)
    (c : list Lifecycle.Call) :
  fst (snd (Lifecycle.run_script rt s (js, c))) = js.
Proof.
  revert c. induction s as [out|userdata argv thisVal next IH]; intros c; [reflexivity|].
  cbn [Lifecycle.run_script]. unfold Lifecycle.lbind, Lifecycle.lift. cbn [fst snd].
  destruct (Engine.trampoline rt argv thisVal userdata (Lifecycle.api_trace c)) as [[r|e] t'];
    [apply IH | reflexivity].
Qed.

Ltac lstep := unfold mbind at 1, Lifecycle.L_bind at 1, Lifecycle.lbind at 1.
Ltac lnorm :=
  rewrite <- ?app_assoc;
  cbn [app fst snd fmap list_fmap Engine._it Engine._bindings Class.handle Class._v
       Function.handle Function._v Value.handle Value._h Value.kind Value._kind
       Value.Kind_to_int].

Lemma main_run (host : Lifecycle.Host) (rt : Runtime) (this : ptr) (argc : Z)
    (code : string) (c : list Lifecycle.Call) :
  let it := Lifecycle.h_create host c in
  let add := {| Engine.engine := this; Engine.cb := Main.hostAdd |} in
  let c1 := c ++ [Lifecycle.CallCreate; Lifecycle.CallRegister it "hostAdd" add] in
  let hc := Lifecycle.h_class_create host c1 it "Counter" in
  let c2 := c1 ++ [Lifecycle.CallClassCreate it "Counter"] in
  let ctor := {| Engine.engine := this;
                 Engine.cb := Main.counter_constructor
                                {| Engine._it := it; Engine._bindings := [add] |} |} in
  let hf1 := Lifecycle.h_function_create_native host c2 in
  let c3 := c2 ++ [Lifecycle.CallFunctionCreateNative ctor;
                   Lifecycle.Api (EvClassAddMethod hc "constructor" hf1)] in
  let inc := {| Engine.engine := this;
                Engine.cb := Main.counter_inc rt
                               {| Engine._it := it; Engine._bindings := [add; ctor] |} |} in
  let hf2 := Lifecycle.h_function_create_native host c3 in
  let c4 := c3 ++ [Lifecycle.CallFunctionCreateNative inc;
                   Lifecycle.Api (EvClassAddMethod hc "inc" hf2);
                   Lifecycle.Api (EvGlobalDeclare it "Counter"
                                    (mk_minijs_value MINIJS_CLASS 0%float 0 None hc))] in
  let script := Lifecycle.h_run host c4 it (c_str code) in
  let js := {| Engine._it := it; Engine._bindings := [add; ctor; inc] |} in
  Lifecycle.main host rt this argc code c =
  if argc <? 2 then (Ok 1, c)
  else if N.eqb it nullptr
  then (Throw (runtime_error "minijs_create() failed"), c ++ [Lifecycle.CallCreate])
  else if N.eqb hc nullptr then (Throw (runtime_error "minijs_class_create failed"), c2)
  else if N.eqb hf1 nullptr
  then (Throw (runtime_error "minijs_function_create_native failed"),
        c2 ++ [Lifecycle.CallFunctionCreateNative ctor])
  else if N.eqb hf2 nullptr
  then (Throw (runtime_error "minijs_function_create_native failed"),
        c3 ++ [Lifecycle.CallFunctionCreateNative inc])
  else
    match Lifecycle.run_script rt script (js, c4 ++ [Lifecycle.CallRun it (c_str code)]) with
    | (Ok out, (_, c5)) =>
        (Ok 0, c5 ++ match out with Some _ => [Lifecycle.Api EvFree] | None => [] end ++
               [Lifecycle.CallDestroy it])
    | (Throw e, (_, c5)) => (Throw e, c5)
    end.
Proof.
  intros it add c1 hc c2 ctor hf1 c3 inc hf2 c4 script js.
  subst script c4 hf2 c3 hf1 c2 hc c1. lnorm.
  unfold Lifecycle.main. destruct (argc <? 2); [reflexivity|].
  unfold Lifecycle.Engine_ctor. fold it.
  destruct (N.eqb_spec it nullptr) as [|Hit]; [reflexivity|].
  lstep. rewrite registerFunction_run. cbv zeta.
  change (String.eqb "hostAdd" "") with false. cbv iota.
  change (c_str "hostAdd") with "hostAdd"%string. fold add. lnorm.
  lstep. rewrite createClass_run. cbv zeta. lnorm.
  change (c_str "Counter") with "Counter"%string.
  match goal with |- context [N.eqb ?h nullptr] =>
    destruct (N.eqb_spec h nullptr) as [|Hhc]; [reflexivity|]; set (hc := h) in * end.
  lstep. unfold Lifecycle.lget at 1. cbn [fst].
  lstep. rewrite createFunction_run. cbv zeta. lnorm. fold ctor.
  match goal with |- context [N.eqb ?h nullptr] =>
    destruct (N.eqb_spec h nullptr) as [|Hhf1]; [reflexivity|]; set (hf1 := h) in * end.
  lstep. erewrite lift_run by (intros t; apply addMethod_run; exact Hhc). lnorm.
  lstep. erewrite lift_run by (intros t; apply null_dtor_run). lnorm.
  lstep. unfold Lifecycle.lget at 1. cbn [fst].
  lstep. rewrite createFunction_run. cbv zeta. lnorm. fold inc.
  change (c_str "constructor") with "constructor"%string.
  match goal with |- context [N.eqb ?h nullptr] =>
    destruct (N.eqb_spec h nullptr) as [|Hhf2]; [reflexivity|]; set (hf2 := h) in * end.
  lstep. erewrite lift_run by (intros t; apply addMethod_run; exact Hhc). lnorm.
  lstep. erewrite lift_run by (intros t; apply null_dtor_run). lnorm.
  unfold Class_toValueMove.
  cbn [Value.move_ctor Class._v Value._kind Value._num Value._b Value._s Value._h].
  lstep. unfold Lifecycle.lget at 1. cbn [fst].
  lstep. erewrite lift_run
    by (intros t; apply declareMove_run; split; [reflexivity | exact Hhc]). lnorm.
  lstep. erewrite lift_run by (intros t; apply null_dtor_run). lnorm.
  change (c_str "inc") with "inc"%string. change (c_str "Counter") with "Counter"%string.
  cbn [Value.Kind_to_int Value.kind Value._kind Value.handle Value._h Class.handle Class._v
       Function.handle Function._v].
  lstep. unfold Lifecycle.run. unfold_l. cbn [fst snd Engine._it]. lnorm. fold js.
  match goal with |- context [Lifecycle.run_script rt ?s (js, ?l)] =>
    pose proof (run_script_state rt s js l) as Hjs;
    destruct (Lifecycle.run_script rt s (js, l)) as [[out|e] [js' c5]] end;
    cbn [fst snd] in Hjs; subst js'; [|reflexivity].
  destruct out as [o|]; cbn [fst snd];
    (erewrite lift_run by (intros t; apply null_dtor_run)); lnorm;
    unfold Lifecycle.Engine_dtor; unfold_l; cbn [fst snd Engine._it js];
    (destruct (N.eqb_spec it nullptr) as [|_]; [contradiction|]); cbn [negb fst snd];
    rewrite <- ?app_assoc; cbn [app]; rewrite ?app_nil_r; reflexivity.
Qed.


(** X18: [main] of the example, with the callbacks the runtime makes while it
    runs the code.  With fewer than two arguments [main] returns 1 and calls
    nothing.  Otherwise it fails with the [runtime_error] of the first
    creation the runtime answers with null: the interpreter (nothing else
    has been called then), the class, or one of the two native functions.
    When all four answers are handles, and the runtime calls back only the
    three closures [main] has registered, [main] returns 0 and its calls are
    exactly these, in order: create; register hostAdd; create the class
    Counter; create a native function and add it, by the handle the runtime
    has answered with, as constructor; the same for inc; declare the class
    as the global Counter; run the code; what the trampoline and the
    closures call during the run; free the result text if there is one;
    destroy the interpreter.  Outside the run nothing is retained or
    released: the class handle and the two function handles are each handed
    to the runtime once.  During the run the host only retains, releases,
    allocates, frees and reads and writes properties, and it retains no
    handle more often than it releases it; when the runtime calls nothing
    back, nothing is called during the run. *)
Theorem main_hands_everything_over (host : Lifecycle.Host) (rt : Runtime) (this : ptr)
    (argc : Z) (code : string) (c : list Lifecycle.Call) :
  let it := Lifecycle.h_create host c in
  let add := {| Engine.engine := this; Engine.cb := Main.hostAdd |} in
  let c1 := c ++ [Lifecycle.CallCreate; Lifecycle.CallRegister it "hostAdd" add] in
  let hc := Lifecycle.h_class_create host c1 it "Counter" in
  let c2 := c1 ++ [Lifecycle.CallClassCreate it "Counter"] in
  let ctor := {| Engine.engine := this;
                 Engine.cb := Main.counter_constructor
                                {| Engine._it := it; Engine._bindings := [add] |} |} in
  let hf1 := Lifecycle.h_function_create_native host c2 in
  let c3 := c2 ++ [Lifecycle.CallFunctionCreateNative ctor;
                   Lifecycle.Api (EvClassAddMethod hc "constructor" hf1)] in
  let inc := {| Engine.engine := this;
                Engine.cb := Main.counter_inc rt
                               {| Engine._it := it; Engine._bindings := [add; ctor] |} |} in
  let hf2 := Lifecycle.h_function_create_native host c3 in
  let c4 := c3 ++ [Lifecycle.CallFunctionCreateNative inc;
                   Lifecycle.Api (EvClassAddMethod hc "inc" hf2);
                   Lifecycle.Api (EvGlobalDeclare it "Counter"
                                    (mk_minijs_value MINIJS_CLASS 0%float 0 None hc))] in
  let script := Lifecycle.h_run host c4 it (c_str code) in
  let js := {| Engine._it := it; Engine._bindings := [add; ctor; inc] |} in
  let c5 := c4 ++ [Lifecycle.CallRun it (c_str code)] in
  (argc < 2 -> Lifecycle.main host rt this argc code c = (Ok 1, c)) /\
  (2 <= argc -> it = nullptr ->
   Lifecycle.main host rt this argc code c =
     (Throw (runtime_error "minijs_create() failed"), c ++ [Lifecycle.CallCreate])) /\
  (2 <= argc -> it <> nullptr -> hc = nullptr ->
   fst (Lifecycle.main host rt this argc code c) =
     Throw (runtime_error "minijs_class_create failed")) /\
  (2 <= argc -> it <> nullptr -> hc <> nullptr -> hf1 = nullptr \/ hf2 = nullptr ->
   fst (Lifecycle.main host rt this argc code c) =
     Throw (runtime_error "minijs_function_create_native failed")) /\
  (2 <= argc -> it <> nullptr -> hc <> nullptr -> hf1 <> nullptr -> hf2 <> nullptr ->
   Lifecycle.script_calls_only [add; ctor; inc] script ->
   exists out d,
     Lifecycle.run_script rt script (js, c5) = (Ok out, (js, c5 ++ (Lifecycle.Api <$> d))) /\
     Lifecycle.main host rt this argc code c =
       (Ok 0, c5 ++ (Lifecycle.Api <$> d) ++
              match out with Some _ => [Lifecycle.Api EvFree] | None => [] end ++
              [Lifecycle.CallDestroy it]) /\
     Forall (fun e => run_event e = true) d /\
     (forall h, (retains h d <= releases h d)%nat) /\
     (forall o, script = Lifecycle.ScriptDone o -> out = o /\ d = [])).
Proof.
  intros it add c1 hc c2 ctor hf1 c3 inc hf2 c4 script js c5.
  pose proof (main_run host rt this argc code c) as Hmain. cbv zeta in Hmain.
  fold it add c1 hc c2 ctor hf1 c3 inc hf2 c4 script js c5 in Hmain.
  rewrite Hmain. clear Hmain.
  split; [|split; [|split; [|split]]].
  - intros Hargc. destruct (Z.ltb_spec argc 2) as [_|]; [reflexivity | lia].
  - intros Hargc Hit. destruct (Z.ltb_spec argc 2) as [|_]; [lia|]. rewrite Hit. reflexivity.
  - intros Hargc Hit Hhc. destruct (Z.ltb_spec argc 2) as [|_]; [lia|].
    destruct (N.eqb_spec it nullptr) as [|_]; [contradiction|]. rewrite Hhc. reflexivity.
  - intros Hargc Hit Hhc Hhf. destruct (Z.ltb_spec argc 2) as [|_]; [lia|].
    destruct (N.eqb_spec it nullptr) as [|_]; [contradiction|].
    destruct (N.eqb_spec hc nullptr) as [|_]; [contradiction|].
    destruct (N.eqb_spec hf1 nullptr) as [|Hhf1]; [reflexivity|].
    destruct Hhf as [|Hhf2]; [contradiction|]. rewrite Hhf2. reflexivity.
  - intros Hargc Hit Hhc Hhf1 Hhf2 Hscript.
    destruct (Z.ltb_spec argc 2) as [|_]; [lia|].
    destruct (N.eqb_spec it nullptr) as [|_]; [contradiction|].
    destruct (N.eqb_spec hc nullptr) as [|_]; [contradiction|].
    destruct (N.eqb_spec hf1 nullptr) as [|_]; [contradiction|].
    destruct (N.eqb_spec hf2 nullptr) as [|_]; [contradiction|].
    destruct (run_script_quiet rt [add; ctor; inc] script) with (js := js) (c := c5)
      as (out & d & Hrun & Hall & Hcount); [|exact Hscript|].
    { repeat constructor;
        [apply hostAdd_quiet | apply counter_constructor_quiet | apply counter_inc_quiet]. }
    exists out, d. rewrite Hrun.
    split; [reflexivity|]. split; [rewrite <- !app_assoc; reflexivity|].
    split; [exact Hall|]. split; [exact Hcount|].
    intros o Ho. rewrite Ho in Hrun. cbn in Hrun.
    injection Hrun as <- Hlog.
    split; [reflexivity|].
    apply (f_equal length) in Hlog. rewrite length_app, length_fmap in Hlog.
    destruct d; [reflexivity | cbn in Hlog; lia].
Qed.

Lemma main_hands_everything_over_witness :
  let host := calling_host 1%N 7%N 20%N 6%N (Some "6"%string) in
  let add := {| Engine.engine := 5%N; Engine.cb := Main.hostAdd |} in
  let ctor := {| Engine.engine := 5%N;
                 Engine.cb := Main.counter_constructor
                                {| Engine._it := 1%N; Engine._bindings := [add] |} |} in
  let inc := {| Engine.engine := 5%N;
                Engine.cb := Main.counter_inc storing_runtime
                               {| Engine._it := 1%N; Engine._bindings := [add; ctor] |} |} in
  let number x := mk_minijs_value MINIJS_NUMBER x 0 None nullptr in
  let setup :=
    [Lifecycle.CallCreate;
     Lifecycle.CallRegister 1%N "hostAdd" add;
     Lifecycle.CallClassCreate 1%N "Counter";
     Lifecycle.CallFunctionCreateNative ctor;
     Lifecycle.Api (EvClassAddMethod 7%N "constructor" 23%N);
     Lifecycle.CallFunctionCreateNative inc;
     Lifecycle.Api (EvClassAddMethod 7%N "inc" 25%N);
     Lifecycle.Api (EvGlobalDeclare 1%N "Counter"
                      (mk_minijs_value MINIJS_CLASS 0%float 0 None 7%N));
     Lifecycle.CallRun 1%N "code"] in
  let during :=
    [EvRetain 6%N; EvRetain 6%N; EvObjectSet 6%N "x" (number 5%float);
     EvRelease 6%N; EvRelease 6%N;
     EvRetain 6%N; EvRetain 6%N; EvObjectGet 6%N "x"; EvObjectSet 6%N "x" (number 6%float);
     EvRelease 6%N; EvRelease 6%N] in
  Lifecycle.main host storing_runtime 5%N 1 "code" [] = (Ok 1, []) /\
  Lifecycle.main host storing_runtime 5%N 2 "code" [] =
    (Ok 0, setup ++ (Lifecycle.Api <$> during) ++
           [Lifecycle.Api EvFree; Lifecycle.CallDestroy 1%N]) /\
  exists (out : cstr) (d : Trace),
    Lifecycle.main host storing_runtime 5%N 2 "code" [] =
      (Ok 0, ([] ++ setup) ++ (Lifecycle.Api <$> d) ++
             match out with Some _ => [Lifecycle.Api EvFree] | None => [] end ++
             [Lifecycle.CallDestroy 1%N]) /\
    Forall (fun e => run_event e = true) d /\
    (forall h, (retains h d <= releases h d)%nat).
Proof.
  intros host add ctor inc number setup during.
  destruct (main_hands_everything_over host storing_runtime 5%N 1 "code" []) as (Husage & _).
  destruct (main_hands_everything_over host storing_runtime 5%N 2 "code" [])
    as (_ & _ & _ & _ & Hrun).
  split; [apply Husage; lia|]. split; [cbv; reflexivity|].
  destruct Hrun as (out & d & _ & Hmain & Hall & Hcount & _);
    [lia | discriminate | discriminate | discriminate | discriminate | |].
  - split; [apply list_elem_of_here|]. intros r1.
    split; [apply list_elem_of_further, list_elem_of_here|]. intros r2.
    split; [do 2 apply list_elem_of_further; apply list_elem_of_here|]. intros r3.
    exact I.
  - exists out, d. split; [exact Hmain|]. split; [exact Hall | exact Hcount].
Defined.

(** X19: [Class::toValueMove] moves the class handle out of the view: the
    value returned has the kind and the handle of the view, and the view is
    left without handle, so that a later [addMethod] on it fails at once;
    declaring the returned value with [declareMove] hands the handle to the
    runtime in one [minijs_global_declare] call, and neither the emptied view
    nor the detached value releases anything when destroyed. *)
Theorem toValueMove_hands_over (e : Engine.t) (name methodName : string) (c : Class.t)
    (fn : Function.t) (t : Trace) :
  holds_handle (Class._v c) ->
  let v := fst (Class_toValueMove c) in
  let c' := snd (Class_toValueMove c) in
  v = Class._v c /\
  Class.handle c' = nullptr /\ Value.kind (Class._v c') = Value.Null /\
  Class.addMethod c' methodName fn t =
    (Throw (runtime_error "Class::addMethod on null handle"), t) /\
  (exists w,
     Engine.declareMove e name v t =
       (Ok w, t ++ [EvGlobalDeclare (Engine._it e) (c_str name)
                      (mk_minijs_value (Value.Kind_to_int (Value.kind (Class._v c))) 0%float 0
                         None (Class.handle c))]) /\
     forall t', Value.dtor w t' = (Ok tt, t')) /\
  forall t', Value.dtor (Class._v c') t' = (Ok tt, t').
Proof.
  intros Hv. cbv zeta.
  assert (Hmove : Class_toValueMove c =
                  (Class._v c,
                   {| Class._v := Value.mk Value.Null 0%float false EmptyString nullptr |})).
  { unfold Class_toValueMove. destruct c as [[k n b s h]]. reflexivity. }
  rewrite Hmove. cbn [fst snd]. split; [reflexivity|].
  split; [reflexivity|]. split; [reflexivity|]. split; [reflexivity|]. split.
  - eexists. split; [apply declareMove_run; exact Hv|].
    intros t'. rewrite dtor_run. cbn. rewrite app_nil_r. reflexivity.
  - intros t'. rewrite dtor_run. cbn. rewrite app_nil_r. reflexivity.
Qed.

Lemma toValueMove_hands_over_witness :
  let c := {| Class._v := Value.mk Value.Class 0%float false EmptyString 7%N |} in
  Class.handle (snd (Class_toValueMove c)) = nullptr /\
  exists w,
    Engine.declareMove {| Engine._it := 1%N; Engine._bindings := [] |} "Counter"
      (fst (Class_toValueMove c)) [] =
      (Ok w, [EvGlobalDeclare 1%N "Counter"
                (mk_minijs_value MINIJS_CLASS 0%float 0 None 7%N)]) /\
    forall t', Value.dtor w t' = (Ok tt, t').
Proof.
  intros c.
  destruct (toValueMove_hands_over {| Engine._it := 1%N; Engine._bindings := [] |}
              "Counter" "m" c Function.default [])
    as (_ & Hnull & _ & _ & Hdecl & _); [split; [reflexivity | discriminate]|].
  split; [exact Hnull | exact Hdecl].
Defined.
